(** * A shallow embedding of the LangChain RAG backend

    The development follows the layout of the repository:

    - [app/core/config.py]        -> [Module config]
    - [app/models/api_models.py]  -> [QueryRequest], [QueryResponse]
    - [app/services/rag_service.py] -> [Section rag_service]
    - [app/main.py]               -> [query_rag_endpoint], [evaluate_rag]
    - [scripts/ingest.py]         -> [Module ingest]

    The embedding model, the Supabase client and the LLM client are external
    collaborators.  They are the parameters of the development (a record of
    ports); every call through a port is logged, with its arguments and its
    outcome, in the order in which the program makes it.  Python exceptions
    are values of type [exn]; code that may raise returns [res A].

    Rows are JSON objects whose fields are texts, nulls or objects.  The
    floats of [GET /eval] are the results of operations that are named and
    not computed, [x / n] and [sum(xs)]: what is proved of a float is what
    it is the quotient or the sum of.  The examples run on IEEE 754 binary64
    numbers. *)

From Stdlib Require Import Floats Ascii String.
From stdpp Require Import gmap strings list fin_maps pretty.

#[local] Set Warnings "-register-all".
#[local] Open Scope string_scope.
#[local] Open Scope list_scope.
#[local] Open Scope Z_scope.

(** ** Python values and exceptions *)

(** The rows the Supabase client hands back are Python dictionaries decoded
    from JSON.  The program only reads text fields and one nested
    dictionary ([metadata]), so the value universe is: [None] (JSON null),
    [str], and [dict] with string keys. *)
Inductive value : Type :=
  | VNone
  | VStr (s : string)
  | VDict (d : gmap string value).

Abbreviation row := (gmap string value).

Inductive exn : Type :=
  | KeyError (key : string)
  | AttributeError (what : string)
  | TypeError (what : string)
  | ValueError (what : string)
  | ValidationError (field : string)
  | PortFailure (port : string).

Definition res (A : Type) : Type := (exn + A)%type.

#[export] Instance res_ret : MRet res := λ A a, inr a.
#[export] Instance res_bind : MBind res := λ A B k m,
  match m with
  | inl e => inl e
  | inr a => k a
  end.

(** [d[key]] *)
Definition getitem (d : row) (key : string) : res value :=
  match d !! key with
  | Some v => inr v
  | None => inl (KeyError key)
  end.

(** [v.get(key, dflt)]: only a dict has the method. *)
Definition dict_get (v : value) (key : string) (dflt : value) : res value :=
  match v with
  | VDict d => inr (default dflt (d !! key))
  | VNone => inl (AttributeError "'NoneType' object has no attribute 'get'")
  | VStr _ => inl (AttributeError "'str' object has no attribute 'get'")
  end.

(** [v == s] for a string literal [s]. *)
Definition value_eq_str (v : value) (s : string) : bool :=
  match v with
  | VStr t => bool_decide (t = s)
  | _ => false
  end.

(** A place where Python needs a [str]. *)
Definition as_str (what : string) (v : value) : res string :=
  match v with
  | VStr s => inr s
  | _ => inl (TypeError what)
  end.

Definition nl : string := String "010"%char "".

(** [sep.join(items)] on a list of values: every item must be a [str]. *)
Definition str_join (sep : string) (items : list value) : res string :=
  texts ← mapM (as_str "sequence item: expected str instance") items;
  mret (String.concat sep texts).

(** ** [os.path.basename] (posixpath)

<<
    i = p.rfind('/') + 1
    return p[i:]
>> *)
Fixpoint rfind_from (sep : ascii) (p : string) (i last : Z) : Z :=
  match p with
  | EmptyString => last
  | String c rest =>
      rfind_from sep rest (i + 1) (if Ascii.eqb c sep then i else last)
  end.

Definition rfind (sep : ascii) (p : string) : Z := rfind_from sep p 0 (-1).

Fixpoint slice_from (i : nat) (p : string) : string :=
  match i, p with
  | O, _ => p
  | S i', String _ rest => slice_from i' rest
  | S _, EmptyString => EmptyString
  end.

Definition basename (p : string) : string :=
  let i := rfind "/"%char p + 1 in
  slice_from (Z.to_nat i) p.

Definition os_path_basename (v : value) : res string :=
  p ← as_str "expected str, bytes or os.PathLike object" v;
  mret (basename p).

(** ** [app/core/config.py] *)

Module config.

(** The process environment after [load_dotenv()]. *)
Abbreviation environ := (gmap string string).

Definition getenv (env : environ) (key : string) : option string :=
  env !! key.

Definition getenv_default (env : environ) (key dflt : string) : string :=
  default dflt (env !! key).

(** [not x] for [x : Optional[str]]: [None] and [""] are falsy. *)
Definition py_not (x : option string) : bool :=
  match x with
  | None => true
  | Some s => bool_decide (s = "")
  end.

Record settings : Type := Settings {
  SUPABASE_URL : string;
  SUPABASE_KEY : string;
  GOOGLE_API_KEY : string;
  LLM_MODEL_NAME : string;
  EMBEDDING_MODEL_NAME : string;
}.

Definition missing_credentials : string :=
  "Supabase URL/Key and Google API Key must be set in the .env file".

(** The module body up to the construction of the three clients: read the
    environment, then validate.  [inl] is the [ValueError] that aborts
    the import of the module, and with it the start of the application. *)
Definition load (env : environ) : res settings :=
  let supabase_url := getenv env "SUPABASE_URL" in
  let supabase_key := getenv env "SUPABASE_ANON_KEY" in
  let google_api_key := getenv env "GOOGLE_API_KEY" in
  let llm_model_name := getenv_default env "LLM_MODEL" "gemini-1.5-flash" in
  let embedding_model_name := "all-MiniLM-L6-v2" in
  if py_not supabase_url || py_not supabase_key || py_not google_api_key
  then inl (ValueError missing_credentials)
  else inr {| SUPABASE_URL := default "" supabase_url;
              SUPABASE_KEY := default "" supabase_key;
              GOOGLE_API_KEY := default "" google_api_key;
              LLM_MODEL_NAME := llm_model_name;
              EMBEDDING_MODEL_NAME := embedding_model_name |}.

(** What the specification asks of start-up: the model name is a required
    setting as well. *)
Definition all_required_present (env : environ) : bool :=
  negb (py_not (getenv env "SUPABASE_URL"))
  && negb (py_not (getenv env "SUPABASE_ANON_KEY"))
  && negb (py_not (getenv env "GOOGLE_API_KEY"))
  && negb (py_not (getenv env "LLM_MODEL")).

Definition credentials_present (env : environ) : bool :=
  negb (py_not (getenv env "SUPABASE_URL"))
  && negb (py_not (getenv env "SUPABASE_ANON_KEY"))
  && negb (py_not (getenv env "GOOGLE_API_KEY")).

End config.

(** ** [app/models/api_models.py] *)

(** A [uuid.UUID] is its 128-bit integer. *)
Abbreviation UUID := Z.

Module QueryRequest.
Record t : Type := mk {
  question : string;
  conversation_id : option UUID;
}.
End QueryRequest.

Module QueryResponse.
Record t : Type := mk {
  answer : string;
  sources : list string;
  conversation_id : UUID;
}.
End QueryResponse.

(** ** [uuid] (Python standard library) *)

(** [UUID(bytes=os.urandom(16), version=4)]: the variant and version bits
    are forced on the 128 random bits. *)
Definition uuid4_of_bits (bits : Z) : UUID :=
  let int := bits `mod` 2 ^ 128 in
  let int := Z.land int (Z.lnot (Z.shiftl 0xc000 48)) in
  let int := Z.lor int (Z.shiftl 0x8000 48) in
  let int := Z.land int (Z.lnot (Z.shiftl 0xf000 64)) in
  Z.lor int (Z.shiftl 4 76).

Definition hex_digit (d : Z) : ascii :=
  default "0"%char (String.get (Z.to_nat d) "0123456789abcdef").

Fixpoint hex_digits (width : nat) (n : Z) (acc : string) : string :=
  match width with
  | O => acc
  | S width' => hex_digits width' (n `div` 16) (String (hex_digit (n `mod` 16)) acc)
  end.

(** [str(u)]: ['%032x' % u.int], cut 8-4-4-4-12. *)
Definition str_uuid (u : UUID) : string :=
  let hex := hex_digits 32 u "" in
  String.substring 0 8 hex +:+ "-" +:+ String.substring 8 4 hex +:+ "-" +:+
  String.substring 12 4 hex +:+ "-" +:+ String.substring 16 4 hex +:+ "-" +:+
  String.substring 20 12 hex.

(** ** Messages, stored rows, and the log of port calls *)

Inductive message : Type :=
  | SystemMessage (content : string)
  | HumanMessage (content : string)
  | AIMessage (content : string).

Section world.

(** The type of embedding vectors: the program never looks inside one. *)
Variable vec : Type.

(** The dictionary [add_message_to_history] inserts into [chat_history]. *)
Record chat_history_row : Type := ChatHistoryRow {
  row_conversation_id : string;
  row_message_type : string;
  row_content : string;
  row_embedding : vec;
}.

(** One completed call through a port, with what it returned. *)
Inductive event : Type :=
  | EvUuid4 (out : UUID)
  | EvEmbedQuery (text : string) (out : vec)
  | EvMatchDocuments (query_embedding : vec) (match_count : Z) (data : list row)
  | EvMatchChatHistory (query_embedding : vec) (p_conversation_id : string)
      (match_count : Z) (data : list row)
  | EvInsertChatHistory (r : chat_history_row)
  | EvLLM (messages : list message) (out : string).

(** The [chat_history] table and the calls made so far. *)
Record world : Type := World {
  chat_history : list chat_history_row;
  calls : list event;
}.

(** The external collaborators.  Each sees the whole world, so a port may
    answer differently on each call (a sampling LLM, a store that
    changes); [inl] is the port failing. *)
Record ports : Type := Ports {
  os_urandom16 : world → Z;
  embeddings_model_embed_query : world → string → res vec;
  supabase_rpc_match_documents : world → vec → Z → res (list row);
  supabase_rpc_match_chat_history : world → vec → string → Z → res (list row);
  supabase_chat_history_insert : world → chat_history_row → option exn;
  llm_client_invoke : world → list message → res string;
}.

(** Computations: state passing over the world, with exceptions.  What
    was done before an exception stays done. *)
Definition M (A : Type) : Type := world → res A * world.

#[export] Instance M_ret : MRet M := λ A a w, (inr a, w).
#[export] Instance M_bind : MBind M := λ A B k m w,
  match m w with
  | (inl e, w') => (inl e, w')
  | (inr a, w') => k a w'
  end.

Definition lift {A : Type} (r : res A) : M A := λ w, (r, w).

Definition log (e : event) (w : world) : world :=
  {| chat_history := chat_history w; calls := calls w ++ [e] |}.

Definition store (r : chat_history_row) (w : world) : world :=
  {| chat_history := chat_history w ++ [r]; calls := calls w |}.

End world.

Arguments ChatHistoryRow {vec}.
Arguments row_conversation_id {vec}.
Arguments row_message_type {vec}.
Arguments row_content {vec}.
Arguments row_embedding {vec}.
Arguments EvUuid4 {vec}.
Arguments EvEmbedQuery {vec}.
Arguments EvMatchDocuments {vec}.
Arguments EvMatchChatHistory {vec}.
Arguments EvInsertChatHistory {vec}.
Arguments EvLLM {vec}.
Arguments World {vec}.
Arguments chat_history {vec}.
Arguments calls {vec}.
Arguments Ports {vec}.
Arguments os_urandom16 {vec}.
Arguments embeddings_model_embed_query {vec}.
Arguments supabase_rpc_match_documents {vec}.
Arguments supabase_rpc_match_chat_history {vec}.
Arguments supabase_chat_history_insert {vec}.
Arguments llm_client_invoke {vec}.
Arguments lift {vec A}.
Arguments log {vec}.
Arguments store {vec}.

(** ** [app/services/rag_service.py] *)

Definition contextualize_q_system_prompt : string :=
  "Given a chat history and the latest user question " +:+
  "which might reference context in the chat history, " +:+
  "formulate a standalone question which can be understood " +:+
  "without the chat history. Do NOT answer the question, " +:+
  "just reformulate it if needed and otherwise return it as is.".

(** [ChatPromptTemplate.from_messages([("system", ...),
    MessagesPlaceholder("chat_history"), ("human", "{input}")])], applied
    to the input dictionary. *)
Definition contextualize_q_prompt (input : string) (chat_history : list message)
    : list message :=
  [SystemMessage contextualize_q_system_prompt] ++ chat_history ++ [HumanMessage input].

(** The system template of the answering prompt, with [{context}] filled. *)
Definition qa_system_prompt (context : string) : string :=
  "You are an assistant for question-answering tasks. " +:+
  "Use the following pieces of retrieved context to answer " +:+
  "the question. If you don't know the answer, just say " +:+
  "that you don't know. Use three sentences maximum and keep " +:+
  "the answer concise." +:+
  nl +:+ nl +:+
  context.

Definition qa_prompt (context input : string) (chat_history : list message)
    : list message :=
  [SystemMessage (qa_system_prompt context)] ++ chat_history ++ [HumanMessage input].

(** [HumanMessage(content=v)] and [AIMessage(content=v)] validate their
    content, declared [Union[str, list[Union[str, dict]]]].  Of the values
    a row holds here, a text passes; null and a dictionary are rejected.
    (A JSON array would pass: rows with arrays are outside [value].) *)
Definition message_content (v : value) : res string :=
  match v with
  | VStr s => inr s
  | VNone => inl (ValidationError "content")
  | VDict _ => inl (ValidationError "content")
  end.

(** One turn of the loop of [get_relevant_history]: the message the row
    appends to [recalled_messages], if any. *)
Definition recall_row (doc : row) : res (option message) :=
  message_type ← getitem doc "message_type";
  if value_eq_str message_type "human" then
    content ← getitem doc "content";
    text ← message_content content;
    mret (Some (HumanMessage text))
  else if value_eq_str message_type "ai" then
    content ← getitem doc "content";
    text ← message_content content;
    mret (Some (AIMessage text))
  else mret None.

Fixpoint recall_loop (data : list row) (recalled_messages : list message)
    : res (list message) :=
  match data with
  | [] => mret recalled_messages
  | doc :: rest =>
      m ← recall_row doc;
      recall_loop rest
        (match m with
         | Some msg => recalled_messages ++ [msg]
         | None => recalled_messages
         end)
  end.

(** The last lambda of the context branch of [rag_chain]:
    ["\n\n".join([doc["content"] for doc in response.data if "content" in doc])] *)
Definition join_contents (data : list row) : res string :=
  contents ← mapM (λ doc : row, getitem doc "content")
                  (filter (λ doc : row, is_Some (doc !! "content")) data);
  str_join (nl +:+ nl) contents.

Section rag_service.

Context {vec : Type} (P : ports vec).

(** *** Calls through the ports *)

Definition uuid4 : M vec UUID := λ w,
  let u := uuid4_of_bits (os_urandom16 P w) in
  (inr u, log (EvUuid4 u) w).

Definition embed_query (text : string) : M vec vec := λ w,
  match embeddings_model_embed_query P w text with
  | inl e => (inl e, w)
  | inr v => (inr v, log (EvEmbedQuery text v) w)
  end.

Definition rpc_match_documents (query_embedding : vec) (match_count : Z)
    : M vec (list row) := λ w,
  match supabase_rpc_match_documents P w query_embedding match_count with
  | inl e => (inl e, w)
  | inr data => (inr data, log (EvMatchDocuments query_embedding match_count data) w)
  end.

Definition rpc_match_chat_history (query_embedding : vec)
    (p_conversation_id : string) (match_count : Z) : M vec (list row) := λ w,
  match supabase_rpc_match_chat_history P w query_embedding
          p_conversation_id match_count with
  | inl e => (inl e, w)
  | inr data =>
      (inr data,
       log (EvMatchChatHistory query_embedding p_conversation_id match_count data) w)
  end.

Definition table_chat_history_insert (r : chat_history_row vec) : M vec unit := λ w,
  match supabase_chat_history_insert P w r with
  | Some e => (inl e, w)
  | None => (inr (), log (EvInsertChatHistory r) (store r w))
  end.

(** [prompt | llm_client | StrOutputParser()] on an already built prompt. *)
Definition llm_invoke (messages : list message) : M vec string := λ w,
  match llm_client_invoke P w messages with
  | inl e => (inl e, w)
  | inr text => (inr text, log (EvLLM messages text) w)
  end.

(** *** Core logic functions *)

Definition get_retrieved_documents (question : string) : M vec (list row) :=
  question_embedding ← embed_query question;
  rpc_match_documents question_embedding 5.

Definition get_relevant_history (session_id question : string)
    : M vec (list message) :=
  question_embedding ← embed_query question;
  data ← rpc_match_chat_history question_embedding session_id 4;
  match data with
  | [] => mret []
  | _ => lift (recall_loop data [])
  end.

Definition add_message_to_history (session_id message_type content : string)
    : M vec unit :=
  content_embedding ← embed_query content;
  table_chat_history_insert
    {| row_conversation_id := session_id;
       row_message_type := message_type;
       row_content := content;
       row_embedding := content_embedding |}.

(** *** History aware RAG chain *)

Definition history_aware_rephraser (input : string) (chat_history : list message)
    : M vec string :=
  llm_invoke (contextualize_q_prompt input chat_history).

(** [rag_chain.invoke({"input": input, "chat_history": chat_history})] *)
Definition rag_chain (input : string) (chat_history : list message)
    : M vec string :=
  query ← history_aware_rephraser input chat_history;
  response ← get_retrieved_documents query;
  context ← lift (join_contents response);
  llm_invoke (qa_prompt context input chat_history).

End rag_service.

(** ** [app/main.py] *)

(** [doc["metadata"].get("source", dflt)] *)
Definition metadata_source (dflt : string) (doc : row) : res value :=
  metadata ← getitem doc "metadata";
  dict_get metadata "source" (VStr dflt).

(** An element of a Python [set] must be hashable; a [dict] is not. *)
Definition hashable (v : value) : res (option string) :=
  match v with
  | VNone => inr None
  | VStr s => inr (Some s)
  | VDict _ => inl (TypeError "unhashable type: 'dict'")
  end.

(** [list(set(items))].  Python fixes no order for the result; the order of
    [elements] stands for it, and nothing below depends on which it is. *)
Definition list_set (items : list value) : res (list (option string)) :=
  hashed ← mapM hashable items;
  mret (elements (list_to_set hashed : gset (option string))).

(** [list(set([doc["metadata"].get("source", "Unknown") for doc in data]))
    if data else []] *)
Definition derive_sources (data : list row) : res (list (option string)) :=
  match data with
  | [] => mret []
  | _ =>
      found ← mapM (metadata_source "Unknown") data;
      list_set found
  end.

(** [QueryResponse(answer=..., sources=..., conversation_id=...)]: the
    model validates [sources: List[str]]. *)
Definition new_QueryResponse (answer : string) (sources : list (option string))
    (conversation_id : UUID) : res QueryResponse.t :=
  checked ← mapM (λ o : option string,
                    match o with
                    | Some s => inr s
                    | None => inl (ValidationError "sources")
                    end) sources;
  mret (QueryResponse.mk answer checked conversation_id).

Module EvalQuery.
Record t : Type := mk {
  question : string;
  expected_sources : list string;
}.
End EvalQuery.

(** A Python number: an [int], or a [float] of type [F]. *)
Inductive number (F : Type) : Type :=
  | PyInt (n : Z)
  | PyFloat (x : F).

Arguments PyInt {F}.
Arguments PyFloat {F}.

(** The arithmetic [GET /eval] does on numbers that may be floats: [x / n]
    for an [int] [n] other than 0, which is a float whatever [x] is, and
    the builtin [sum(xs)].  Floats round, and how [sum] adds them up is
    the interpreter's business (CPython adds left to right before 3.12 and
    with a compensated sum from 3.12 on), so both are parameters:
    [ieee] below is one instance. *)
Record arithmetic (F : Type) : Type := Arithmetic {
  py_truediv : number F → Z → F;
  py_sum : list (number F) → number F;
}.

Arguments Arithmetic {F}.
Arguments py_truediv {F}.
Arguments py_sum {F}.

Module EvalResult.
Record t (F : Type) : Type := mk {
  query_id : Z;
  question : string;
  expected_sources : list string;
  retrieved_sources : list string;
  precision_at_k : number F;
}.
Arguments mk {F}.
Arguments query_id {F}.
Arguments question {F}.
Arguments expected_sources {F}.
Arguments retrieved_sources {F}.
Arguments precision_at_k {F}.
End EvalResult.

Module EvalReport.
Record t (F : Type) : Type := mk {
  total_queries : Z;
  k_value : Z;
  overall_average_precision_at_k : number F;
  query_results : list (EvalResult.t F);
}.
Arguments mk {F}.
Arguments total_queries {F}.
Arguments k_value {F}.
Arguments overall_average_precision_at_k {F}.
Arguments query_results {F}.
End EvalReport.

Definition k : Z := 3.

Definition eval_queries : list EvalQuery.t := [
  EvalQuery.mk "How do I initialize the Supabase client in Python?"
    ["Client_Initialization_and_Setup.pdf"; "Supabase_Python_Introduction.pdf"];
  EvalQuery.mk "What are the authentication methods supported by Supabase?"
    ["Authentication_Methods.pdf"];
  EvalQuery.mk "How can I perform CRUD operations on the database?"
    ["Database_Operations.pdf"];
  EvalQuery.mk "What are Supabase Edge Functions?"
    ["Edge_Functions_and_API_Integration.pdf"];
  EvalQuery.mk "How does Supabase handle real-time subscriptions?"
    ["Real-time_Subscriptions.pdf"];
  EvalQuery.mk "What are security best practices for Supabase?"
    ["Error_Handling_and_Security.pdf"];
  EvalQuery.mk "How do I upload files to Supabase storage?"
    ["Storage_Management.pdf"];
  EvalQuery.mk "What is the purpose of the .env file?"
    ["Client_Initialization_and_Setup.pdf"];
  EvalQuery.mk "Can Supabase handle database relationships?"
    ["Database_Operations.pdf"];
  EvalQuery.mk "What is the embedding dimension for all-MiniLM-L6-v2?"
    []
].

(** [[os.path.basename(doc["metadata"].get("source", "")) for doc in data]
    if data else []] *)
Definition retrieved_basenames (data : list row) : res (list string) :=
  match data with
  | [] => mret []
  | _ => mapM (λ doc : row, source ← metadata_source "" doc; os_path_basename source) data
  end.

(** [sum(1 for source in retrieved_sources if source in expected_sources)] *)
Definition count_relevant (retrieved_sources expected_sources : list string) : Z :=
  Z.of_nat (length (filter (λ source, source ∈ expected_sources) retrieved_sources)).

Section main.

Context {vec : Type} (P : ports vec) {F : Type} (A : arithmetic F).

(** [num_relevant_retrieved / k if k > 0 else 0] *)
Definition precision (num_relevant_retrieved k : Z) : number F :=
  if bool_decide (0 < k)
  then PyFloat (py_truediv A (PyInt num_relevant_retrieved) k)
  else PyInt 0.

(** [sum([res["precision_at_k"] for res in eval_results]) / len(eval_results)
    if eval_results else 0] *)
Definition overall_precision (eval_results : list (EvalResult.t F)) : number F :=
  match eval_results with
  | [] => PyInt 0
  | _ => PyFloat (py_truediv A (py_sum A (EvalResult.precision_at_k <$> eval_results))
                    (Z.of_nat (length eval_results)))
  end.

(** [POST /query] *)
Definition query_rag_endpoint (request : QueryRequest.t) : M vec QueryResponse.t :=
  conversation_id ←
    match QueryRequest.conversation_id request with
    | Some supplied => mret supplied
    | None => uuid4 P
    end;
  let session_id_str := str_uuid conversation_id in
  let question := QueryRequest.question request in
  (* 1. recall relevant chat history *)
  recalled_history ← get_relevant_history P session_id_str question;
  (* 2. invoke the RAG chain with the recalled history *)
  answer ← rag_chain P question recalled_history;
  (* 3. add the question and the answer to the history table *)
  _ ← add_message_to_history P session_id_str "human" question;
  _ ← add_message_to_history P session_id_str "ai" answer;
  (* 4. retrieve sources for the final response *)
  match_response ← get_retrieved_documents P question;
  sources ← lift (derive_sources match_response);
  lift (new_QueryResponse answer sources conversation_id).

(** The body of the loop of [GET /eval] for the query of index [i]. *)
Definition evaluate_query (i : nat) (query_data : EvalQuery.t)
    : M vec (EvalResult.t F) :=
  let question := EvalQuery.question query_data in
  let expected_sources := EvalQuery.expected_sources query_data in
  match_response ← get_retrieved_documents P question;
  retrieved_sources ← lift (retrieved_basenames match_response);
  let num_relevant_retrieved := count_relevant retrieved_sources expected_sources in
  let precision_at_k := precision num_relevant_retrieved k in
  mret (EvalResult.mk (Z.of_nat i + 1) question expected_sources
          retrieved_sources precision_at_k).

Fixpoint evaluate_loop (i : nat) (queries : list EvalQuery.t)
    (eval_results : list (EvalResult.t F)) : M vec (list (EvalResult.t F)) :=
  match queries with
  | [] => mret eval_results
  | query_data :: rest =>
      r ← evaluate_query i query_data;
      evaluate_loop (S i) rest (eval_results ++ [r])
  end.

(** [GET /eval] *)
Definition evaluate_rag : M vec (EvalReport.t F) :=
  eval_results ← evaluate_loop 0 eval_queries [];
  mret (EvalReport.mk (Z.of_nat (length eval_queries)) k
          (overall_precision eval_results) eval_results).

End main.

(** ** Reading the log *)

Section trace.

Context {vec : Type}.

(** The rows written to [chat_history]. *)
Definition inserted_rows (t : list (event vec)) : list (chat_history_row vec) :=
  omap (λ ev, match ev with EvInsertChatHistory r => Some r | _ => None end) t.

(** The conversation id of every History Store call, recall or append. *)
Definition history_store_ids (t : list (event vec)) : list string :=
  omap (λ ev, match ev with
              | EvMatchChatHistory _ sid _ _ => Some sid
              | EvInsertChatHistory r => Some (row_conversation_id r)
              | _ => None
              end) t.

(** What the Document Store returned, call by call. *)
Definition match_documents_data (t : list (event vec)) : list (list row) :=
  omap (λ ev, match ev with EvMatchDocuments _ _ data => Some data | _ => None end) t.

(** The texts handed to the embedding model, call by call. *)
Definition embedded_texts (t : list (event vec)) : list string :=
omap (λ ev, match ev with EvEmbedQuery text _ => Some text | _ => None end) t.

(** The same calls with what the model returned. *)
Definition embed_calls (t : list (event vec)) : list (string * vec) :=
omap (λ ev, match ev with EvEmbedQuery text out => Some (text, out) | _ => None end) t.

(** The messages of every LLM call. *)
Definition llm_prompts (t : list (event vec)) : list (list message) :=
  omap (λ ev, match ev with EvLLM messages _ => Some messages | _ => None end) t.

(** The ids drawn by [uuid4], call by call. *)
Definition drawn_ids (t : list (event vec)) : list UUID :=
  omap (λ ev, match ev with EvUuid4 out => Some out | _ => None end) t.

(** The log of one successful [POST /query], from the values that flow
    through it. *)
Definition query_log (fresh : list (event vec)) (sid question : string)
    (e1 : vec) (history_rows : list row) (recalled : list message)
    (query : string) (e2 : vec) (docs : list row) (context answer : string)
    (e3 e4 e5 : vec) (docs2 : list row) : list (event vec) :=
  fresh ++
  [ EvEmbedQuery question e1;
    EvMatchChatHistory e1 sid 4 history_rows;
    EvLLM (contextualize_q_prompt question recalled) query;
    EvEmbedQuery query e2;
    EvMatchDocuments e2 5 docs;
    EvLLM (qa_prompt context question recalled) answer;
    EvEmbedQuery question e3;
    EvInsertChatHistory (ChatHistoryRow sid "human" question e3);
    EvEmbedQuery answer e4;
    EvInsertChatHistory (ChatHistoryRow sid "ai" answer e4);
    EvEmbedQuery question e5;
    EvMatchDocuments e5 5 docs2 ].

End trace.

(** ** The statements of the specification that the code is compared with *)

(** The message a recalled row stands for: a [human] or [ai] row with text
    content; no message for any other row. *)
Definition recalled_message (doc : row) : option message :=
  match doc !! "message_type", doc !! "content" with
  | Some (VStr mt), Some (VStr text) =>
      if bool_decide (mt = "human") then Some (HumanMessage text)
      else if bool_decide (mt = "ai") then Some (AIMessage text)
      else None
  | _, _ => None
  end.

(** A row is well shaped for recall when it has a [message_type] and, if
    that is [human] or [ai], a text [content]. *)
Definition recallable (doc : row) : Prop :=
  ∃ mt, doc !! "message_type" = Some mt ∧
        (mt = VStr "human" ∨ mt = VStr "ai" → ∃ text, doc !! "content" = Some (VStr text)).

(** The source a chunk contributes: its [metadata.source], or ["Unknown"]
    when the metadata has none. *)
Definition source_or_unknown (doc : row) : option string :=
  match doc !! "metadata" with
  | Some (VDict metadata) =>
      match metadata !! "source" with
      | None => Some "Unknown"
      | Some (VStr s) => Some s
      | Some _ => None
      end
  | _ => None
  end.

(** A chunk whose [metadata] is a dictionary in which [source] is either
    absent or a text. *)
Definition sourced (doc : row) : Prop :=
  ∃ metadata, doc !! "metadata" = Some (VDict metadata) ∧
              (metadata !! "source" = None ∨ ∃ s, metadata !! "source" = Some (VStr s)).

(** The [content] fields of the rows that have one, in the order of the
    rows. *)
Definition present_contents (data : list row) : list value :=
  omap (λ doc : row, doc !! "content") data.

(** A row that lacks a source field: it has no metadata dictionary to
    hold one, or the dictionary has no [source], or a null one. *)
Definition lacks_source (doc : row) : Prop :=
  match doc !! "metadata" with
  | Some (VDict metadata) =>
      metadata !! "source" = None ∨ metadata !! "source" = Some VNone
  | _ => True
  end.

(** A row whose metadata names its source, as a text. *)
Definition has_text_source (doc : row) : Prop :=
  ∃ metadata s, doc !! "metadata" = Some (VDict metadata) ∧
                metadata !! "source" = Some (VStr s).

(** The six bits of a version-4 UUID that are not random: the variant
    (bits 63 and 62, which read 1 0) and the version (bits 79 to 76, which
    read 0 1 0 0, the number 4). *)
Definition forced_bits : list Z := [62; 63; 76; 77; 78; 79].

(** The number of retrieved chunks that an expected source accounts for:
    every expected source, taken once, brings as many as there are
    retrieved chunks bearing its name. *)
Definition chunks_credited (retrieved expected : list string) : nat :=
  sum_list ((λ source, length (filter (λ name, name = source) retrieved))
              <$> remove_dups expected).

Section scores.

Context {F : Type} (A : arithmetic F).

(** [|retrieved ∩ expected| / 3], on sets. *)
Definition set_precision_at_3 (retrieved expected : list string) : number F :=
  PyFloat (py_truediv A
             (PyInt (Z.of_nat (size (list_to_set retrieved ∩ list_to_set expected
                                       : gset string)))) 3).

(** What [GET /eval] reports for the query [q] when the Document Store
    answered [data]: the basenames of the sources of the rows, and the
    number of retrieved chunks credited to the expected sources, divided
    by 3. *)
Definition scored (q : EvalQuery.t) (data : list row) (r : EvalResult.t F) : Prop :=
  EvalResult.question r = EvalQuery.question q ∧
  EvalResult.expected_sources r = EvalQuery.expected_sources q ∧
  retrieved_basenames data = inr (EvalResult.retrieved_sources r) ∧
  EvalResult.precision_at_k r =
    PyFloat (py_truediv A
               (PyInt (Z.of_nat (chunks_credited (EvalResult.retrieved_sources r)
                                   (EvalResult.expected_sources r)))) 3).

End scores.

(** ** IEEE 754 binary64 numbers, for the running of examples

    The floats of CPython, with [sum] adding from left to right as the
    interpreters before 3.12 do. *)

Module ieee.

(** [float(n)] for [|n| < 2 ^ 53], where the conversion is exact: the
    counts and lengths of the examples are far below. *)
Definition of_int (n : Z) : float :=
  if bool_decide (0 ≤ n)
  then PrimFloat.of_uint63 (Uint63.of_Z n)
  else PrimFloat.opp (PrimFloat.of_uint63 (Uint63.of_Z (- n))).

Definition to_float (x : number float) : float :=
  match x with
  | PyInt n => of_int n
  | PyFloat f => f
  end.

(** [x / n]: the division of the two floats, which for integers of this
    size is the correctly rounded quotient that Python computes. *)
Definition truediv (x : number float) (n : Z) : float :=
  PrimFloat.div (to_float x) (of_int n).

(** [x + y] *)
Definition add (x y : number float) : number float :=
  match x, y with
  | PyInt a, PyInt b => PyInt (a + b)
  | _, _ => PyFloat (PrimFloat.add (to_float x) (to_float y))
  end.

(** [sum(xs)] *)
Definition sum (xs : list (number float)) : number float :=
  foldl add (PyInt 0) xs.

Definition arithmetic : arithmetic float :=
  {| py_truediv := truediv; py_sum := sum |}.

End ieee.

(** ** Fakes for the ports

    In the manner of the mocks of [tests/]: an embedding that only
    measures the text, a Document Store that answers every query with the
    same rows, a History Store that recalls from the table, and an LLM
    that answers by prompt. *)

Module fake.

Definition chunk (content : option string) (source : option string) : row :=
  let metadata : gmap string value :=
    match source with
    | Some s => {[ "source" := VStr s ]}
    | None => ∅
    end in
  match content with
  | Some c => {[ "content" := VStr c; "metadata" := VDict metadata ]}
  | None => {[ "metadata" := VDict metadata ]}
  end.

Definition documents : list row := [
  chunk (Some "Supabase is an open-source Firebase alternative.")
        (Some "documents/Database_Operations.pdf");
  chunk (Some "It provides a suite of tools including a Postgres database.")
        (Some "documents/Database_Operations.pdf");
  chunk None (Some "documents/Authentication_Methods.pdf");
  chunk (Some "Row level security protects every table.") None
].

(** An embedding that tells its calls apart: the length of the text plus
    the number of port calls made before. *)
Definition embed (w : world nat) (text : string) : nat :=
  (String.length text + length (calls w))%nat.

Definition history_row (r : chat_history_row nat) : row :=
  {[ "content" := VStr (row_content r); "message_type" := VStr (row_message_type r) ]}.

Definition recall (w : world nat) (p_conversation_id : string) (match_count : Z)
    : list row :=
  take (Z.to_nat match_count)
    (history_row <$>
       filter (λ r, row_conversation_id r = p_conversation_id) (chat_history w)).

Definition llm (rephrase : string → string) (messages : list message) : res string :=
  match messages, last messages with
  | SystemMessage s :: _, Some (HumanMessage input) =>
      if bool_decide (s = contextualize_q_system_prompt)
      then inr (rephrase input)
      else inr "Supabase is an open-source Firebase alternative."
  | _, _ => inl (PortFailure "llm")
  end.

Definition ports_with (rephrase : string → string) : ports nat :=
  {| os_urandom16 := λ w, Z.of_nat (length (calls w));
     embeddings_model_embed_query := λ w text, inr (embed w text);
     supabase_rpc_match_documents := λ _ _ _, inr documents;
     supabase_rpc_match_chat_history := λ w _ sid n, inr (recall w sid n);
     supabase_chat_history_insert := λ _ _, None;
     llm_client_invoke := λ _ messages, llm rephrase messages |}.

(** A History Store that recalls the given rows whatever the query. *)
Definition recalling (rows : list row) : ports nat :=
  {| os_urandom16 := λ _, 0;
     embeddings_model_embed_query := λ w text, inr (embed w text);
     supabase_rpc_match_documents := λ _ _ _, inr documents;
     supabase_rpc_match_chat_history := λ _ _ _ _, inr rows;
     supabase_chat_history_insert := λ _ _, None;
     llm_client_invoke := λ _ messages, llm id messages |}.

(** An LLM that returns the question as it is. *)
Definition echo : ports nat := ports_with id.

(** An LLM that rewrites the question even without history. *)
Definition rewriting : ports nat :=
  ports_with (λ input, "Standalone question: " +:+ input).

Definition w0 : world nat := World [] [].

Definition request : QueryRequest.t :=
  QueryRequest.mk "What is Supabase?" None.

End fake.

Module fixtures.

(** Every credential set, no [LLM_MODEL]. *)
Definition env_without_model : config.environ :=
  {[ "SUPABASE_URL" := "https://project.supabase.co";
     "SUPABASE_ANON_KEY" := "anon-key";
     "GOOGLE_API_KEY" := "google-key" ]}.

(** The Google key is absent. *)
Definition env_without_google_key : config.environ :=
  {[ "SUPABASE_URL" := "https://project.supabase.co";
     "SUPABASE_ANON_KEY" := "anon-key";
     "LLM_MODEL" := "gemini-1.5-pro" ]}.

(** The first request of a conversation, against the echoing fake. *)
Definition outcome : res QueryResponse.t * world nat :=
  query_rag_endpoint fake.echo fake.request fake.w0.

Definition response : QueryResponse.t :=
  match outcome.1 with
  | inr r => r
  | inl _ => QueryResponse.mk "" [] 0
  end.

Definition w1 : world nat := outcome.2.

(** A follow-up in the same conversation: the id is supplied. *)
Definition follow_up : QueryRequest.t :=
  QueryRequest.mk "Is it open source?" (Some (QueryResponse.conversation_id response)).

Definition outcome2 : res QueryResponse.t * world nat :=
  query_rag_endpoint fake.echo follow_up w1.

Definition response2 : QueryResponse.t :=
  match outcome2.1 with
  | inr r => r
  | inl _ => QueryResponse.mk "" [] 0
  end.

Definition w2 : world nat := outcome2.2.

(** The chain alone, with no history, against the rewriting fake. *)
Definition rewritten : res string * world nat :=
  rag_chain fake.rewriting "What is Supabase?" [] fake.w0.

(** The chain alone, with no history, against the echoing fake. *)
Definition echoed : res string * world nat :=
  rag_chain fake.echo "What is Supabase?" [] fake.w0.

(** The evaluation against the fake Document Store. *)
Definition evaluation : res (EvalReport.t float) * world nat :=
  evaluate_rag fake.echo ieee.arithmetic fake.w0.

Definition report : EvalReport.t float :=
  match evaluation.1 with
  | inr r => r
  | inl _ => EvalReport.mk 0 0 (PyInt 0) []
  end.

(** Rows as the History Store may return them: a [system] row, and a row
    whose [message_type] is null, among a human and an ai turn. *)
Definition history_rows : list row := [
  {[ "content" := VStr "This was my previous question."; "message_type" := VStr "human" ]};
  {[ "content" := VStr "You are a helpful assistant."; "message_type" := VStr "system" ]};
  {[ "message_type" := VNone ]};
  {[ "content" := VStr "This was the AI's answer."; "message_type" := VStr "ai" ]}
].

(** A chunk that has no [metadata] at all. *)
Definition bare_chunk : row := {[ "content" := VStr "No metadata here." ]}.

End fixtures.

(** ** More of the log, and of the shapes of rows *)

Section turn.

Context {vec : Type}.

(** The log of a request up to and including the answer. *)
Definition answer_log (fresh : list (event vec)) (sid question : string)
    (e1 : vec) (history_rows : list row) (recalled : list message)
    (query : string) (e2 : vec) (docs : list row) (context answer : string)
    : list (event vec) :=
  fresh ++
  [ EvEmbedQuery question e1;
    EvMatchChatHistory e1 sid 4 history_rows;
    EvLLM (contextualize_q_prompt question recalled) query;
    EvEmbedQuery query e2;
    EvMatchDocuments e2 5 docs;
    EvLLM (qa_prompt context question recalled) answer ].

(** The log of a request up to and including the second insert: all of
    [query_log] but the retrieval made for the sources. *)
Definition turn_log (fresh : list (event vec)) (sid question : string)
    (e1 : vec) (history_rows : list row) (recalled : list message)
    (query : string) (e2 : vec) (docs : list row) (context answer : string)
    (e3 e4 : vec) : list (event vec) :=
  fresh ++
  [ EvEmbedQuery question e1;
    EvMatchChatHistory e1 sid 4 history_rows;
    EvLLM (contextualize_q_prompt question recalled) query;
    EvEmbedQuery query e2;
    EvMatchDocuments e2 5 docs;
    EvLLM (qa_prompt context question recalled) answer;
    EvEmbedQuery question e3;
    EvInsertChatHistory (ChatHistoryRow sid "human" question e3);
    EvEmbedQuery answer e4;
    EvInsertChatHistory (ChatHistoryRow sid "ai" answer e4) ].

(** A call that only reads documents: an embedding, or a match for 5. *)
Definition retrieval_event (ev : event vec) : Prop :=
  match ev with
  | EvEmbedQuery _ _ => True
  | EvMatchDocuments _ count _ => count = 5
  | _ => False
  end.

End turn.

(** Does the path contain the separator? *)
Fixpoint has_slash (p : string) : bool :=
  match p with
  | EmptyString => false
  | String c rest => Ascii.eqb c "/"%char || has_slash rest
  end.

(** The source [GET /eval] reads from a chunk: its [metadata.source], or
    the empty text when the metadata has none. *)
Definition source_or_empty (doc : row) : option string :=
  match doc !! "metadata" with
  | Some (VDict metadata) =>
      match metadata !! "source" with
      | None => Some ""
      | Some (VStr s) => Some s
      | Some _ => None
      end
  | _ => None
  end.

(** A row whose [content] is present and is not a text. *)
Definition bad_content (doc : row) : Prop :=
  ∃ v, doc !! "content" = Some v ∧ ∀ text, v ≠ VStr text.

(** ** [scripts/ingest.py] *)

Module ingest.

Definition missing_credentials : string :=
  "Supabase URL and Key must be set in the .env file".

(** The module body before the Supabase client is created. *)
Definition check_credentials (env : config.environ) : res (string * string) :=
  let supabase_url := config.getenv env "SUPABASE_URL" in
  let supabase_key := config.getenv env "SUPABASE_ANON_KEY" in
  if config.py_not supabase_url || config.py_not supabase_key
  then inl (ValueError missing_credentials)
  else inr (default "" supabase_url, default "" supabase_key).

(** [posixpath.join(a, *rest)] *)
Definition starts_with_sep (p : string) : bool :=
  match p with
  | String c _ => Ascii.eqb c "/"%char
  | EmptyString => false
  end.

Fixpoint ends_with_sep (p : string) : bool :=
  match p with
  | EmptyString => false
  | String c EmptyString => Ascii.eqb c "/"%char
  | String _ rest => ends_with_sep rest
  end.

Definition path_join (a : string) (rest : list string) : string :=
  foldl (λ path b,
           if starts_with_sep b then b
           else if bool_decide (path = "") || ends_with_sep path then path +:+ b
           else path +:+ "/" +:+ b) a rest.

(** What a call can raise: an [Exception], which [except Exception]
    catches, or one of the other [BaseException]s ([KeyboardInterrupt],
    [SystemExit], [GeneratorExit]), which it lets through. *)
Inductive raised : Type :=
  | Exception (e : exn)
  | BaseException (name : string).

Section script.

(** A loaded page or a chunk: the script never looks inside one. *)
Variable document : Type.

(** What the script does that can be seen from outside, in order: the
    lines it prints and the completed calls to its collaborators. *)
Inductive event : Type :=
  | Printed (line : string)
  | Loaded (path : string) (documents : list document)
  | Split (chunk_size chunk_overlap : Z) (documents chunks : list document)
  | ModelInitialized (model_name : string)
  | Stored (documents : list document) (table_name query_name : string)
      (chunk_size : Z).

(** [print] on the standard output,
    [PyPDFDirectoryLoader(path).load()],
    [RecursiveCharacterTextSplitter(chunk_size, chunk_overlap).split_documents],
    [HuggingFaceEmbeddings(model_name)], [SupabaseVectorStore.from_documents],
    and [str(e)] of an exception, which the f-string of the handler
    calls.  Each of them may raise. *)
Record ports : Type := Ports {
  stdout_write : list event → string → option raised;
  loader_load : list event → string → raised + list document;
  split_documents : list event → Z → Z → list document → raised + list document;
  new_embeddings : list event → string → option raised;
  from_documents : list event → list document → string → string → Z → option raised;
  str_exn : exn → raised + string;
}.

Definition I (A : Type) : Type := list event → (raised + A) * list event.

#[export] Instance I_ret : MRet I := λ A a t, (inr a, t).
#[export] Instance I_bind : MBind I := λ A B k m t,
  match m t with
  | (inl x, t') => (inl x, t')
  | (inr a, t') => k a t'
  end.

(** [try: body except Exception as e: handler(e)] *)
Definition try_except {A : Type} (body : I A) (handler : exn → I A) : I A := λ t,
  match body t with
  | (inl (Exception e), t') => handler e t'
  | (inl (BaseException name), t') => (inl (BaseException name), t')
  | (inr a, t') => (inr a, t')
  end.

Context (P : ports).

Definition print (line : string) : I unit := λ t,
  match stdout_write P t line with
  | Some x => (inl x, t)
  | None => (inr (), t ++ [Printed line])
  end.

Definition load (path : string) : I (list document) := λ t,
  match loader_load P t path with
  | inl x => (inl x, t)
  | inr documents => (inr documents, t ++ [Loaded path documents])
  end.

Definition split (chunk_size chunk_overlap : Z) (documents : list document)
    : I (list document) := λ t,
  match split_documents P t chunk_size chunk_overlap documents with
  | inl x => (inl x, t)
  | inr chunks =>
      (inr chunks, t ++ [Split chunk_size chunk_overlap documents chunks])
  end.

Definition init_embeddings (model_name : string) : I unit := λ t,
  match new_embeddings P t model_name with
  | Some x => (inl x, t)
  | None => (inr (), t ++ [ModelInitialized model_name])
  end.

Definition store_documents (documents : list document)
    (table_name query_name : string) (chunk_size : Z) : I unit := λ t,
  match from_documents P t documents table_name query_name chunk_size with
  | Some x => (inl x, t)
  | None => (inr (), t ++ [Stored documents table_name query_name chunk_size])
  end.

(** [f"{e}"] *)
Definition format_exn (e : exn) : I string := λ t, (str_exn P e, t).

(** The lines of the script. *)
Definition loading_line (documents_path : string) : string :=
  "Loading documents from '" +:+ documents_path +:+ "' directory...".
Definition no_documents_line : string :=
  "No documents found in the 'documents' directory. Exiting.".
Definition loaded_line (documents : list document) : string :=
  "Loaded " +:+ pretty (length documents) +:+ " document pages.".
Definition splitting_line : string := "Splitting documents into chunks...".
Definition split_line (docs : list document) : string :=
  "Split into " +:+ pretty (length docs) +:+ " chunks.".
Definition initializing_line (model_name : string) : string :=
  "Initializing local embedding model: " +:+ model_name +:+ "...".
Definition initialized_line : string := "Local embedding model initialized.".
Definition ingesting_line : string :=
  "Ingesting documents into Supabase vector store... This may take a few minutes.".
Definition complete_line : string := "Ingestion complete!".
Definition error_line (text : string) : string :=
  "An error occurred during ingestion: " +:+ text.

(** [os.path.join(os.path.dirname(__file__), '..', 'documents')] *)
Definition documents_path (script_dir : string) : string :=
  path_join script_dir [".."; "documents"].

(** [ingest_documents()]; [script_dir] is [os.path.dirname(__file__)]. *)
Definition ingest_documents (script_dir : string) : I unit :=
  try_except
    (_ ← print (loading_line (documents_path script_dir));
     documents ← load (documents_path script_dir);
     match documents with
     | [] => print no_documents_line
     | _ =>
         _ ← print (loaded_line documents);
         _ ← print splitting_line;
         docs ← split 1000 200 documents;
         _ ← print (split_line docs);
         let model_name := "all-MiniLM-L6-v2" in
         _ ← print (initializing_line model_name);
         _ ← init_embeddings model_name;
         _ ← print initialized_line;
         _ ← print ingesting_line;
         _ ← store_documents docs "documents" "match_documents" 500;
         print complete_line
     end)
    (λ e, text ← format_exn e; print (error_line text)).

(** The lines printed, and the calls to the vector store. *)
Definition printed (t : list event) : list string :=
  omap (λ ev, match ev with Printed line => Some line | _ => None end) t.

Definition stored (t : list event) : list (list document * string * string * Z) :=
  omap (λ ev, match ev with
              | Stored documents table_name query_name chunk_size =>
                  Some (documents, table_name, query_name, chunk_size)
              | _ => None
              end) t.

(** The calls made, the printing left out. *)
Definition collaborations (t : list event) : list event :=
  omap (λ ev, match ev with Printed _ => None | _ => Some ev end) t.

(** [x] is what some call of the script can raise. *)
Definition raises (x : raised) : Prop :=
  (∃ t line, stdout_write P t line = Some x) ∨
  (∃ t path, loader_load P t path = inl x) ∨
  (∃ t size overlap documents, split_documents P t size overlap documents = inl x) ∨
  (∃ t model_name, new_embeddings P t model_name = Some x) ∨
  (∃ t documents table_name query_name size,
     from_documents P t documents table_name query_name size = Some x) ∨
  (∃ e, str_exn P e = inl x).

End script.

Arguments Printed {document}.
Arguments Loaded {document}.
Arguments Split {document}.
Arguments ModelInitialized {document}.
Arguments Stored {document}.
Arguments stdout_write {document}.
Arguments loader_load {document}.
Arguments split_documents {document}.
Arguments new_embeddings {document}.
Arguments from_documents {document}.
Arguments str_exn {document}.
Arguments try_except {document A}.
Arguments print {document}.
Arguments printed {document}.
Arguments stored {document}.
Arguments collaborations {document}.
Arguments loaded_line {document}.
Arguments split_line {document}.
Arguments ingest_documents {document}.
Arguments raises {document}.

(** The text of an exception: its message. *)
Definition str_of (e : exn) : string :=
  match e with
  | PortFailure what | ValueError what | TypeError what
  | AttributeError what | KeyError what | ValidationError what => what
  end.

(** A run of the script on pages that are plain texts: two pages are
    found and cut into three chunks; the vector store is up or down. *)
Definition fake_ports (store_up : bool) : ports string :=
  {| stdout_write := λ _ _, None;
     loader_load := λ _ _, inr ["page one"; "page two"];
     split_documents := λ _ _ _ _, inr ["page"; "one"; "page two"];
     new_embeddings := λ _ _, None;
     from_documents := λ _ _ _ _ _,
       if store_up then None else Some (Exception (PortFailure "connection refused"));
     str_exn := λ e, inr (str_of e) |}.

(** The same with an empty [documents] directory. *)
Definition empty_directory : ports string :=
  {| stdout_write := λ _ _, None;
     loader_load := λ _ _, inr [];
     split_documents := λ _ _ _ _, inr [];
     new_embeddings := λ _ _, None;
     from_documents := λ _ _ _ _ _, None;
     str_exn := λ e, inr (str_of e) |}.

(** The user presses Ctrl-C while the pages are loaded. *)
Definition interrupted : ports string :=
  {| stdout_write := λ _ _, None;
     loader_load := λ _ _, inl (BaseException "KeyboardInterrupt");
     split_documents := λ _ _ _ _, inr [];
     new_embeddings := λ _ _, None;
     from_documents := λ _ _ _ _ _, None;
     str_exn := λ e, inr (str_of e) |}.

(** The standard output is a pipe whose reader goes away once the store
    has been called: the last line of the script cannot be written. *)
Definition closing_pipe : ports string :=
  {| stdout_write := λ _ line,
       if bool_decide (line = "Ingestion complete!")
       then Some (Exception (PortFailure "[Errno 32] Broken pipe"))
       else None;
     loader_load := λ _ _, inr ["page one"; "page two"];
     split_documents := λ _ _ _ _, inr ["page"; "one"; "page two"];
     new_embeddings := λ _ _, None;
     from_documents := λ _ _ _ _ _, None;
     str_exn := λ e, inr (str_of e) |}.

(** Three runs beside [/app/scripts]: the store is down; the pipe closes;
    the user interrupts. *)
Definition store_down_run : (raised + unit) * list (event string) :=
  ingest_documents (fake_ports false) "/app/scripts" [].

Definition closing_pipe_run : (raised + unit) * list (event string) :=
  ingest_documents closing_pipe "/app/scripts" [].

Definition interrupted_run : (raised + unit) * list (event string) :=
  ingest_documents interrupted "/app/scripts" [].

End ingest.

(** ** More fakes *)

Module scenarios.

(** The Document Store holds the given rows; the LLM either answers as
    [fake.llm] does or fails. *)
Definition serving (documents : list row) (llm_up : bool) : ports nat :=
  {| os_urandom16 := λ w, Z.of_nat (length (calls w));
     embeddings_model_embed_query := λ w text, inr (fake.embed w text);
     supabase_rpc_match_documents := λ _ _ _, inr documents;
     supabase_rpc_match_chat_history := λ w _ sid n, inr (fake.recall w sid n);
     supabase_chat_history_insert := λ _ _, None;
     llm_client_invoke := λ _ messages,
       if llm_up then fake.llm id messages else inl (PortFailure "llm") |}.

(** Every chunk the store returns lacks its metadata. *)
Definition without_metadata : ports nat := serving [fixtures.bare_chunk] true.

(** The LLM is down. *)
Definition llm_down : ports nat := serving fake.documents false.

(** The History Store refuses every insert. *)
Definition read_only_history : ports nat :=
  {| os_urandom16 := λ w, Z.of_nat (length (calls w));
     embeddings_model_embed_query := λ w text, inr (fake.embed w text);
     supabase_rpc_match_documents := λ _ _ _, inr fake.documents;
     supabase_rpc_match_chat_history := λ w _ sid n, inr (fake.recall w sid n);
     supabase_chat_history_insert := λ _ _, Some (PortFailure "insert");
     llm_client_invoke := λ _ messages, fake.llm id messages |}.

(** Two requests that name their conversations. *)
Definition request_a : QueryRequest.t := QueryRequest.mk "What is Supabase?" (Some 1).
Definition request_b : QueryRequest.t := QueryRequest.mk "What is Supabase?" (Some 2).

Definition outcome_a : res QueryResponse.t * world nat :=
  query_rag_endpoint fake.echo request_a fake.w0.

Definition outcome_b : res QueryResponse.t * world nat :=
  query_rag_endpoint fake.echo request_b fake.w0.

Definition response_of (outcome : res QueryResponse.t * world nat) : QueryResponse.t :=
  match outcome.1 with
  | inr r => r
  | inl _ => QueryResponse.mk "" [] 0
  end.

End scenarios.

(** ** Tactics *)

(** Two texts that differ at a character that is known. *)
Ltac differ :=
  let H := fresh in
  intros H; vm_compute in H; repeat (injection H as _ H); discriminate H.

(** The scrutinee on which the evaluation of [e] waits. *)
Ltac stuck_scrutinee e :=
  match e with
  | match ?s with _ => _ end => stuck_scrutinee s
  | match ?s with _ => _ end => s
  | ?f _ => stuck_scrutinee f
  end.

(** Runs the script of [H : script t = (r, t')] call by call, with one
    goal for each way the calls can go. *)
Ltac run_script H :=
  repeat (cbv beta iota in H;
          lazymatch type of H with
          | ?lhs = _ => let s := stuck_scrutinee lhs in destruct s eqn:?
          end);
  cbv beta iota in H.

(** [ingest.raises P x], from the call that raised [x]. *)
Ltac raised_by_a_call :=
  unfold ingest.raises;
  repeat (first [ (left; solve [repeat eexists; eassumption]) | right ]);
  solve [repeat eexists; eassumption].

(** * Properties *)

(** ** Configuration *)

Lemma py_not_false_inv (x : option string) :
  config.py_not x = false → ∃ s, x = Some s ∧ s ≠ "".
Proof.
  destruct x as [s|]; simpl; [|done].
  intros Hs. exists s. split; [done|].
  by apply bool_decide_eq_false in Hs.
Qed.

(** C9 (as the specification states it, refuted): with the three credentials
    set and no model name, loading the configuration does not raise. *)
Lemma config_missing_model_name_does_not_raise :
  ¬ (∀ env, config.all_required_present env = false →
            ∃ e, config.load env = inl e).
Proof.
  intros Hclaim.
  destruct (Hclaim fixtures.env_without_model) as [e He]; [by vm_compute|].
  vm_compute in He. discriminate He.
Qed.

(** C9 (amended): loading raises [ValueError] exactly when the Supabase URL,
    the Supabase key or the Google API key is unset or empty; otherwise it
    succeeds with the three credentials as found and with the model name
    taken from [LLM_MODEL], ["gemini-1.5-flash"] when that is unset. *)
Theorem config_load_validates_credentials (env : config.environ) :
  (config.credentials_present env = false ↔
     config.load env = inl (ValueError config.missing_credentials)) ∧
  (config.credentials_present env = true →
     ∃ s, config.load env = inr s ∧
          env !! "SUPABASE_URL" = Some (config.SUPABASE_URL s) ∧
          env !! "SUPABASE_ANON_KEY" = Some (config.SUPABASE_KEY s) ∧
          env !! "GOOGLE_API_KEY" = Some (config.GOOGLE_API_KEY s) ∧
          config.LLM_MODEL_NAME s = default "gemini-1.5-flash" (env !! "LLM_MODEL")).
Proof.
  unfold config.credentials_present, config.load, config.getenv,
    config.getenv_default.
  destruct (config.py_not (env !! "SUPABASE_URL")) eqn:Hu;
  destruct (config.py_not (env !! "SUPABASE_ANON_KEY")) eqn:Hk;
  destruct (config.py_not (env !! "GOOGLE_API_KEY")) eqn:Hg; simpl;
    try (split; [split; done | done]).
  apply py_not_false_inv in Hu as (u & -> & _).
  apply py_not_false_inv in Hk as (k' & -> & _).
  apply py_not_false_inv in Hg as (g & -> & _).
  split; [split; done|].
  intros _. eexists. split; [done|]. simpl. done.
Qed.

Lemma config_load_validates_credentials_witness :
  config.load fixtures.env_without_google_key
    = inl (ValueError config.missing_credentials) ∧
  ∃ s, config.load fixtures.env_without_model = inr s ∧
       config.LLM_MODEL_NAME s = "gemini-1.5-flash".
Proof.
  split.
  - apply (proj1 (config_load_validates_credentials fixtures.env_without_google_key)).
    vm_compute. reflexivity.
  - destruct (proj2 (config_load_validates_credentials fixtures.env_without_model))
      as (s & Hs & _ & _ & _ & Hm).
    + vm_compute. reflexivity.
    + exists s. split; [exact Hs | exact Hm].
Defined.

(** ** Recall of the chat history: the loop *)

Lemma value_eq_str_true (v : value) (s : string) :
  value_eq_str v s = true ↔ v = VStr s.
Proof.
  destruct v as [|t|d]; simpl; [done| |done].
  rewrite bool_decide_eq_true. split; [by intros ->|by intros [= ->]].
Qed.

Lemma value_eq_str_false (v : value) (s : string) :
  value_eq_str v s = false ↔ v ≠ VStr s.
Proof.
  rewrite <- value_eq_str_true. destruct (value_eq_str v s); split; done.
Qed.

Lemma recall_row_unrecognized (doc : row) (v : value) :
  doc !! "message_type" = Some v → v ≠ VStr "human" → v ≠ VStr "ai" →
  recall_row doc = inr None ∧ recalled_message doc = None.
Proof.
  intros Hmt Hh Ha. unfold recall_row, recalled_message, getitem.
  rewrite Hmt. simpl.
  apply value_eq_str_false in Hh as Hh'. apply value_eq_str_false in Ha as Ha'.
  rewrite Hh', Ha'. split; [done|].
  destruct v as [|mt|d]; [done| |done].
  destruct (doc !! "content") as [[|text|d]|]; try done.
  rewrite !bool_decide_eq_false_2; [done| |]; congruence.
Qed.

Lemma recall_row_inr (doc : row) (m : option message) :
  recall_row doc = inr m → m = recalled_message doc.
Proof.
  unfold recall_row, recalled_message, getitem.
  destruct (doc !! "message_type") as [mt|]; simpl; [|done].
  destruct (value_eq_str mt "human") eqn:Hh.
  { apply value_eq_str_true in Hh as ->.
    destruct (doc !! "content") as [[|text|d]|]; simpl; try done.
    by intros [= <-]. }
  destruct (value_eq_str mt "ai") eqn:Ha.
  { apply value_eq_str_true in Ha as ->.
    destruct (doc !! "content") as [[|text|d]|]; simpl; try done.
    by intros [= <-]. }
  intros [= <-].
  apply value_eq_str_false in Hh, Ha.
  destruct mt as [|mt|d]; [done| |done].
  destruct (doc !! "content") as [[|text|d]|]; try done.
  rewrite !bool_decide_eq_false_2; [done| |]; congruence.
Qed.

Lemma recall_row_recallable (doc : row) :
  recallable doc → recall_row doc = inr (recalled_message doc).
Proof.
  intros (mt & Hmt & Hcontent).
  destruct (value_eq_str mt "human") eqn:Hh.
  { apply value_eq_str_true in Hh as ->.
    destruct Hcontent as [text Htext]; [by left|].
    unfold recall_row, recalled_message, getitem. by rewrite Hmt, Htext. }
  destruct (value_eq_str mt "ai") eqn:Ha.
  { apply value_eq_str_true in Ha as ->.
    destruct Hcontent as [text Htext]; [by right|].
    unfold recall_row, recalled_message, getitem. by rewrite Hmt, Htext. }
  apply value_eq_str_false in Hh, Ha.
  destruct (recall_row_unrecognized doc mt Hmt Hh Ha) as [-> ->]. done.
Qed.

Lemma recall_loop_inr (data : list row) (acc msgs : list message) :
  recall_loop data acc = inr msgs → msgs = acc ++ omap recalled_message data.
Proof.
  revert acc. induction data as [|doc rest IH]; intros acc; simpl.
  - intros [= <-]. by rewrite app_nil_r.
  - destruct (recall_row doc) as [e|m] eqn:Hrow; simpl; [done|].
    apply recall_row_inr in Hrow as ->.
    intros Hrest. apply IH in Hrest as ->.
    destruct (recalled_message doc); [|done].
    by rewrite <- app_assoc.
Qed.

Lemma recall_loop_recallable (data : list row) (acc : list message) :
  Forall recallable data →
  recall_loop data acc = inr (acc ++ omap recalled_message data).
Proof.
  intros Hall. revert acc.
  induction Hall as [|doc rest Hdoc _ IH]; intros acc; simpl.
  - by rewrite app_nil_r.
  - rewrite (recall_row_recallable doc Hdoc). simpl. rewrite IH.
    destruct (recalled_message doc); [|done].
    by rewrite <- app_assoc.
Qed.

(** ** Running a computation: inversion of successful runs *)

Section runs.

Context {vec : Type} (P : ports vec).
Implicit Types (w : world vec).

Lemma bind_inr {A B : Type} (m : M vec A) (f : A → M vec B) w b w' :
  (m ≫= f) w = (inr b, w') →
  ∃ a w1, m w = (inr a, w1) ∧ f a w1 = (inr b, w').
Proof.
  unfold mbind, M_bind. destruct (m w) as [[e|a] w1]; [done|]. eauto.
Qed.

Lemma ret_inr {A : Type} (a b : A) w w' :
  (mret a : M vec A) w = (inr b, w') → b = a ∧ w' = w.
Proof. by intros [= -> ->]. Qed.

Lemma lift_inr {A : Type} (r : res A) (b : A) w w' :
  lift r w = (inr b, w') → r = inr b ∧ w' = w.
Proof. by intros [= -> ->]. Qed.

Lemma embed_query_inr text w v w' :
  embed_query P text w = (inr v, w') →
  embeddings_model_embed_query P w text = inr v ∧ w' = log (EvEmbedQuery text v) w.
Proof.
  unfold embed_query.
  destruct (embeddings_model_embed_query P w text); [done|]. by intros [= -> <-].
Qed.

Lemma rpc_match_documents_inr e n w data w' :
  rpc_match_documents P e n w = (inr data, w') →
  supabase_rpc_match_documents P w e n = inr data ∧
  w' = log (EvMatchDocuments e n data) w.
Proof.
  unfold rpc_match_documents.
  destruct (supabase_rpc_match_documents P w e n); [done|]. by intros [= -> <-].
Qed.

Lemma rpc_match_chat_history_inr e sid n w data w' :
  rpc_match_chat_history P e sid n w = (inr data, w') →
  supabase_rpc_match_chat_history P w e sid n = inr data ∧
  w' = log (EvMatchChatHistory e sid n data) w.
Proof.
  unfold rpc_match_chat_history.
  destruct (supabase_rpc_match_chat_history P w e sid n); [done|].
  by intros [= -> <-].
Qed.

Lemma table_chat_history_insert_inr r w u w' :
  table_chat_history_insert P r w = (inr u, w') →
  w' = log (EvInsertChatHistory r) (store r w).
Proof.
  unfold table_chat_history_insert.
  destruct (supabase_chat_history_insert P w r); [done|]. by intros [= _ <-].
Qed.

Lemma llm_invoke_inr messages w text w' :
  llm_invoke P messages w = (inr text, w') →
  llm_client_invoke P w messages = inr text ∧ w' = log (EvLLM messages text) w.
Proof.
  unfold llm_invoke.
  destruct (llm_client_invoke P w messages); [done|]. by intros [= -> <-].
Qed.

(** *** The functions of [rag_service] *)

Lemma get_retrieved_documents_inr question w data w' :
  get_retrieved_documents P question w = (inr data, w') →
  ∃ e, embeddings_model_embed_query P w question = inr e ∧
       w' = log (EvMatchDocuments e 5 data) (log (EvEmbedQuery question e) w).
Proof.
  unfold get_retrieved_documents. intros H.
  apply bind_inr in H as (e & w1 & He & H).
  apply embed_query_inr in He as [He ->].
  apply rpc_match_documents_inr in H as [_ ->]. eauto.
Qed.

Lemma get_relevant_history_inr sid question w msgs w' :
  get_relevant_history P sid question w = (inr msgs, w') →
  ∃ e data,
    w' = log (EvMatchChatHistory e sid 4 data) (log (EvEmbedQuery question e) w) ∧
    recall_loop data [] = inr msgs.
Proof.
  unfold get_relevant_history. intros H.
  apply bind_inr in H as (e & w1 & He & H).
  apply embed_query_inr in He as [_ ->].
  apply bind_inr in H as (data & w2 & Hd & H).
  apply rpc_match_chat_history_inr in Hd as [_ ->].
  exists e, data. destruct data as [|doc rest].
  - apply ret_inr in H as [-> ->]. done.
  - apply lift_inr in H as [-> ->]. done.
Qed.

Lemma add_message_to_history_inr sid message_type content w u w' :
  add_message_to_history P sid message_type content w = (inr u, w') →
  ∃ e, embeddings_model_embed_query P w content = inr e ∧
       let r := ChatHistoryRow sid message_type content e in
       w' = log (EvInsertChatHistory r) (store r (log (EvEmbedQuery content e) w)).
Proof.
  unfold add_message_to_history. intros H.
  apply bind_inr in H as (e & w1 & He & H).
  apply embed_query_inr in He as [He ->].
  apply table_chat_history_insert_inr in H as ->. eauto.
Qed.

Lemma rag_chain_inr input history w answer w' :
  rag_chain P input history w = (inr answer, w') →
  ∃ query e docs context,
    llm_client_invoke P w (contextualize_q_prompt input history) = inr query ∧
    join_contents docs = inr context ∧
    w' = log (EvLLM (qa_prompt context input history) answer)
           (log (EvMatchDocuments e 5 docs)
              (log (EvEmbedQuery query e)
                 (log (EvLLM (contextualize_q_prompt input history) query) w))).
Proof.
  unfold rag_chain, history_aware_rephraser. intros H.
  apply bind_inr in H as (query & w1 & Hq & H).
  apply llm_invoke_inr in Hq as [Hq ->].
  apply bind_inr in H as (docs & w2 & Hd & H).
  apply get_retrieved_documents_inr in Hd as (e & _ & ->).
  apply bind_inr in H as (context & w3 & Hc & H).
  apply lift_inr in Hc as [Hc ->].
  apply llm_invoke_inr in H as [_ ->].
  exists query, e, docs, context. done.
Qed.

End runs.

(** ** Lists built under exceptions *)

Lemma mapM_res_inr {A B : Type} (f : A → res B) (l : list A) (k : list B) :
  mapM f l = inr k ↔ Forall2 (λ x y, f x = inr y) l k.
Proof.
  revert k. induction l as [|x l IH]; intros k; simpl.
  - split; [intros [= <-]; constructor | by inversion 1].
  - split.
    + destruct (f x) as [e|y] eqn:Hx; simpl; [done|].
      destruct (mapM f l) as [e|k'] eqn:Hl; simpl; [done|].
      intros [= <-]. constructor; [done|]. by apply IH.
    + inversion 1 as [|? y ? k' Hx Hl]; subst.
      apply IH in Hl. rewrite Hx. simpl. rewrite Hl. done.
Qed.

Lemma mapM_res_total {A B : Type} (f : A → res B) (l : list A) :
  Forall (λ x, ∃ y, f x = inr y) l → ∃ k, mapM f l = inr k.
Proof.
  induction 1 as [|x l [y Hx] _ [k Hk]].
  - by exists [].
  - exists (y :: k). simpl. rewrite Hx. simpl. rewrite Hk. done.
Qed.

Lemma Forall2_in_l {A B : Type} (R : A → B → Prop) (l : list A) (k : list B) (x : A) :
  Forall2 R l k → x ∈ l → ∃ y, y ∈ k ∧ R x y.
Proof.
  induction 1 as [|x' y' l' k' Hxy _ IH]; [by intros ?%elem_of_nil|].
  intros [->|Hx]%elem_of_cons.
  - exists y'. split; [left|done].
  - destruct (IH Hx) as (y & Hy & Hr). exists y. split; [by right|done].
Qed.

Lemma Forall2_in_r {A B : Type} (R : A → B → Prop) (l : list A) (k : list B) (y : B) :
  Forall2 R l k → y ∈ k → ∃ x, x ∈ l ∧ R x y.
Proof.
  induction 1 as [|x' y' l' k' Hxy _ IH]; [by intros ?%elem_of_nil|].
  intros [->|Hy]%elem_of_cons.
  - exists x'. split; [left|done].
  - destruct (IH Hy) as (x & Hx & Hr). exists x. split; [by right|done].
Qed.

(** ** Sources *)

Lemma metadata_source_text (doc : row) (s : string) :
  (∃ v, metadata_source "Unknown" doc = inr v ∧ hashable v = inr (Some s))
  ↔ source_or_unknown doc = Some s.
Proof.
  unfold metadata_source, source_or_unknown, getitem, dict_get.
  destruct (doc !! "metadata") as [[|t|metadata]|]; simpl;
    try (split; [intros (v & ? & ?); done | done]).
  destruct (metadata !! "source") as [[|t|d]|]; simpl.
  - split; [intros (v & [= <-] & ?); done | done].
  - split; [intros (v & [= <-] & [= <-]); done |].
    intros [= ->]. by exists (VStr s).
  - split; [intros (v & [= <-] & ?); done | done].
  - split; [intros (v & [= <-] & [= <-]); done |].
    intros [= <-]. by exists (VStr "Unknown").
Qed.

Lemma metadata_source_missing (doc : row) (metadata : gmap string value) :
  doc !! "metadata" = Some (VDict metadata) → metadata !! "source" = None →
  metadata_source "Unknown" doc = inr (VStr "Unknown") ∧
  source_or_unknown doc = Some "Unknown".
Proof.
  intros Hm Hs. unfold metadata_source, source_or_unknown, getitem.
  rewrite Hm. simpl. by rewrite Hs.
Qed.

Lemma list_set_inr (items : list value) (srcs : list (option string)) :
  list_set items = inr srcs →
  NoDup srcs ∧ ∀ o, o ∈ srcs ↔ ∃ v, v ∈ items ∧ hashable v = inr o.
Proof.
  unfold list_set. destruct (mapM hashable items) as [e|hashed] eqn:Hh; simpl; [done|].
  intros [= <-]. split; [apply NoDup_elements|].
  apply mapM_res_inr in Hh. intros o.
  rewrite elem_of_elements, elem_of_list_to_set. split.
  - intros Ho. destruct (Forall2_in_r _ _ _ _ Hh Ho) as (v & Hv & Hvo). eauto.
  - intros (v & Hv & Hvo).
    destruct (Forall2_in_l _ _ _ _ Hh Hv) as (o' & Ho' & Hvo').
    rewrite Hvo in Hvo'. by injection Hvo' as ->.
Qed.

Lemma derive_sources_inr (data : list row) (srcs : list (option string)) :
  derive_sources data = inr srcs →
  NoDup srcs ∧
  ∀ o, o ∈ srcs ↔
       ∃ doc v, doc ∈ data ∧ metadata_source "Unknown" doc = inr v ∧ hashable v = inr o.
Proof.
  assert (∀ found,
    mapM (metadata_source "Unknown") data = inr found →
    list_set found = inr srcs →
    NoDup srcs ∧
    ∀ o, o ∈ srcs ↔
         ∃ doc v, doc ∈ data ∧ metadata_source "Unknown" doc = inr v
                  ∧ hashable v = inr o) as Hgen.
  { intros found Hf Hs. apply mapM_res_inr in Hf.
    apply list_set_inr in Hs as [Hnd Hmem]. split; [done|].
    intros o. rewrite Hmem. split.
    - intros (v & Hv & Hvo).
      destruct (Forall2_in_r _ _ _ _ Hf Hv) as (doc & Hdoc & Hdv). eauto.
    - intros (doc & v & Hdoc & Hdv & Hvo).
      destruct (Forall2_in_l _ _ _ _ Hf Hdoc) as (v' & Hv' & Hdv').
      rewrite Hdv in Hdv'. injection Hdv' as <-. eauto. }
  unfold derive_sources. destruct data as [|doc rest].
  - intros [= <-]. split; [constructor|].
    intros o. split; [by intros ?%elem_of_nil|].
    by intros (d & v & ?%elem_of_nil & _).
  - intros Hrun.
    change (mapM (metadata_source "Unknown") (doc :: rest) ≫= list_set = inr srcs)
      in Hrun.
    revert Hrun.
    destruct (mapM (metadata_source "Unknown") (doc :: rest)) as [e|found] eqn:Hf;
      [done|].
    by apply Hgen.
Qed.

Lemma new_QueryResponse_inr answer (srcs : list (option string)) cid resp :
  new_QueryResponse answer srcs cid = inr resp →
  QueryResponse.answer resp = answer ∧
  QueryResponse.conversation_id resp = cid ∧
  srcs = Some <$> QueryResponse.sources resp.
Proof.
  unfold new_QueryResponse.
  destruct (mapM _ srcs) as [e|checked] eqn:Hc; simpl; [done|].
  intros [= <-]. simpl. split; [done|]. split; [done|].
  apply mapM_res_inr in Hc.
  induction Hc as [|o s srcs' checked' Hos _ IH]; [done|].
  destruct o as [s'|]; [|done]. injection Hos as ->. simpl. by rewrite IH.
Qed.

(** The last two steps of [query_rag_endpoint]: from the rows of the second
    retrieval to the response. *)
Lemma response_sources (data : list row) srcs answer cid resp :
  derive_sources data = inr srcs →
  new_QueryResponse answer srcs cid = inr resp →
  NoDup (QueryResponse.sources resp) ∧
  ∀ s, s ∈ QueryResponse.sources resp ↔
       ∃ doc, doc ∈ data ∧ source_or_unknown doc = Some s.
Proof.
  intros Hd Hr.
  apply derive_sources_inr in Hd as [Hnd Hmem].
  apply new_QueryResponse_inr in Hr as (_ & _ & ->).
  split; [by apply (NoDup_fmap Some)|].
  intros s. rewrite <- (list_elem_of_fmap_inj Some), Hmem. split.
  - intros (doc & v & Hdoc & Hv & Hh). exists doc. split; [done|].
    apply metadata_source_text. eauto.
  - intros (doc & Hdoc & Hs). apply metadata_source_text in Hs as (v & Hv & Hh).
    eauto.
Qed.

Lemma sourced_source_or_unknown (doc : row) :
  sourced doc ↔ is_Some (source_or_unknown doc).
Proof.
  unfold sourced, source_or_unknown. split.
  - intros (metadata & -> & [-> | [s ->]]); by eexists.
  - destruct (doc !! "metadata") as [[|t|metadata]|]; try by intros [? ?].
    intros Hs. exists metadata. split; [done|].
    destruct (metadata !! "source") as [[|s|d]|]; try by destruct Hs.
    + right. by exists s.
    + by left.
Qed.

Lemma source_or_unknown_metadata_source (doc : row) (s : string) :
  source_or_unknown doc = Some s → metadata_source "Unknown" doc = inr (VStr s).
Proof.
  intros Hs. apply metadata_source_text in Hs as (v & Hv & Hh).
  destruct v as [|t|d]; try done. by injection Hh as ->.
Qed.

(** When every chunk is [sourced], the sources are derived and the
    response is built. *)
Lemma response_sources_total (data : list row) answer cid :
  Forall sourced data →
  ∃ srcs resp, derive_sources data = inr srcs ∧
               new_QueryResponse answer srcs cid = inr resp.
Proof.
  intros Hall.
  assert (∃ srcs, derive_sources data = inr srcs) as [srcs Hsrcs].
  { destruct data as [|doc rest]; [by exists []|].
    assert (mapM (metadata_source "Unknown") (doc :: rest)
              = inr (VStr <$> omap source_or_unknown (doc :: rest))) as Hfound.
    { apply mapM_res_inr. induction Hall as [|d l Hd _ IH]; [constructor|].
      apply sourced_source_or_unknown in Hd as [s Hs]. simpl. rewrite Hs. simpl.
      constructor; [by apply source_or_unknown_metadata_source | done]. }
    change (∃ srcs, mapM (metadata_source "Unknown") (doc :: rest) ≫= list_set
                      = inr srcs).
    rewrite Hfound. generalize (omap source_or_unknown (doc :: rest)). intros l.
    change (∃ srcs, list_set (VStr <$> l) = inr srcs). unfold list_set.
    assert (mapM hashable (VStr <$> l) = inr (Some <$> l)) as ->.
    { apply mapM_res_inr. induction l; constructor; done. }
    by eexists. }
  exists srcs.
  destruct (mapM_res_total
    (λ o : option string,
       match o with Some s => inr s | None => inl (ValidationError "sources") end)
    srcs) as [checked Hchecked].
  { apply derive_sources_inr in Hsrcs as [_ Hmem].
    apply Forall_forall. intros o Ho. apply Hmem in Ho as (doc & v & Hdoc & Hv & Hh).
    rewrite Forall_forall in Hall.
    apply Hall, sourced_source_or_unknown in Hdoc as [s Hs].
    apply source_or_unknown_metadata_source in Hs. rewrite Hs in Hv.
    injection Hv as <-. injection Hh as <-. by exists s. }
  exists (QueryResponse.mk answer checked cid). split; [done|].
  unfold new_QueryResponse. rewrite Hchecked. done.
Qed.

(** Conversely, the two steps succeed only on [sourced] chunks. *)
Lemma response_sources_sourced (data : list row) srcs answer cid resp :
  derive_sources data = inr srcs →
  new_QueryResponse answer srcs cid = inr resp →
  Forall sourced data.
Proof.
  intros Hd Hr.
  apply new_QueryResponse_inr in Hr as (_ & _ & ->).
  destruct data as [|doc rest]; [constructor|].
  change (mapM (metadata_source "Unknown") (doc :: rest) ≫= list_set
          = inr (Some <$> QueryResponse.sources resp)) in Hd.
  destruct (mapM (metadata_source "Unknown") (doc :: rest)) as [e|found] eqn:Hf;
    [done|].
  change (list_set found = inr (Some <$> QueryResponse.sources resp)) in Hd.
  unfold list_set in Hd.
  destruct (mapM hashable found) as [e|hashed] eqn:Hh; [done|].
  injection Hd as Hd.
  apply mapM_res_inr in Hf, Hh.
  apply Forall_forall. intros d Hin.
  destruct (Forall2_in_l _ _ _ _ Hf Hin) as (v & Hv & Hdv).
  destruct (Forall2_in_l _ _ _ _ Hh Hv) as (o & Ho & Hvo).
  assert (o ∈ Some <$> QueryResponse.sources resp) as Hsome.
  { rewrite <- Hd. by apply elem_of_elements, elem_of_list_to_set. }
  apply list_elem_of_fmap in Hsome as (s & -> & _).
  apply sourced_source_or_unknown. exists s. apply metadata_source_text. eauto.
Qed.

(** ** The context block *)

Lemma join_contents_gathers (data : list row) :
  mapM (λ doc : row, getitem doc "content")
       (filter (λ doc : row, is_Some (doc !! "content")) data)
  = inr (present_contents data).
Proof.
  induction data as [|doc rest IH]; [done|].
  unfold present_contents, getitem in *. simpl.
  destruct (doc !! "content") as [v|] eqn:Hv.
  - rewrite filter_cons_True by (by rewrite Hv). simpl. rewrite Hv. simpl.
    rewrite IH. done.
  - rewrite filter_cons_False by (rewrite Hv; by intros [? ?]). done.
Qed.



(** ** Fresh conversation ids *)

Lemma uuid4_of_bits_version_bit (bits : Z) :
  Z.testbit (uuid4_of_bits bits) 78 = true.
Proof.
  unfold uuid4_of_bits. rewrite Z.lor_spec.
  replace (Z.testbit (Z.shiftl 4 76) 78) with true by (by vm_compute).
  apply orb_true_r.
Qed.

Lemma uuid4_of_bits_not_nil (bits : Z) : uuid4_of_bits bits ≠ 0.
Proof.
  intros Hnil. pose proof (uuid4_of_bits_version_bit bits) as Hbit.
  rewrite Hnil in Hbit. by rewrite Z.bits_0 in Hbit.
Qed.

Lemma testbit_small_high (c i : Z) :
  0 ≤ c → Z.log2 c < i → Z.testbit c i = false.
Proof. intros Hc Hi. by apply Z.bits_above_log2. Qed.

Lemma uuid4_of_bits_range (bits : Z) : 0 ≤ uuid4_of_bits bits < 2 ^ 128.
Proof.
  assert (uuid4_of_bits bits = Z.land (uuid4_of_bits bits) (Z.ones 128)) as Heq.
  { apply Z.bits_inj'. intros i Hi. rewrite Z.land_spec.
    destruct (decide (i < 128)) as [Hlow|Hhigh].
    - rewrite (Z.ones_spec_low 128 i) by lia. by rewrite andb_true_r.
    - rewrite (Z.ones_spec_high 128 i) by lia. rewrite andb_false_r.
      unfold uuid4_of_bits.
      rewrite Z.lor_spec, Z.land_spec, Z.lor_spec, Z.land_spec.
      rewrite (Z.mod_pow2_bits_high bits 128 i) by lia.
      rewrite !Z.shiftl_spec by lia.
      assert (Z.log2 0x8000 = 15 ∧ Z.log2 4 = 2) as [Hvariant Hversion] by done.
      rewrite (testbit_small_high 0x8000 (i - 48)), (testbit_small_high 4 (i - 76));
        [done|lia..]. }
  rewrite Heq, Z.land_ones by lia. by apply Z.mod_pos_bound.
Qed.

(** Bit by bit: the forced bits read 1 0 (variant) and 0 1 0 0 (version);
    every other bit below 128 is the bit drawn. *)

Lemma testbit_16 (c j : Z) (bits : list bool) :
  length bits = 16%nat →
  (∀ n : nat, (n < 16)%nat → Z.testbit c (Z.of_nat n) = default false (bits !! n)) →
  0 ≤ c < 2 ^ 16 →
  Z.testbit c j = if decide (0 ≤ j) then default false (bits !! Z.to_nat j) else false.
Proof.
  intros Hlen Hbits Hc. destruct (decide (0 ≤ j)) as [Hj|Hj].
  - destruct (decide (j < 16)) as [Hlow|Hhigh].
    + rewrite <- (Z2Nat.id j) at 1 by done. apply Hbits. lia.
    + rewrite lookup_ge_None_2 by lia. simpl.
      destruct (decide (c = 0)) as [->|Hnz]; [apply Z.bits_0|].
      apply Z.bits_above_log2; [lia|].
      assert (Z.log2 c < 16); [|lia]. apply Z.log2_lt_pow2; lia.
  - apply Z.testbit_neg_r. lia.
Qed.

Lemma uuid4_of_bits_testbit (bits i : Z) :
  0 ≤ i →
  Z.testbit (uuid4_of_bits bits) i =
    if decide (i = 63 ∨ i = 78) then true
    else if decide (i = 62 ∨ i = 76 ∨ i = 77 ∨ i = 79) then false
    else if decide (i < 128) then Z.testbit bits i
    else false.
Proof.
  intros Hi. unfold uuid4_of_bits.
  rewrite Z.lor_spec, Z.land_spec, Z.lor_spec, Z.land_spec, !Z.lnot_spec by done.
  rewrite !Z.shiftl_spec by done.
  rewrite (testbit_16 0xc000 (i - 48)
             [false;false;false;false;false;false;false;false;
              false;false;false;false;false;false;true;true]);
    [|done|intros n Hn; do 16 (destruct n as [|n]; [done|]); lia|lia].
  rewrite (testbit_16 0x8000 (i - 48)
             [false;false;false;false;false;false;false;false;
              false;false;false;false;false;false;false;true]);
    [|done|intros n Hn; do 16 (destruct n as [|n]; [done|]); lia|lia].
  rewrite (testbit_16 0xf000 (i - 64)
             [false;false;false;false;false;false;false;false;
              false;false;false;false;true;true;true;true]);
    [|done|intros n Hn; do 16 (destruct n as [|n]; [done|]); lia|lia].
  rewrite (testbit_16 4 (i - 76)
             [false;false;true;false;false;false;false;false;
              false;false;false;false;false;false;false;false]);
    [|done|intros n Hn; do 16 (destruct n as [|n]; [done|]); lia|lia].
  destruct (decide (i < 128)) as [Hlow|Hhigh].
  - rewrite Z.mod_pow2_bits_low by lia.
    destruct (decide (i < 48)) as [H48|H48].
    { repeat (destruct (decide _) as [?|?]; try lia). by rewrite !andb_true_r, !orb_false_r. }
    assert (∃ n : nat, i = 48 + Z.of_nat n ∧ (n < 80)%nat) as (n & -> & Hn)
      by (exists (Z.to_nat (i - 48)); lia).
    do 80 (destruct n as [|n];
      [repeat (destruct (decide _) as [?|?]; try lia); simpl;
       rewrite ?andb_true_r, ?orb_false_r, ?andb_false_r, ?orb_true_r; reflexivity|]).
    lia.
  - rewrite Z.mod_pow2_bits_high by lia.
    repeat (destruct (decide _) as [?|?]; try lia).
    rewrite !lookup_ge_None_2 by (simpl; lia). done.
Qed.

(** Distinct 128-bit ids have distinct string forms: the History Store sees
    the id itself. *)

Lemma string_app_cons (c : ascii) (s t : string) :
  String c s +:+ t = String c (s +:+ t).
Proof. reflexivity. Qed.

Lemma string_app_inj (s1 s2 t1 t2 : string) :
  String.length s1 = String.length s2 →
  s1 +:+ t1 = s2 +:+ t2 → s1 = s2 ∧ t1 = t2.
Proof.
  revert s2. induction s1 as [|c s1 IH]; intros [|d s2]; try done.
  rewrite !string_app_cons. intros [= Hlen] [= -> Happ].
  destruct (IH s2 Hlen Happ) as [-> ->]. done.
Qed.

Lemma string_app_assoc (s1 s2 s3 : string) :
  (s1 +:+ s2) +:+ s3 = s1 +:+ (s2 +:+ s3).
Proof.
  induction s1 as [|c s1 IH]; [done|]. rewrite !string_app_cons. by f_equal.
Qed.

Lemma hex_digits_acc (width : nat) (n : Z) (acc : string) :
  hex_digits width n acc = hex_digits width n "" +:+ acc.
Proof.
  revert n acc. induction width as [|width IH]; intros n acc; simpl; [done|].
  rewrite (IH _ (String _ acc)), (IH _ (String _ "")).
  by rewrite string_app_assoc.
Qed.

Lemma hex_digits_length (width : nat) (n : Z) (acc : string) :
  String.length (hex_digits width n acc) = (width + String.length acc)%nat.
Proof.
  revert n acc. induction width as [|width IH]; intros n acc; simpl; [done|].
  rewrite IH. simpl. lia.
Qed.

Lemma hex_digit_inj (a b : Z) :
  0 ≤ a < 16 → 0 ≤ b < 16 → hex_digit a = hex_digit b → a = b.
Proof.
  intros Ha Hb.
  assert (∃ i : nat, a = Z.of_nat i ∧ (i < 16)%nat) as (i & -> & Hi)
    by (exists (Z.to_nat a); lia).
  assert (∃ j : nat, b = Z.of_nat j ∧ (j < 16)%nat) as (j & -> & Hj)
    by (exists (Z.to_nat b); lia).
  unfold hex_digit. rewrite !Nat2Z.id.
  do 16 (destruct i as [|i]; [do 16 (destruct j as [|j]; [by vm_compute|]); lia|]).
  lia.
Qed.

Lemma hex_digits_inj (width : nat) (n m : Z) :
  0 ≤ n < 16 ^ Z.of_nat width → 0 ≤ m < 16 ^ Z.of_nat width →
  hex_digits width n "" = hex_digits width m "" → n = m.
Proof.
  revert n m. induction width as [|width IH]; intros n m Hn Hm; [simpl in *; lia|].
  rewrite Nat2Z.inj_succ, Z.pow_succ_r in Hn, Hm by lia.
  change (hex_digits (S width) ?k "")
    with (hex_digits width (k `div` 16) (String (hex_digit (k `mod` 16)) "")).
  rewrite (hex_digits_acc _ (n `div` 16)), (hex_digits_acc _ (m `div` 16)).
  intros Heq. apply string_app_inj in Heq as [Hhigh [= Hlow]];
    [|by rewrite !hex_digits_length].
  apply hex_digit_inj in Hlow; [|by apply Z.mod_pos_bound..].
  apply IH in Hhigh;
    [|split; [apply Z.div_pos; lia | apply Z.div_lt_upper_bound; lia]..].
  rewrite (Z.div_mod n 16), (Z.div_mod m 16) by lia. congruence.
Qed.

Lemma str_uuid_inj (u v : UUID) :
  0 ≤ u < 2 ^ 128 → 0 ≤ v < 2 ^ 128 → str_uuid u = str_uuid v → u = v.
Proof.
  intros Hu Hv Heq. apply (hex_digits_inj 32); [done..|].
  unfold str_uuid in Heq.
  pose proof (hex_digits_length 32 u "") as Hlu.
  pose proof (hex_digits_length 32 v "") as Hlv.
  revert Heq Hlu Hlv.
  generalize (hex_digits 32 u ""), (hex_digits 32 v ""). intros h1 h2 Heq Hl1 Hl2.
  do 32 (destruct h1 as [|? h1]; [discriminate Hl1|]).
  destruct h1; [|discriminate Hl1].
  do 32 (destruct h2 as [|? h2]; [discriminate Hl2|]).
  destruct h2; [|discriminate Hl2].
  vm_compute in Heq. congruence.
Qed.

(** The string form of any integer is that of its 128 low bits, and it
    determines them. *)

Lemma hex_digits_mod (width : nat) (n : Z) (acc : string) :
  hex_digits width n acc = hex_digits width (n `mod` 16 ^ Z.of_nat width) acc.
Proof.
  revert n acc. induction width as [|width IH]; intros n acc; [done|].
  change (hex_digits (S width) ?k acc)
    with (hex_digits width (k `div` 16) (String (hex_digit (k `mod` 16)) acc)).
  rewrite Nat2Z.inj_succ, Z.pow_succ_r by lia.
  assert (0 < 16 ^ Z.of_nat width) as Hpos by (apply Z.pow_pos_nonneg; lia).
  rewrite (Z.rem_mul_r n 16 (16 ^ Z.of_nat width)) by lia.
  pose proof (Z.mod_pos_bound n 16) as Hlow.
  replace ((n `mod` 16 + 16 * ((n `div` 16) `mod` 16 ^ Z.of_nat width)) `mod` 16)
    with (n `mod` 16).
  2: { apply (Z.mod_unique _ _ ((n `div` 16) `mod` 16 ^ Z.of_nat width)); lia. }
  replace ((n `mod` 16 + 16 * ((n `div` 16) `mod` 16 ^ Z.of_nat width)) `div` 16)
    with ((n `div` 16) `mod` 16 ^ Z.of_nat width).
  2: { apply (Z.div_unique _ _ _ (n `mod` 16)); lia. }
  rewrite (IH (n `div` 16)). done.
Qed.

Lemma str_uuid_mod (u : UUID) : str_uuid u = str_uuid (u `mod` 2 ^ 128).
Proof.
  unfold str_uuid. by rewrite (hex_digits_mod 32 u).
Qed.

Lemma str_uuid_determines_bits (u v : UUID) :
  str_uuid u = str_uuid v → u `mod` 2 ^ 128 = v `mod` 2 ^ 128.
Proof.
  rewrite (str_uuid_mod u), (str_uuid_mod v).
  apply str_uuid_inj; by apply Z.mod_pos_bound.
Qed.

(** ** One request, step by step *)

Section endpoint.

Context {vec : Type} (P : ports vec).
Implicit Types (w : world vec).

Lemma resolve_conversation_id_inr (supplied : option UUID) w cid w' :
  match supplied with
  | Some u => mret u
  | None => uuid4 P
  end w = (inr cid, w') →
  ∃ fresh,
    match supplied with
    | Some u => cid = u ∧ fresh = []
    | None => cid = uuid4_of_bits (os_urandom16 P w) ∧ fresh = [EvUuid4 cid]
    end ∧
    calls w' = calls w ++ fresh ∧ chat_history w' = chat_history w.
Proof.
  destruct supplied as [u|].
  - intros [= <- <-]. exists []. by rewrite app_nil_r.
  - unfold uuid4. intros [= <- <-]. eexists. split; [done|]. done.
Qed.

Lemma query_rag_endpoint_inr request w resp w' :
  query_rag_endpoint P request w = (inr resp, w') →
  let cid := QueryResponse.conversation_id resp in
  let sid := str_uuid cid in
  let question := QueryRequest.question request in
  let answer := QueryResponse.answer resp in
  ∃ fresh e1 history_rows recalled query e2 docs context e3 e4 e5 docs2 srcs,
    match QueryRequest.conversation_id request with
    | Some supplied => cid = supplied ∧ fresh = []
    | None => cid = uuid4_of_bits (os_urandom16 P w) ∧ fresh = [EvUuid4 cid]
    end ∧
    recall_loop history_rows [] = inr recalled ∧
    join_contents docs = inr context ∧
    derive_sources docs2 = inr srcs ∧
    new_QueryResponse answer srcs cid = inr resp ∧
    calls w' = calls w ++
               query_log fresh sid question e1 history_rows recalled query e2
                 docs context answer e3 e4 e5 docs2 ∧
    chat_history w' = chat_history w ++
                      [ChatHistoryRow sid "human" question e3;
                       ChatHistoryRow sid "ai" answer e4].
Proof.
  unfold query_rag_endpoint. intros H.
  apply bind_inr in H as (cid & w1 & Hcid & H).
  apply resolve_conversation_id_inr in Hcid as (fresh & Hfresh & Hc1 & Hh1).
  apply bind_inr in H as (recalled & w2 & Hrec & H).
  apply get_relevant_history_inr in Hrec as (e1 & history_rows & -> & Hrecall).
  apply bind_inr in H as (answer & w3 & Hans & H).
  apply rag_chain_inr in Hans as (query & e2 & docs & context & _ & Hctx & ->).
  apply bind_inr in H as (u1 & w4 & Hadd1 & H).
  apply add_message_to_history_inr in Hadd1 as (e3 & _ & ->).
  apply bind_inr in H as (u2 & w5 & Hadd2 & H).
  apply add_message_to_history_inr in Hadd2 as (e4 & _ & ->).
  apply bind_inr in H as (docs2 & w6 & Hdocs2 & H).
  apply get_retrieved_documents_inr in Hdocs2 as (e5 & _ & ->).
  apply bind_inr in H as (srcs & w7 & Hsrcs & H).
  apply lift_inr in Hsrcs as [Hsrcs ->].
  apply lift_inr in H as [Hresp ->].
  pose proof (new_QueryResponse_inr _ _ _ _ Hresp) as (Ha & Hc & _).
  simpl. rewrite Ha, Hc.
  exists fresh, e1, history_rows, recalled, query, e2, docs, context,
    e3, e4, e5, docs2, srcs.
  split; [done|]. split; [done|]. split; [done|]. split; [done|].
  split; [done|]. unfold query_log. simpl. rewrite Hc1, Hh1.
  split; by rewrite <- !app_assoc.
Qed.

End endpoint.

(** ** The contract of [POST /query] *)

(** C3: after a successful [POST /query] the [chat_history] table has grown
    by exactly two rows, both under the conversation id of the response: a
    [human] row holding the original question, then an [ai] row holding the
    returned answer.  Each row stores the output of an embedding call of
    its own, made on the row's content immediately before the insert; the
    request makes no other insert. *)
Theorem query_persists_the_turn {vec : Type} (P : ports vec)
    request (w : world vec) resp w' :
  query_rag_endpoint P request w = (inr resp, w') →
  let sid := str_uuid (QueryResponse.conversation_id resp) in
  let question := QueryRequest.question request in
  let answer := QueryResponse.answer resp in
  ∃ e_question e_answer before after,
    let human := ChatHistoryRow sid "human" question e_question in
    let ai := ChatHistoryRow sid "ai" answer e_answer in
    chat_history w' = chat_history w ++ [human; ai] ∧
    calls w' = calls w ++ before ++
               [EvEmbedQuery question e_question; EvInsertChatHistory human;
                EvEmbedQuery answer e_answer; EvInsertChatHistory ai] ++ after ∧
    inserted_rows before = [] ∧ inserted_rows after = [] ∧
    ∃ query, embedded_texts before = [question; query] ∧
             embedded_texts after = [question].
Proof.
  intros Hrun sid question answer.
  destruct (query_rag_endpoint_inr P _ _ _ _ Hrun)
    as (fresh & e1 & history_rows & recalled & query & e2 & docs & context
        & e3 & e4 & e5 & docs2 & srcs & Hfresh & _ & _ & _ & _ & Hcalls & Htable).
  exists e3, e4,
    (fresh ++ [EvEmbedQuery question e1;
               EvMatchChatHistory e1 sid 4 history_rows;
               EvLLM (contextualize_q_prompt question recalled) query;
               EvEmbedQuery query e2;
               EvMatchDocuments e2 5 docs;
               EvLLM (qa_prompt context question recalled) answer]),
    [EvEmbedQuery question e5; EvMatchDocuments e5 5 docs2].
  simpl. split; [exact Htable|]. split.
  - rewrite Hcalls. unfold query_log. by rewrite <- !app_assoc.
  - assert (fresh = [] ∨ ∃ u, fresh = [EvUuid4 u]) as Hcases.
    { destruct (QueryRequest.conversation_id request);
        destruct Hfresh as [_ ->]; eauto. }
    split; [|split; [done|exists query; split; [|done]]];
      destruct Hcases as [->|[u ->]]; done.
Qed.

Lemma query_persists_the_turn_witness :
  ∃ e_question e_answer before after,
    let sid := str_uuid (QueryResponse.conversation_id fixtures.response) in
    let human := ChatHistoryRow sid "human" "What is Supabase?" e_question in
    let ai := ChatHistoryRow sid "ai" (QueryResponse.answer fixtures.response)
                e_answer in
    chat_history fixtures.w1 = chat_history fake.w0 ++ [human; ai] ∧
    calls fixtures.w1 =
      calls fake.w0 ++ before ++
      [EvEmbedQuery "What is Supabase?" e_question; EvInsertChatHistory human;
       EvEmbedQuery (QueryResponse.answer fixtures.response) e_answer;
       EvInsertChatHistory ai] ++ after ∧
    inserted_rows before = [] ∧ inserted_rows after = [] ∧
    ∃ query, embedded_texts before = ["What is Supabase?"; query] ∧
             embedded_texts after = ["What is Supabase?"].
Proof.
  apply (query_persists_the_turn fake.echo fake.request fake.w0
           fixtures.response fixtures.w1).
  vm_compute. reflexivity.
Defined.

(** C5: a successful [POST /query] answers with a conversation id.  It is
    the one supplied when there is one, and then no id is drawn.  Otherwise
    it is the one id drawn during the request, a version-4 UUID: a 128-bit
    value other than the nil UUID whose variant and version bits are set
    and whose 122 other bits are the random bits as drawn.  The request
    makes three History Store calls, the recall and the two appends, and
    each carries the string form of the id that the response echoes.  That
    form determines the 128 bits of the id: among 128-bit values, which
    every [uuid.UUID] is, it belongs to this id alone. *)
Theorem query_conversation_id {vec : Type} (P : ports vec)
    request (w : world vec) resp w' :
  query_rag_endpoint P request w = (inr resp, w') →
  let cid := QueryResponse.conversation_id resp in
  ∃ new,
    calls w' = calls w ++ new ∧
    match QueryRequest.conversation_id request with
    | Some supplied => cid = supplied ∧ drawn_ids new = []
    | None =>
        let bits := os_urandom16 P w in
        cid = uuid4_of_bits bits ∧ drawn_ids new = [cid] ∧
        cid ≠ 0 ∧ 0 ≤ cid < 2 ^ 128 ∧
        Z.testbit cid 63 = true ∧ Z.testbit cid 62 = false ∧
        Z.testbit cid 79 = false ∧ Z.testbit cid 78 = true ∧
        Z.testbit cid 77 = false ∧ Z.testbit cid 76 = false ∧
        ∀ i, 0 ≤ i < 128 → i ∉ forced_bits → Z.testbit cid i = Z.testbit bits i
    end ∧
    history_store_ids new = [str_uuid cid; str_uuid cid; str_uuid cid] ∧
    row_conversation_id <$> inserted_rows new = [str_uuid cid; str_uuid cid] ∧
    ∀ other, str_uuid other = str_uuid cid →
             other `mod` 2 ^ 128 = cid `mod` 2 ^ 128 ∧
             (0 ≤ cid < 2 ^ 128 → 0 ≤ other < 2 ^ 128 → other = cid).
Proof.
  intros Hrun cid.
  destruct (query_rag_endpoint_inr P _ _ _ _ Hrun)
    as (fresh & e1 & history_rows & recalled & query & e2 & docs & context
        & e3 & e4 & e5 & docs2 & srcs & Hfresh & _ & _ & _ & _ & Hcalls & _).
  fold cid in Hfresh, Hcalls.
  eexists. split; [exact Hcalls|].
  unfold query_log, history_store_ids, inserted_rows, drawn_ids. rewrite !omap_app.
  split; [|split; [|split]].
  - destruct (QueryRequest.conversation_id request) as [supplied|].
    + destruct Hfresh as [Hcid ->]. by split.
    + destruct Hfresh as [Hcid ->].
      split; [done|]. split; [done|]. rewrite Hcid.
      split; [apply uuid4_of_bits_not_nil|]. split; [apply uuid4_of_bits_range|].
      rewrite !uuid4_of_bits_testbit by done.
      do 6 (split; [done|]).
      intros i Hi Hfree. rewrite uuid4_of_bits_testbit by lia.
      unfold forced_bits in Hfree. rewrite !not_elem_of_cons in Hfree.
      repeat (destruct (decide _) as [?|?]; try lia). done.
  - destruct (QueryRequest.conversation_id request);
      destruct Hfresh as [_ ->]; done.
  - destruct (QueryRequest.conversation_id request);
      destruct Hfresh as [_ ->]; done.
  - intros other Heq. split; [by apply str_uuid_determines_bits|].
    intros Hcid Hother. by apply str_uuid_inj.
Qed.

Lemma query_conversation_id_witness :
  let cid := QueryResponse.conversation_id fixtures.response in
  ∃ new,
    calls fixtures.w1 = calls fake.w0 ++ new ∧
    (let bits := os_urandom16 fake.echo fake.w0 in
     cid = uuid4_of_bits bits ∧ drawn_ids new = [cid] ∧
     cid ≠ 0 ∧ 0 ≤ cid < 2 ^ 128 ∧
     Z.testbit cid 63 = true ∧ Z.testbit cid 62 = false ∧
     Z.testbit cid 79 = false ∧ Z.testbit cid 78 = true ∧
     Z.testbit cid 77 = false ∧ Z.testbit cid 76 = false ∧
     ∀ i, 0 ≤ i < 128 → i ∉ forced_bits → Z.testbit cid i = Z.testbit bits i) ∧
    history_store_ids new = [str_uuid cid; str_uuid cid; str_uuid cid] ∧
    row_conversation_id <$> inserted_rows new = [str_uuid cid; str_uuid cid] ∧
    ∀ other, str_uuid other = str_uuid cid →
             other `mod` 2 ^ 128 = cid `mod` 2 ^ 128 ∧
             (0 ≤ cid < 2 ^ 128 → 0 ≤ other < 2 ^ 128 → other = cid).
Proof.
  apply (query_conversation_id fake.echo fake.request fake.w0
           fixtures.response fixtures.w1).
  vm_compute. reflexivity.
Defined.

(** C6: the [sources] of a successful response hold no value twice,
    however many of the retrieved chunks share a source. *)
Theorem query_sources_no_duplicates {vec : Type} (P : ports vec)
    request (w : world vec) resp w' :
  query_rag_endpoint P request w = (inr resp, w') →
  NoDup (QueryResponse.sources resp).
Proof.
  intros Hrun.
  destruct (query_rag_endpoint_inr P _ _ _ _ Hrun)
    as (fresh & e1 & history_rows & recalled & query & e2 & docs & context
        & e3 & e4 & e5 & docs2 & srcs & _ & _ & _ & Hsrcs & Hresp & _ & _).
  by destruct (response_sources _ _ _ _ _ Hsrcs Hresp).
Qed.

Lemma query_sources_no_duplicates_witness :
  NoDup (QueryResponse.sources fixtures.response).
Proof.
  apply (query_sources_no_duplicates fake.echo fake.request fake.w0
           fixtures.response fixtures.w1).
  vm_compute. reflexivity.
Defined.

(** C8: a successful [POST /query] retrieves documents twice.  The first
    retrieval embeds the reformulated question (the output of the first LLM
    call) and its rows make the context of the answering prompt.  The
    second is the last thing the request does: it embeds the original
    question anew and asks the Document Store again for 5 rows.  The
    sources of the response are the distinct [metadata.source] values of
    the rows of that second retrieval, ["Unknown"] standing for a metadata
    without source. *)
Theorem query_sources_from_second_retrieval {vec : Type} (P : ports vec)
    request (w : world vec) resp w' :
  query_rag_endpoint P request w = (inr resp, w') →
  let question := QueryRequest.question request in
  let answer := QueryResponse.answer resp in
  let sid := str_uuid (QueryResponse.conversation_id resp) in
  ∃ fresh e1 history_rows recalled query e2 docs context e3 e4 e5 docs2,
    calls w' = calls w ++
               query_log fresh sid question e1 history_rows recalled query e2
                 docs context answer e3 e4 e5 docs2 ∧
    match_documents_data
      (query_log fresh sid question e1 history_rows recalled query e2
         docs context answer e3 e4 e5 docs2) = [docs; docs2] ∧
    join_contents docs = inr context ∧
    NoDup (QueryResponse.sources resp) ∧
    ∀ s, s ∈ QueryResponse.sources resp ↔
         ∃ doc, doc ∈ docs2 ∧ source_or_unknown doc = Some s.
Proof.
  intros Hrun question answer sid.
  destruct (query_rag_endpoint_inr P _ _ _ _ Hrun)
    as (fresh & e1 & history_rows & recalled & query & e2 & docs & context
        & e3 & e4 & e5 & docs2 & srcs & Hfresh & _ & Hctx & Hsrcs & Hresp
        & Hcalls & _).
  exists fresh, e1, history_rows, recalled, query, e2, docs, context,
    e3, e4, e5, docs2.
  split; [exact Hcalls|]. split.
  { unfold query_log, match_documents_data. rewrite omap_app.
    destruct (QueryRequest.conversation_id request);
      destruct Hfresh as [_ ->]; done. }
  split; [exact Hctx|].
  exact (response_sources _ _ _ _ _ Hsrcs Hresp).
Qed.

Lemma query_sources_from_second_retrieval_witness :
  ∃ fresh e1 history_rows recalled query e2 docs context e3 e4 e5 docs2,
    let log :=
      query_log fresh
        (str_uuid (QueryResponse.conversation_id fixtures.response2))
        "Is it open source?" e1 history_rows recalled query e2
        docs context (QueryResponse.answer fixtures.response2) e3 e4 e5 docs2 in
    calls fixtures.w2 = calls fixtures.w1 ++ log ∧
    match_documents_data log = [docs; docs2] ∧
    join_contents docs = inr context ∧
    NoDup (QueryResponse.sources fixtures.response2) ∧
    ∀ s, s ∈ QueryResponse.sources fixtures.response2 ↔
         ∃ doc, doc ∈ docs2 ∧ source_or_unknown doc = Some s.
Proof.
  apply (query_sources_from_second_retrieval fake.echo fixtures.follow_up
           fixtures.w1 fixtures.response2 fixtures.w2).
  vm_compute. reflexivity.
Defined.

(** ** The chain *)



(** C2 (as the specification states it, refuted): with no recalled history
    the question embedded for retrieval need not be the original one.  The
    chain hands the question to the LLM and retrieves on whatever comes
    back. *)
Lemma empty_history_question_not_passed_through :
  ¬ (∀ (P : ports nat) input w answer w' new,
       rag_chain P input [] w = (inr answer, w') →
       calls w' = calls w ++ new →
       embedded_texts new = [input]).
Proof.
  intros Hclaim.
  specialize (Hclaim fake.rewriting "What is Supabase?" fake.w0
                "Supabase is an open-source Firebase alternative."
                fixtures.rewritten.2 (calls fixtures.rewritten.2)).
  assert (embedded_texts (calls fixtures.rewritten.2)
            = ["Standalone question: What is Supabase?"]) as Hactual
    by (vm_compute; reflexivity).
  rewrite Hclaim in Hactual; [discriminate Hactual| |]; vm_compute; reflexivity.
Qed.

(** C2 (amended): with no recalled history the LLM is still called, on the
    reformulation instruction followed by the original question and no
    history message, and the text it returns is the one embedded for
    document retrieval: it is the original question exactly when the LLM
    returns the question unchanged. *)
Theorem empty_history_question_is_llm_output {vec : Type} (P : ports vec)
    input (w : world vec) answer w' :
  rag_chain P input [] w = (inr answer, w') →
  ∃ query e docs context,
    llm_client_invoke P w
      [SystemMessage contextualize_q_system_prompt; HumanMessage input] = inr query ∧
    calls w' = calls w ++
      [EvLLM [SystemMessage contextualize_q_system_prompt; HumanMessage input] query;
       EvEmbedQuery query e;
       EvMatchDocuments e 5 docs;
       EvLLM (qa_prompt context input []) answer] ∧
    (query = input ↔
     llm_client_invoke P w
       [SystemMessage contextualize_q_system_prompt; HumanMessage input] = inr input).
Proof.
  intros Hrun.
  apply rag_chain_inr in Hrun as (query & e & docs & context & Hllm & _ & ->).
  exists query, e, docs, context.
  change (contextualize_q_prompt input [])
    with [SystemMessage contextualize_q_system_prompt; HumanMessage input] in *.
  split; [exact Hllm|]. split.
  - simpl. by rewrite <- !app_assoc.
  - rewrite Hllm. split; [by intros ->|by intros [= ->]].
Qed.

Lemma empty_history_question_is_llm_output_witness :
  ∃ query e docs context,
    llm_client_invoke fake.echo fake.w0
      [SystemMessage contextualize_q_system_prompt; HumanMessage "What is Supabase?"]
      = inr query ∧
    calls fixtures.echoed.2 = calls fake.w0 ++
      [EvLLM [SystemMessage contextualize_q_system_prompt;
              HumanMessage "What is Supabase?"] query;
       EvEmbedQuery query e;
       EvMatchDocuments e 5 docs;
       EvLLM (qa_prompt context "What is Supabase?" [])
         "Supabase is an open-source Firebase alternative."] ∧
    (query = "What is Supabase?" ↔
     llm_client_invoke fake.echo fake.w0
       [SystemMessage contextualize_q_system_prompt; HumanMessage "What is Supabase?"]
       = inr "What is Supabase?").
Proof.
  apply (empty_history_question_is_llm_output fake.echo "What is Supabase?" fake.w0
           "Supabase is an open-source Firebase alternative." fixtures.echoed.2).
  vm_compute. reflexivity.
Defined.

(** ** Rows of unexpected shape *)

(** C4 (as the specification states it, refuted): a row can lack a source
    field because it has no metadata at all, and then the sources step,
    which indexes [doc["metadata"]] before it asks for [source] with a
    default, raises [KeyError]: no ["Unknown"] is substituted and no
    response is built. *)
Lemma row_without_metadata_fails_the_sources :
  ¬ (∀ (data : list row) answer cid,
       Forall (λ doc, lacks_source doc ∨ has_text_source doc) data →
       ∃ srcs resp,
         derive_sources data = inr srcs ∧
         new_QueryResponse answer srcs cid = inr resp ∧
         ∀ doc, doc ∈ data → lacks_source doc →
                "Unknown" ∈ QueryResponse.sources resp).
Proof.
  intros Hclaim.
  destruct (Hclaim [fixtures.bare_chunk] "answer" 1) as (srcs & resp & Hsrcs & _).
  - constructor; [|constructor]. left. vm_compute. exact I.
  - vm_compute in Hsrcs. discriminate Hsrcs.
Qed.

(** C4 (amended): a returned row whose metadata is a dictionary without
    [source] contributes ["Unknown"] to the sources and raises nothing.
    From rows that each carry a metadata dictionary with [source] absent or
    a text, the sources are derived and the response is built; and the
    step fails on every answer of the Document Store that holds a row of
    another shape: one with no metadata dictionary (none, null, a text), or
    one whose [source] is present and not a text (null, a dictionary). *)
Theorem missing_source_defaults_to_unknown (data : list row) answer cid :
  (Forall sourced data →
   ∃ srcs resp,
     derive_sources data = inr srcs ∧
     new_QueryResponse answer srcs cid = inr resp ∧
     ∀ doc metadata,
       doc ∈ data → doc !! "metadata" = Some (VDict metadata) →
       metadata !! "source" = None →
       metadata_source "Unknown" doc = inr (VStr "Unknown") ∧
       "Unknown" ∈ QueryResponse.sources resp) ∧
  (∀ e, derive_sources data ≫= (λ srcs, new_QueryResponse answer srcs cid) = inl e →
        ∃ doc, doc ∈ data ∧ ¬ sourced doc) ∧
  (∀ doc, doc ∈ data → ¬ sourced doc →
          ∃ e, derive_sources data ≫= (λ srcs, new_QueryResponse answer srcs cid)
               = inl e).
Proof.
  assert (Forall sourced data →
          ∃ srcs resp,
            derive_sources data = inr srcs ∧
            new_QueryResponse answer srcs cid = inr resp ∧
            ∀ doc metadata,
              doc ∈ data → doc !! "metadata" = Some (VDict metadata) →
              metadata !! "source" = None →
              metadata_source "Unknown" doc = inr (VStr "Unknown") ∧
              "Unknown" ∈ QueryResponse.sources resp) as Hok.
  { intros Hall.
    destruct (response_sources_total data answer cid Hall) as (srcs & resp & Hs & Hr).
    exists srcs, resp. split; [done|]. split; [done|].
    intros doc metadata Hdoc Hm Hnone.
    destruct (metadata_source_missing doc metadata Hm Hnone) as [Hraw Hunknown].
    split; [done|].
    apply (response_sources _ _ _ _ _ Hs Hr). eauto. }
  split; [exact Hok|]. split.
  - intros e Hfail.
    destruct (decide (Forall (λ doc, is_Some (source_or_unknown doc)) data))
      as [Hall|Hnot].
    + eapply Forall_impl in Hall; [|intros doc; apply sourced_source_or_unknown].
      destruct (Hok Hall) as (srcs & resp & Hs & Hr & _).
      rewrite Hs in Hfail. simpl in Hfail. rewrite Hr in Hfail. done.
    + apply not_Forall_Exists in Hnot; [|apply _].
      apply Exists_exists in Hnot as (doc & Hdoc & Hbad).
      exists doc. split; [done|]. by rewrite sourced_source_or_unknown.
  - intros doc Hdoc Hbad.
    destruct (derive_sources data) as [e|srcs] eqn:Hs; [by exists e|]. simpl.
    destruct (new_QueryResponse answer srcs cid) as [e|resp] eqn:Hr; [by exists e|].
    pose proof (response_sources_sourced _ _ _ _ _ Hs Hr) as Hall.
    rewrite Forall_forall in Hall. destruct (Hbad (Hall doc Hdoc)).
Qed.

Lemma missing_source_defaults_to_unknown_witness :
  ∃ srcs resp,
    derive_sources fake.documents = inr srcs ∧
    new_QueryResponse "answer" srcs 1 = inr resp ∧
    ∀ doc metadata,
      doc ∈ fake.documents → doc !! "metadata" = Some (VDict metadata) →
      metadata !! "source" = None →
      metadata_source "Unknown" doc = inr (VStr "Unknown") ∧
      "Unknown" ∈ QueryResponse.sources resp.
Proof.
  apply (proj1 (missing_source_defaults_to_unknown fake.documents "answer" 1)).
  repeat constructor; apply sourced_source_or_unknown; vm_compute; eauto.
Defined.

(** C10: the messages recalled are the [human] and [ai] rows of the History
    Store's answer, each turned into the message of its role, in the order
    of the answer; a row of any other [message_type] (another text, null,
    a dictionary) yields no message and no error.  Recall succeeds on every
    answer whose rows have a [message_type] and, when that is [human] or
    [ai], a text [content]. *)
Theorem recall_omits_unrecognized_rows {vec : Type} (P : ports vec)
    sid question (w : world vec) :
  (∀ msgs w',
     get_relevant_history P sid question w = (inr msgs, w') →
     ∃ e data,
       calls w' = calls w ++
                  [EvEmbedQuery question e; EvMatchChatHistory e sid 4 data] ∧
       msgs = omap recalled_message data) ∧
  (∀ e data,
     embeddings_model_embed_query P w question = inr e →
     supabase_rpc_match_chat_history P (log (EvEmbedQuery question e) w) e sid 4
       = inr data →
     Forall recallable data →
     (get_relevant_history P sid question w).1 = inr (omap recalled_message data)) ∧
  (∀ doc v,
     doc !! "message_type" = Some v → v ≠ VStr "human" → v ≠ VStr "ai" →
     recall_row doc = inr None ∧ recalled_message doc = None).
Proof.
  split; [|split].
  - intros msgs w' Hrun.
    apply get_relevant_history_inr in Hrun as (e & data & -> & Hloop).
    exists e, data. split; [simpl; by rewrite <- !app_assoc|].
    by apply recall_loop_inr in Hloop.
  - intros e data He Hd Hall.
    unfold get_relevant_history, mbind, M_bind, embed_query. rewrite He.
    unfold rpc_match_chat_history. rewrite Hd.
    destruct data as [|doc rest]; [done|].
    change (recall_loop (doc :: rest) [] = inr (omap recalled_message (doc :: rest))).
    by rewrite (recall_loop_recallable _ _ Hall).
  - apply recall_row_unrecognized.
Qed.

Lemma recall_omits_unrecognized_rows_witness :
  (get_relevant_history (fake.recalling fixtures.history_rows)
     "00000000-0000-4000-8000-000000000000" "What was my last question?" fake.w0).1
  = inr [HumanMessage "This was my previous question.";
         AIMessage "This was the AI's answer."].
Proof.
  apply (proj1 (proj2 (recall_omits_unrecognized_rows
                         (fake.recalling fixtures.history_rows)
                         "00000000-0000-4000-8000-000000000000"
                         "What was my last question?" fake.w0))
           26%nat fixtures.history_rows).
  - vm_compute. reflexivity.
  - vm_compute. reflexivity.
  - repeat constructor; eexists; (split; [vm_compute; reflexivity|]);
      intros [Hmt|Hmt]; try discriminate Hmt; eexists; vm_compute; reflexivity.
Defined.

(** ** The evaluation harness *)

Lemma precision_over_3 {F : Type} (A : arithmetic F) (num : Z) :
  precision A num k = PyFloat (py_truediv A (PyInt num) 3).
Proof. reflexivity. Qed.

Lemma count_relevant_no_duplicates (retrieved expected : list string) :
  NoDup retrieved →
  count_relevant retrieved expected
  = Z.of_nat (size (list_to_set retrieved ∩ list_to_set expected : gset string)).
Proof.
  intros Hnd. unfold count_relevant. f_equal.
  rewrite <- (size_list_to_set (C := gset string)) by by apply NoDup_filter.
  f_equal. apply set_eq. intros x.
  rewrite elem_of_intersection, !elem_of_list_to_set, list_elem_of_filter.
  tauto.
Qed.

(** The count the code makes, chunk by chunk, against the count by
    expected source. *)

Lemma sum_list_fmap_add {A : Type} (f g : A → nat) (l : list A) :
  sum_list ((λ x, f x + g x)%nat <$> l) = (sum_list (f <$> l) + sum_list (g <$> l))%nat.
Proof. induction l as [|x l IH]; csimpl; [done|]. rewrite IH. lia. Qed.

Lemma sum_list_indicator (x : string) (l : list string) :
  NoDup l →
  sum_list ((λ s, if decide (x = s) then 1 else 0)%nat <$> l)
  = if decide (x ∈ l) then 1%nat else 0%nat.
Proof.
  induction 1 as [|y l Hy _ IH]; csimpl.
  - destruct (decide (x ∈ [])) as [Hin|_]; [by apply elem_of_nil in Hin|done].
  - rewrite IH. destruct (decide (x = y)) as [->|Hne].
    + rewrite (decide_False (P := y ∈ l)) by done.
      rewrite (decide_True (P := y ∈ y :: l)) by (apply elem_of_cons; by left). done.
    + destruct (decide (x ∈ l)) as [Hin|Hout].
      * rewrite (decide_True (P := x ∈ y :: l)) by (apply elem_of_cons; by right). done.
      * rewrite (decide_False (P := x ∈ y :: l)); [done|].
        rewrite elem_of_cons. tauto.
Qed.

Lemma chunks_credited_nil (expected : list string) : chunks_credited [] expected = 0%nat.
Proof.
  unfold chunks_credited. induction (remove_dups expected) as [|s l IH]; [done|].
  rewrite fmap_cons. cbn [sum_list_with]. by rewrite IH.
Qed.

Lemma chunks_credited_cons (name : string) (retrieved expected : list string) :
  chunks_credited (name :: retrieved) expected
  = ((if decide (name ∈ expected) then 1 else 0) + chunks_credited retrieved expected)%nat.
Proof.
  unfold chunks_credited.
  rewrite (list_fmap_ext _
             (λ s, (if decide (name = s) then 1 else 0)
                   + length (filter (λ name', name' = s) retrieved))%nat).
  - rewrite sum_list_fmap_add, sum_list_indicator by apply NoDup_remove_dups.
    f_equal. destruct (decide (name ∈ remove_dups expected)) as [Hin|Hout];
      rewrite elem_of_remove_dups in *.
    + by rewrite decide_True.
    + by rewrite decide_False.
  - intros _ s _. rewrite filter_cons. by destruct (decide (name = s)).
Qed.

(** The count the code makes is the number of chunks credited. *)
Lemma count_relevant_chunks_credited (retrieved expected : list string) :
  count_relevant retrieved expected = Z.of_nat (chunks_credited retrieved expected).
Proof.
  unfold count_relevant. f_equal.
  induction retrieved as [|name retrieved IH].
  - by rewrite chunks_credited_nil.
  - rewrite chunks_credited_cons, filter_cons.
    destruct (decide (name ∈ expected)); simpl; by rewrite IH.
Qed.

Lemma chunks_credited_le (retrieved expected : list string) :
  (chunks_credited retrieved expected ≤ length retrieved)%nat.
Proof.
  induction retrieved as [|name retrieved IH].
  - by rewrite chunks_credited_nil.
  - rewrite chunks_credited_cons. simpl. destruct (decide _); lia.
Qed.

Lemma chunks_credited_none (retrieved expected : list string) :
  chunks_credited retrieved expected = 0%nat ↔ Forall (λ name, name ∉ expected) retrieved.
Proof.
  induction retrieved as [|name retrieved IH].
  - rewrite chunks_credited_nil. split; [constructor|done].
  - rewrite chunks_credited_cons, Forall_cons, <- IH.
    destruct (decide (name ∈ expected)); simpl; split; try tauto; lia.
Qed.

Lemma evaluate_query_inr {vec F : Type} (P : ports vec) (A : arithmetic F)
    i q (w : world vec) r w' :
  evaluate_query P A i q w = (inr r, w') →
  ∃ e data,
    w' = log (EvMatchDocuments e 5 data)
           (log (EvEmbedQuery (EvalQuery.question q) e) w) ∧
    EvalResult.query_id r = Z.of_nat i + 1 ∧
    scored A q data r.
Proof.
  unfold evaluate_query. intros H.
  apply bind_inr in H as (data & w1 & Hd & H).
  apply get_retrieved_documents_inr in Hd as (e & _ & ->).
  apply bind_inr in H as (retrieved & w2 & Hr & H).
  apply lift_inr in Hr as [Hr ->].
  apply ret_inr in H as [-> ->].
  exists e, data. split; [done|]. split; [done|].
  unfold scored. simpl. rewrite precision_over_3, count_relevant_chunks_credited.
  done.
Qed.

Lemma evaluate_loop_inr {vec F : Type} (P : ports vec) (A : arithmetic F) queries :
  ∀ i acc (w : world vec) results w',
    evaluate_loop P A i queries acc w = (inr results, w') →
    ∃ new datas evs,
      results = acc ++ new ∧
      calls w' = calls w ++ evs ∧
      match_documents_data evs = datas ∧
      embedded_texts evs = EvalQuery.question <$> queries ∧
      Forall3 (scored A) queries datas new ∧
      Forall retrieval_event evs.
Proof.
  induction queries as [|q rest IH]; intros i acc w results w' H; simpl in H.
  - injection H as <- <-. exists [], [], []. rewrite !app_nil_r.
    repeat split; constructor.
  - apply bind_inr in H as (r & w1 & Hq & H).
    apply evaluate_query_inr in Hq as (e & data & -> & _ & Hscored).
    apply IH in H as (new & datas & evs & -> & Hcalls & Hdatas & Htexts & Hall & Hev).
    exists (r :: new), (data :: datas),
      ([EvEmbedQuery (EvalQuery.question q) e; EvMatchDocuments e 5 data] ++ evs).
    split; [by rewrite <- app_assoc|]. split.
    { rewrite Hcalls. simpl. by rewrite <- !app_assoc. }
    split; [simpl; by rewrite <- Hdatas|].
    split; [by rewrite fmap_cons, <- Htexts|].
    split; [by constructor|].
    by repeat constructor.
Qed.

(** C1 (as the specification states it, refuted): the precision reported
    for a query is not always the size of the set intersection over 3.
    When two retrieved chunks come from the same expected document, both
    are counted: the third query of the fixture gets 2 / 3, the float
    0.6666666666666666, where the set intersection has one element. *)
Lemma precision_counts_chunks_not_distinct_sources :
  ¬ (∀ (P : ports nat) w report w',
       evaluate_rag P ieee.arithmetic w = (inr report, w') →
       Forall (λ r, EvalResult.precision_at_k r
                    = set_precision_at_3 ieee.arithmetic
                        (EvalResult.retrieved_sources r)
                        (EvalResult.expected_sources r))
              (EvalReport.query_results report)).
Proof.
  intros Hclaim.
  assert (evaluate_rag fake.echo ieee.arithmetic fake.w0
            = (inr fixtures.report, fixtures.evaluation.2)) as Hrun
    by (vm_compute; reflexivity).
  pose proof (Forall_lookup_1 _ _ 2%nat
    (EvalResult.mk 3 "How can I perform CRUD operations on the database?"
       ["Database_Operations.pdf"]
       ["Database_Operations.pdf"; "Database_Operations.pdf";
        "Authentication_Methods.pdf"; ""]
       (PyFloat (ieee.truediv (PyInt 2) 3)))
    (Hclaim _ _ _ _ Hrun)) as Hthird.
  assert (PyFloat (ieee.truediv (PyInt 2) 3) = PyFloat (ieee.truediv (PyInt 1) 3))
    as Habsurd.
  { etransitivity; [apply Hthird|by vm_compute]. vm_compute. reflexivity. }
  apply (f_equal (λ x, Prim2SF (ieee.to_float x))) in Habsurd.
  vm_compute in Habsurd. discriminate Habsurd.
Qed.

(** C1 (amended): [GET /eval] puts each of the ten fixed questions, in
    order, to the Document Store, which is asked for 5 rows each time and
    for nothing else.  The precision
    reported for a query is a float: the quotient by the fixed divisor 3 of
    the number of retrieved chunks credited to the expected sources, a
    source that several retrieved chunks share being credited with each of
    them.  It is the size of the set intersection divided by 3 whenever no
    two retrieved chunks share a basename.  The overall value is the float
    that [sum] makes of the ten reported precisions, in the order of the
    queries, divided by 10. *)
Theorem evaluation_precision {vec F : Type} (P : ports vec) (A : arithmetic F)
    (w : world vec) report w' :
  evaluate_rag P A w = (inr report, w') →
  let results := EvalReport.query_results report in
  EvalReport.total_queries report = 10 ∧
  EvalReport.k_value report = 3 ∧
  length results = 10%nat ∧
  (∃ new, calls w' = calls w ++ new ∧
          Forall retrieval_event new ∧
          embedded_texts new = EvalQuery.question <$> eval_queries ∧
          Forall3 (scored A) eval_queries (match_documents_data new) results) ∧
  Forall (λ r, NoDup (EvalResult.retrieved_sources r) →
               EvalResult.precision_at_k r
               = set_precision_at_3 A (EvalResult.retrieved_sources r)
                   (EvalResult.expected_sources r)) results ∧
  EvalReport.overall_average_precision_at_k report
  = PyFloat (py_truediv A (py_sum A (EvalResult.precision_at_k <$> results)) 10).
Proof.
  unfold evaluate_rag. intros H.
  apply bind_inr in H as (results & w1 & Hloop & H).
  apply ret_inr in H as [-> ->].
  apply evaluate_loop_inr in Hloop
    as (new & datas & evs & Hres & Hcalls & Hdatas & Htexts & Hall & Hev).
  simpl in Hres. subst new datas. cbn [EvalReport.query_results
    EvalReport.total_queries EvalReport.k_value
    EvalReport.overall_average_precision_at_k].
  pose proof (Forall3_length_lr _ _ _ _ Hall) as Hlen.
  split; [done|]. split; [done|].
  split; [by rewrite <- Hlen|].
  split; [by exists evs|].
  split.
  - clear Hcalls Htexts Hlen Hev.
    induction Hall as [|q data r qs datas rs Hscored _ IH];
      constructor; [|exact IH].
    intros Hnd. destruct Hscored as (_ & _ & _ & ->).
    unfold set_precision_at_3.
    by rewrite <- count_relevant_chunks_credited, count_relevant_no_duplicates.
  - unfold overall_precision. rewrite <- Hlen.
    destruct results as [|r results]; [discriminate Hlen|]. done.
Qed.

Lemma evaluation_precision_witness :
  let results := EvalReport.query_results fixtures.report in
  EvalReport.total_queries fixtures.report = 10 ∧
  EvalReport.k_value fixtures.report = 3 ∧
  length results = 10%nat ∧
  (∃ new, calls fixtures.evaluation.2 = calls fake.w0 ++ new ∧
          Forall retrieval_event new ∧
          embedded_texts new = EvalQuery.question <$> eval_queries ∧
          Forall3 (scored ieee.arithmetic) eval_queries
            (match_documents_data new) results) ∧
  Forall (λ r, NoDup (EvalResult.retrieved_sources r) →
               EvalResult.precision_at_k r
               = set_precision_at_3 ieee.arithmetic (EvalResult.retrieved_sources r)
                   (EvalResult.expected_sources r)) results ∧
  EvalReport.overall_average_precision_at_k fixtures.report
  = PyFloat (ieee.truediv (ieee.sum (EvalResult.precision_at_k <$> results)) 10).
Proof.
  apply (evaluation_precision fake.echo ieee.arithmetic fake.w0
           fixtures.report fixtures.evaluation.2).
  vm_compute. reflexivity.
Defined.

(** ** Worked examples *)

Example basename_of_path :
  basename "documents/Storage_Management.pdf" = "Storage_Management.pdf".
Proof. reflexivity. Qed.

Example basename_without_directory : basename "doc1.pdf" = "doc1.pdf".
Proof. reflexivity. Qed.

Example basename_of_directory : basename "documents/" = "".
Proof. reflexivity. Qed.

Example str_uuid_of_fresh_id :
  str_uuid (uuid4_of_bits (2 ^ 128 - 1)) = "ffffffff-ffff-4fff-bfff-ffffffffffff".
Proof. by vm_compute. Qed.

(** The first request against the fake: the question is embedded three
    times (recall, write, sources) and each call has its own output; the
    row written holds the output of the second. *)
Example first_request_embeddings :
  embed_calls (calls fixtures.w1)
  = [ ("What is Supabase?", 18%nat);
      ("What is Supabase?", 21%nat);
      ("What is Supabase?", 24%nat);
      ("Supabase is an open-source Firebase alternative.", 57%nat);
      ("What is Supabase?", 28%nat) ] ∧
  chat_history fixtures.w1
  = [ ChatHistoryRow "00000000-0000-4000-8000-000000000000" "human"
        "What is Supabase?" 24%nat;
      ChatHistoryRow "00000000-0000-4000-8000-000000000000" "ai"
        "Supabase is an open-source Firebase alternative." 57%nat ].
Proof. by vm_compute. Qed.

(** Four chunks, two of one document, one without source: three sources. *)
Example first_request_sources :
  (list_to_set (QueryResponse.sources fixtures.response) : gset string)
  = {[ "documents/Database_Operations.pdf";
       "documents/Authentication_Methods.pdf";
       "Unknown" ]} ∧
  length (QueryResponse.sources fixtures.response) = 3%nat.
Proof. by vm_compute. Qed.

(** A chunk without any metadata is another matter than a metadata without
    source: indexing the row raises. *)
Example chunk_without_metadata :
  derive_sources [fixtures.bare_chunk] = inl (KeyError "metadata").
Proof. by vm_compute. Qed.

(** The third evaluation query against the fake: two chunks of the one
    expected document are retrieved, and both count.  The floats are
    0.6666666666666666 and 0.16666666666666666. *)
Example evaluation_third_query :
  EvalResult.precision_at_k <$> EvalReport.query_results fixtures.report !! 2%nat
  = Some (PyFloat 0x1.5555555555555p-1%float) ∧
  EvalReport.overall_average_precision_at_k fixtures.report
  = PyFloat 0x1.5555555555555p-3%float.
Proof. by vm_compute. Qed.

(** Floats round.  Five chunks of an expected document make a precision of
    5 / 3, the float 1.6666666666666667, which is above the rational 5/3.
    Six queries at 1 / 3 and four at 0 / 3, added from left to right and
    divided by 10, make 0.19999999999999998, which is not the float of
    their mean, 2 / 10 = 0.2. *)
Example floats_round :
  precision ieee.arithmetic 5 k = PyFloat 0x1.aaaaaaaaaaaabp+0%float ∧
  ieee.truediv
    (ieee.sum (replicate 6 (precision ieee.arithmetic 1 k)
               ++ replicate 4 (precision ieee.arithmetic 0 k))) 10
  = 0x1.9999999999999p-3%float ∧
  ieee.truediv (PyInt 2) 10 = 0x1.999999999999ap-3%float.
Proof. by vm_compute. Qed.

(** * More of the code *)

#[local] Set Warnings "-clear-no-such-hyp".

(** ** Runs of any outcome *)

Section outcomes.

Context {vec : Type} (P : ports vec).
Implicit Types (w : world vec).

Lemma bind_run {A B : Type} (m : M vec A) (f : A → M vec B) w r w' :
  (m ≫= f) w = (r, w') →
  (∃ e, m w = (inl e, w') ∧ r = inl e) ∨
  (∃ a w1, m w = (inr a, w1) ∧ f a w1 = (r, w')).
Proof.
  unfold mbind, M_bind. destruct (m w) as [[e|a] w1].
  - intros [= <- <-]. left. eauto.
  - intros Hf. right. eauto.
Qed.

Lemma embed_query_run text w r w' :
  embed_query P text w = (r, w') →
  (∃ e, r = inl e ∧ w' = w ∧ embeddings_model_embed_query P w text = inl e) ∨
  (∃ v, r = inr v ∧ w' = log (EvEmbedQuery text v) w
        ∧ embeddings_model_embed_query P w text = inr v).
Proof.
  unfold embed_query. destruct (embeddings_model_embed_query P w text) as [e|v];
    intros [= <- <-]; [left|right]; eauto.
Qed.

Lemma rpc_match_documents_run v n w r w' :
  rpc_match_documents P v n w = (r, w') →
  (∃ e, r = inl e ∧ w' = w ∧ supabase_rpc_match_documents P w v n = inl e) ∨
  (∃ data, r = inr data ∧ w' = log (EvMatchDocuments v n data) w
           ∧ supabase_rpc_match_documents P w v n = inr data).
Proof.
  unfold rpc_match_documents.
  destruct (supabase_rpc_match_documents P w v n) as [e|data];
    intros [= <- <-]; [left|right]; eauto.
Qed.

Lemma rpc_match_chat_history_run v sid n w r w' :
  rpc_match_chat_history P v sid n w = (r, w') →
  (∃ e, r = inl e ∧ w' = w) ∨
  (∃ data, r = inr data ∧ w' = log (EvMatchChatHistory v sid n data) w).
Proof.
  unfold rpc_match_chat_history.
  destruct (supabase_rpc_match_chat_history P w v sid n) as [e|data];
    intros [= <- <-]; [left|right]; eauto.
Qed.

Lemma table_chat_history_insert_run row w r w' :
  table_chat_history_insert P row w = (r, w') →
  (∃ e, r = inl e ∧ w' = w ∧ supabase_chat_history_insert P w row = Some e) ∨
  (r = inr () ∧ w' = log (EvInsertChatHistory row) (store row w)).
Proof.
  unfold table_chat_history_insert.
  destruct (supabase_chat_history_insert P w row) as [e|];
    intros [= <- <-]; [left|right]; eauto.
Qed.

Lemma llm_invoke_run messages w r w' :
  llm_invoke P messages w = (r, w') →
  (∃ e, r = inl e ∧ w' = w) ∨
  (∃ text, r = inr text ∧ w' = log (EvLLM messages text) w).
Proof.
  unfold llm_invoke. destruct (llm_client_invoke P w messages) as [e|text];
    intros [= <- <-]; [left|right]; eauto.
Qed.

Lemma lift_run {A : Type} (x : res A) w r w' :
  lift x w = (r, w') → r = x ∧ w' = w.
Proof. by intros [= <- <-]. Qed.

End outcomes.

(** ** Document retrieval *)

Lemma get_retrieved_documents_run {vec : Type} (P : ports vec)
    question (w : world vec) r w' :
  get_retrieved_documents P question w = (r, w') →
  chat_history w' = chat_history w ∧
  ((∃ e, r = inl e ∧ calls w' = calls w ∧
         embeddings_model_embed_query P w question = inl e) ∨
   (∃ v e, r = inl e ∧ calls w' = calls w ++ [EvEmbedQuery question v] ∧
           supabase_rpc_match_documents P (log (EvEmbedQuery question v) w) v 5
             = inl e) ∨
   (∃ v data, r = inr data ∧
              calls w' = calls w ++ [EvEmbedQuery question v;
                                     EvMatchDocuments v 5 data] ∧
              supabase_rpc_match_documents P (log (EvEmbedQuery question v) w) v 5
                = inr data)).
Proof.
  unfold get_retrieved_documents. intros H.
  apply bind_run in H as [(e & He & ->)|(v & w1 & Hv & H)].
  - apply embed_query_run in He as [(e' & [= <-] & -> & Hport)|(v & [=] & _)].
    split; [done|]. left. eauto.
  - apply embed_query_run in Hv as [(e' & [=] & _)|(v' & [= <-] & -> & _)].
    apply rpc_match_documents_run in H
      as [(e & -> & -> & Hport)|(data & -> & -> & Hport)].
    + split; [done|]. right. left. eauto.
    + split; [done|]. right. right. exists v, data.
      split; [done|]. split; [|done]. simpl. by rewrite <- app_assoc.
Qed.

(** X1: whatever its outcome, [get_retrieved_documents] leaves the
    [chat_history] table alone and calls neither the History Store nor the
    LLM.  It embeds the question; when that fails the Document Store is
    not called at all; otherwise the store is asked once, for 5 rows, with
    the embedding just obtained, and its rows are returned as they are. *)
Theorem retrieval_embeds_then_matches {vec : Type} (P : ports vec)
    question (w : world vec) r w' :
  get_retrieved_documents P question w = (r, w') →
  chat_history w' = chat_history w ∧
  ((∃ e, r = inl e ∧ calls w' = calls w ∧
         embeddings_model_embed_query P w question = inl e) ∨
   (∃ v e, r = inl e ∧ calls w' = calls w ++ [EvEmbedQuery question v] ∧
           supabase_rpc_match_documents P (log (EvEmbedQuery question v) w) v 5
             = inl e) ∨
   (∃ v data, r = inr data ∧
              calls w' = calls w ++ [EvEmbedQuery question v;
                                     EvMatchDocuments v 5 data] ∧
              supabase_rpc_match_documents P (log (EvEmbedQuery question v) w) v 5
                = inr data)).
Proof. apply get_retrieved_documents_run. Qed.

Lemma retrieval_embeds_then_matches_witness :
  chat_history (get_retrieved_documents fake.echo "What is Supabase?" fixtures.w1).2
    = chat_history fixtures.w1 ∧
  ∃ v data,
    (get_retrieved_documents fake.echo "What is Supabase?" fixtures.w1).1 = inr data ∧
    calls (get_retrieved_documents fake.echo "What is Supabase?" fixtures.w1).2
      = calls fixtures.w1 ++ [EvEmbedQuery "What is Supabase?" v;
                              EvMatchDocuments v 5 data].
Proof.
  destruct (retrieval_embeds_then_matches fake.echo "What is Supabase?" fixtures.w1
              (get_retrieved_documents fake.echo "What is Supabase?" fixtures.w1).1
              (get_retrieved_documents fake.echo "What is Supabase?" fixtures.w1).2)
    as [Htable [(e & He & _)|[(v & e & He & _)|(v & data & Hr & Hcalls & _)]]].
  - vm_compute. reflexivity.
  - vm_compute in He. discriminate He.
  - vm_compute in He. discriminate He.
  - split; [exact Htable|]. exists v, data. split; [exact Hr|exact Hcalls].
Defined.

Lemma omap_length_le {A B : Type} (f : A → option B) (l : list A) :
  (length (omap f l) ≤ length l)%nat.
Proof.
  induction l as [|x l IH]; csimpl; [done|]. destruct (f x); simpl; lia.
Qed.

(** ** Writing one message *)

Lemma add_message_to_history_run {vec : Type} (P : ports vec)
    sid message_type content (w : world vec) r w' :
  add_message_to_history P sid message_type content w = (r, w') →
  (∃ e, r = inl e ∧ chat_history w' = chat_history w ∧
        ((calls w' = calls w ∧
          embeddings_model_embed_query P w content = inl e) ∨
         ∃ v, calls w' = calls w ++ [EvEmbedQuery content v])) ∨
  (∃ v, r = inr () ∧
        chat_history w' = chat_history w ++ [ChatHistoryRow sid message_type content v] ∧
        calls w' = calls w ++
                   [EvEmbedQuery content v;
                    EvInsertChatHistory (ChatHistoryRow sid message_type content v)]).
Proof.
  unfold add_message_to_history. intros H.
  apply bind_run in H as [(e & He & ->)|(v & w1 & Hv & H)].
  - apply embed_query_run in He as [(e' & [= <-] & -> & Hport)|(v & [=] & _)].
    left. exists e. split; [done|]. split; [done|]. by left.
  - apply embed_query_run in Hv as [(e' & [=] & _)|(v' & [= <-] & -> & _)].
    apply table_chat_history_insert_run in H as [(e & -> & -> & _)|(-> & ->)].
    + left. exists e. split; [done|]. split; [done|]. right. by exists v.
    + right. exists v. split; [done|]. split; [done|].
      simpl. by rewrite <- app_assoc.
Qed.

(** X2: [add_message_to_history] writes all or nothing.  When it succeeds
    it has embedded the content once and inserted one row holding the
    session id, the message type, the content and that embedding, and the
    table has grown by exactly that row.  When it fails, because the
    embedding or the insert failed, the table is as it was, and if the
    embedding failed the History Store was not called. *)
Theorem add_message_all_or_nothing {vec : Type} (P : ports vec)
    sid message_type content (w : world vec) r w' :
  add_message_to_history P sid message_type content w = (r, w') →
  (∃ e, r = inl e ∧ chat_history w' = chat_history w ∧
        ((calls w' = calls w ∧
          embeddings_model_embed_query P w content = inl e) ∨
         ∃ v, calls w' = calls w ++ [EvEmbedQuery content v])) ∨
  (∃ v, r = inr () ∧
        chat_history w' = chat_history w ++ [ChatHistoryRow sid message_type content v] ∧
        calls w' = calls w ++
                   [EvEmbedQuery content v;
                    EvInsertChatHistory (ChatHistoryRow sid message_type content v)]).
Proof. apply add_message_to_history_run. Qed.

Lemma add_message_all_or_nothing_witness :
  ∃ e, (add_message_to_history scenarios.read_only_history
          "00000000-0000-4000-8000-000000000000" "human" "What is Supabase?"
          fixtures.w1).1 = inl e ∧
       chat_history
         (add_message_to_history scenarios.read_only_history
            "00000000-0000-4000-8000-000000000000" "human" "What is Supabase?"
            fixtures.w1).2 = chat_history fixtures.w1.
Proof.
  destruct (add_message_all_or_nothing scenarios.read_only_history
              "00000000-0000-4000-8000-000000000000" "human" "What is Supabase?"
              fixtures.w1
              (add_message_to_history scenarios.read_only_history
                 "00000000-0000-4000-8000-000000000000" "human" "What is Supabase?"
                 fixtures.w1).1
              (add_message_to_history scenarios.read_only_history
                 "00000000-0000-4000-8000-000000000000" "human" "What is Supabase?"
                 fixtures.w1).2)
    as [(e & He & Htable & _)|(v & Hv & _)].
  - vm_compute. reflexivity.
  - exists e. split; [exact He|exact Htable].
  - vm_compute in Hv. discriminate Hv.
Defined.

(** ** Recall: where it fails *)

Lemma recall_row_inr_recallable (doc : row) (m : option message) :
  recall_row doc = inr m → recallable doc.
Proof.
  unfold recall_row, recallable, getitem.
  destruct (doc !! "message_type") as [mt|]; simpl; [|done].
  intros H. exists mt. split; [done|]. intros Hmt.
  assert (value_eq_str mt "human" = true ∨
          (value_eq_str mt "human" = false ∧ value_eq_str mt "ai" = true)) as Hcase.
  { destruct Hmt as [->| ->]; [by left|by right]. }
  destruct Hcase as [Hh|[Hh Ha]]; rewrite Hh in H; [|rewrite Ha in H];
    destruct (doc !! "content") as [[|text|d]|]; simpl in H; try done; eauto.
Qed.

Lemma recall_row_error (doc : row) (e : exn) :
  recall_row doc = inl e ↔
  (doc !! "message_type" = None ∧ e = KeyError "message_type") ∨
  (∃ mt, doc !! "message_type" = Some mt ∧ (mt = VStr "human" ∨ mt = VStr "ai") ∧
         ((doc !! "content" = None ∧ e = KeyError "content") ∨
          (∃ v, doc !! "content" = Some v ∧ (∀ text, v ≠ VStr text) ∧
                e = ValidationError "content"))).
Proof.
  unfold recall_row, getitem. split.
  - destruct (doc !! "message_type") as [mt|]; simpl;
      [|intros [= <-]; by left].
    intros H. right. exists mt. split; [done|].
    destruct (value_eq_str mt "human") eqn:Hh.
    { apply value_eq_str_true in Hh as Hmt. split; [by left|].
      destruct (doc !! "content") as [[|text|d]|]; simpl in H; try done;
        injection H as <-; [right; eexists|right; eexists|by left];
        (split; [done|]); split; done. }
    destruct (value_eq_str mt "ai") eqn:Ha; [|done].
    apply value_eq_str_true in Ha as Hmt. split; [by right|].
    destruct (doc !! "content") as [[|text|d]|]; simpl in H; try done;
      injection H as <-; [right; eexists|right; eexists|by left];
      (split; [done|]); split; done.
  - intros [[-> ->]|(mt & -> & Hmt & Hcontent)]; simpl; [done|].
    assert (value_eq_str mt "human" = true ∨
            (value_eq_str mt "human" = false ∧ value_eq_str mt "ai" = true)) as Hcase.
    { destruct Hmt as [->| ->]; [by left|by right]. }
    destruct Hcontent as [[-> ->]|(v & -> & Hv & ->)];
      destruct Hcase as [->|[-> ->]]; simpl; try done;
      destruct v as [|text|d]; simpl; try done; by destruct (Hv text).
Qed.

(** X3: on rows whose fields are texts, nulls or dictionaries, the recall
    loop fails exactly when some returned row is ill shaped, and then with
    the error of the first such row, the rows before it having been read
    without error.  A row is ill shaped in three ways: it has no
    [message_type] ([KeyError]), or it is a [human] or [ai] row with no
    [content] ([KeyError]), or with a [content] that is null or a
    dictionary (the message constructor rejects both). *)
Theorem recall_fails_at_first_ill_shaped_row (data : list row) (e : exn) :
  (recall_loop data [] = inl e ↔
   ∃ before doc after,
     data = before ++ doc :: after ∧ Forall recallable before ∧
     recall_row doc = inl e) ∧
  (∀ doc,
     recall_row doc = inl e ↔
     (doc !! "message_type" = None ∧ e = KeyError "message_type") ∨
     (∃ mt, doc !! "message_type" = Some mt ∧ (mt = VStr "human" ∨ mt = VStr "ai") ∧
            ((doc !! "content" = None ∧ e = KeyError "content") ∨
             ((doc !! "content" = Some VNone ∨ ∃ d, doc !! "content" = Some (VDict d)) ∧
              e = ValidationError "content")))).
Proof.
  split.
  2: { intros doc. rewrite recall_row_error.
       apply or_iff_compat_l. apply exist_proper. intros mt.
       do 2 apply and_iff_compat_l. apply or_iff_compat_l. split.
       - intros (v & Hv & Hbad & ->). split; [|done].
         destruct v as [|text|d]; [by left|by destruct (Hbad text)|right; by exists d].
       - intros [[Hv|[d Hv]] ->]; eexists; (split; [exact Hv|]); by split. }
  generalize (@nil message). induction data as [|doc rest IH]; intros acc.
  - split; [done|]. intros (before & d & after & Heq & _). by destruct before.
  - change (recall_loop (doc :: rest) acc)
      with (recall_row doc ≫= λ m,
              recall_loop rest
                (match m with Some msg => acc ++ [msg] | None => acc end)).
    destruct (recall_row doc) as [e'|m] eqn:Hrow.
    + split.
      * intros [= ->]. exists [], doc, rest. split; [done|]. split; [constructor|done].
      * intros (before & d & after & Heq & Hbefore & Hd).
        destruct before as [|b before].
        -- injection Heq as <- <-. simpl. congruence.
        -- injection Heq as <- ->. apply Forall_cons in Hbefore as [Hb _].
           apply recall_row_recallable in Hb. congruence.
    + change (inr m ≫= λ m0,
                recall_loop rest
                  (match m0 with Some msg => acc ++ [msg] | None => acc end))
        with (recall_loop rest
                (match m with Some msg => acc ++ [msg] | None => acc end)).
      rewrite IH. split.
      * intros (before & d & after & -> & Hbefore & Hd).
        exists (doc :: before), d, after. split; [done|].
        split; [|done]. constructor; [|done]. by eapply recall_row_inr_recallable.
      * intros (before & d & after & Heq & Hbefore & Hd).
        destruct before as [|b before].
        -- injection Heq as <- <-. congruence.
        -- injection Heq as <- ->. apply Forall_cons in Hbefore as [_ Hbefore].
           by exists before, d, after.
Qed.

Lemma recall_fails_at_first_ill_shaped_row_witness :
  recall_loop
    [ {[ "content" := VStr "This was my previous question.";
         "message_type" := VStr "human" ]};
      {[ "message_type" := VStr "ai" ]};
      {[ "content" := VStr "never read" ]} ] []
  = inl (KeyError "content").
Proof.
  apply (proj1 (recall_fails_at_first_ill_shaped_row _ (KeyError "content"))).
  exists [ {[ "content" := VStr "This was my previous question.";
              "message_type" := VStr "human" ]} ],
    ({[ "message_type" := VStr "ai" ]} : row),
    [ ({[ "content" := VStr "never read" ]} : row) ].
  split; [reflexivity|]. split; [|vm_compute; reflexivity].
  repeat constructor. eexists. split; [vm_compute; reflexivity|].
  intros _. eexists. vm_compute. reflexivity.
Defined.

(** ** Recall: what it touches *)

Lemma get_relevant_history_run {vec : Type} (P : ports vec)
    sid question (w : world vec) r w' :
  get_relevant_history P sid question w = (r, w') →
  chat_history w' = chat_history w ∧
  ∃ new,
    calls w' = calls w ++ new ∧
    inserted_rows new = [] ∧ llm_prompts new = [] ∧ match_documents_data new = [] ∧
    ((∃ e, r = inl e ∧ (new = [] ∨ ∃ v, new = [EvEmbedQuery question v])) ∨
     (∃ v data,
        new = [EvEmbedQuery question v; EvMatchChatHistory v sid 4 data] ∧
        r = recall_loop data [] ∧
        ∀ msgs, r = inr msgs → (length msgs ≤ length data)%nat)).
Proof.
  unfold get_relevant_history. intros H.
  apply bind_run in H as [(e & He & ->)|(v & w1 & Hv & H)].
  { apply embed_query_run in He as [(e' & [= <-] & -> & _)|(v & [=] & _)].
    split; [done|]. exists []. rewrite app_nil_r. repeat (split; [done|]).
    left. exists e. split; [done|]. by left. }
  apply embed_query_run in Hv as [(e' & [=] & _)|(v' & [= <-] & -> & _)].
  apply bind_run in H as [(e & He & ->)|(data & w2 & Hd & H)].
  { apply rpc_match_chat_history_run in He as [(e' & [= <-] & ->)|(data & [=] & _)].
    split; [done|]. exists [EvEmbedQuery question v]. repeat (split; [done|]).
    left. exists e. split; [done|]. right. by exists v. }
  apply rpc_match_chat_history_run in Hd as [(e' & [=] & _)|(data' & [= <-] & ->)].
  assert (r = recall_loop data [] ∧
          w' = log (EvMatchChatHistory v sid 4 data) (log (EvEmbedQuery question v) w))
    as [-> ->].
  { destruct data as [|doc rest].
    - by injection H as <- <-.
    - by apply lift_run in H as [-> ->]. }
  split; [done|].
  exists [EvEmbedQuery question v; EvMatchChatHistory v sid 4 data].
  split; [simpl; by rewrite <- app_assoc|]. repeat (split; [done|]).
  right. exists v, data. split; [done|]. split; [done|].
  intros msgs Hmsgs. apply recall_loop_inr in Hmsgs as ->. apply omap_length_le.
Qed.

(** X4: whatever its outcome, [get_relevant_history] writes nothing: the
    table is unchanged and no insert, LLM call or document match is made.
    It embeds the question and then asks the History Store once, for 4
    rows of the given session; the store is not asked when the embedding
    failed.  Its result is that of the loop over the rows returned, and
    the messages recalled are never more than the rows returned. *)
Theorem recall_reads_only {vec : Type} (P : ports vec)
    sid question (w : world vec) r w' :
  get_relevant_history P sid question w = (r, w') →
  chat_history w' = chat_history w ∧
  ∃ new,
    calls w' = calls w ++ new ∧
    inserted_rows new = [] ∧ llm_prompts new = [] ∧ match_documents_data new = [] ∧
    ((∃ e, r = inl e ∧ (new = [] ∨ ∃ v, new = [EvEmbedQuery question v])) ∨
     (∃ v data,
        new = [EvEmbedQuery question v; EvMatchChatHistory v sid 4 data] ∧
        r = recall_loop data [] ∧
        ∀ msgs, r = inr msgs → (length msgs ≤ length data)%nat)).
Proof. apply get_relevant_history_run. Qed.

Lemma recall_reads_only_witness :
  chat_history
    (get_relevant_history fake.echo "00000000-0000-4000-8000-000000000000"
       "Is it open source?" fixtures.w1).2 = chat_history fixtures.w1 ∧
  ∃ new,
    calls (get_relevant_history fake.echo "00000000-0000-4000-8000-000000000000"
             "Is it open source?" fixtures.w1).2 = calls fixtures.w1 ++ new ∧
    inserted_rows new = [] ∧ llm_prompts new = [] ∧ match_documents_data new = [].
Proof.
  destruct (recall_reads_only fake.echo "00000000-0000-4000-8000-000000000000"
              "Is it open source?" fixtures.w1
              (get_relevant_history fake.echo "00000000-0000-4000-8000-000000000000"
                 "Is it open source?" fixtures.w1).1
              (get_relevant_history fake.echo "00000000-0000-4000-8000-000000000000"
                 "Is it open source?" fixtures.w1).2)
    as (Htable & new & Hcalls & Hrows & Hllm & Hdocs & _).
  - vm_compute. reflexivity.
  - split; [exact Htable|]. exists new. repeat split; assumption.
Defined.

(** ** The chain: order of its calls *)

Lemma rag_chain_run {vec : Type} (P : ports vec)
    input history (w : world vec) r w' :
  rag_chain P input history w = (r, w') →
  chat_history w' = chat_history w ∧
  ∃ new,
    calls w' = calls w ++ new ∧
    inserted_rows new = [] ∧ history_store_ids new = [] ∧
    match r with
    | inr answer =>
        ∃ query v docs context,
          join_contents docs = inr context ∧
          new = [EvLLM (contextualize_q_prompt input history) query;
                 EvEmbedQuery query v;
                 EvMatchDocuments v 5 docs;
                 EvLLM (qa_prompt context input history) answer]
    | inl e =>
        new = [] ∨
        ∃ query,
          new = [EvLLM (contextualize_q_prompt input history) query] ∨
          ∃ v,
            new = [EvLLM (contextualize_q_prompt input history) query;
                   EvEmbedQuery query v] ∨
            ∃ docs,
              new = [EvLLM (contextualize_q_prompt input history) query;
                     EvEmbedQuery query v;
                     EvMatchDocuments v 5 docs] ∧
              (join_contents docs = inl e ∨ ∃ context, join_contents docs = inr context)
    end.
Proof.
  unfold rag_chain, history_aware_rephraser. intros H.
  apply bind_run in H as [(e & He & ->)|(query & w1 & Hq & H)].
  { apply llm_invoke_run in He as [(e' & [= <-] & ->)|(t & [=] & _)].
    split; [done|]. exists []. rewrite app_nil_r. repeat (split; [done|]). by left. }
  apply llm_invoke_run in Hq as [(e' & [=] & _)|(t & [= <-] & ->)].
  apply bind_run in H as [(e & He & ->)|(docs & w2 & Hd & H)].
  { apply get_retrieved_documents_run in He
      as [Htable [(e' & [= <-] & Hcalls & _)|[(v & e' & [= <-] & Hcalls & _)
                                             |(v & data & [=] & _)]]].
    - split; [done|]. eexists. split; [exact Hcalls|]. simpl.
      repeat (split; [done|]). right. exists query. by left.
    - split; [done|]. eexists. split; [rewrite Hcalls; simpl; by rewrite <- app_assoc|].
      repeat (split; [done|]). right. exists query. right. exists v. by left. }
  apply get_retrieved_documents_inr in Hd as (v & _ & ->).
  apply bind_run in H as [(e & He & ->)|(context & w3 & Hc & H)].
  { apply lift_run in He as [He ->]. split; [done|].
    eexists. split; [simpl; by rewrite <- !app_assoc|].
    repeat (split; [done|]). right. exists query. right. exists v. right.
    exists docs. split; [done|]. by left. }
  apply lift_run in Hc as [Hc ->].
  apply llm_invoke_run in H as [(e & -> & ->)|(answer & -> & ->)].
  - split; [done|]. eexists. split; [simpl; by rewrite <- !app_assoc|].
    repeat (split; [done|]). right. exists query. right. exists v. right.
    exists docs. split; [done|]. right. by exists context.
  - split; [done|]. eexists. split; [simpl; by rewrite <- !app_assoc|].
    repeat (split; [done|]). by exists query, v, docs, context.
Qed.

(** X5: whatever its outcome, the chain never touches the History Store
    and leaves the table unchanged.  Its calls come in one order:
    reformulation by the LLM, embedding of the reformulated question,
    document match, answering LLM.  A failure stops it where it happens:
    nothing is embedded unless the reformulation returned, the store is not
    asked unless the embedding returned, and the answering LLM is called
    only on a context joined from the rows the store returned. *)
Theorem chain_calls_in_order {vec : Type} (P : ports vec)
    input history (w : world vec) r w' :
  rag_chain P input history w = (r, w') →
  chat_history w' = chat_history w ∧
  ∃ new,
    calls w' = calls w ++ new ∧
    inserted_rows new = [] ∧ history_store_ids new = [] ∧
    match r with
    | inr answer =>
        ∃ query v docs context,
          join_contents docs = inr context ∧
          new = [EvLLM (contextualize_q_prompt input history) query;
                 EvEmbedQuery query v;
                 EvMatchDocuments v 5 docs;
                 EvLLM (qa_prompt context input history) answer]
    | inl e =>
        new = [] ∨
        ∃ query,
          new = [EvLLM (contextualize_q_prompt input history) query] ∨
          ∃ v,
            new = [EvLLM (contextualize_q_prompt input history) query;
                   EvEmbedQuery query v] ∨
            ∃ docs,
              new = [EvLLM (contextualize_q_prompt input history) query;
                     EvEmbedQuery query v;
                     EvMatchDocuments v 5 docs] ∧
              (join_contents docs = inl e ∨ ∃ context, join_contents docs = inr context)
    end.
Proof. apply rag_chain_run. Qed.

Lemma chain_calls_in_order_witness :
  chat_history (rag_chain scenarios.llm_down "What is Supabase?" [] fixtures.w1).2
    = chat_history fixtures.w1 ∧
  calls (rag_chain scenarios.llm_down "What is Supabase?" [] fixtures.w1).2
    = calls fixtures.w1.
Proof.
  destruct (chain_calls_in_order scenarios.llm_down "What is Supabase?" []
              fixtures.w1
              (rag_chain scenarios.llm_down "What is Supabase?" [] fixtures.w1).1
              (rag_chain scenarios.llm_down "What is Supabase?" [] fixtures.w1).2)
    as (Htable & new & Hcalls & _).
  - vm_compute. reflexivity.
  - split; [exact Htable|]. vm_compute. reflexivity.
Defined.

(** ** A request, whatever its outcome *)

Section endpoint_outcomes.

Context {vec : Type} (P : ports vec).
Implicit Types (w : world vec).

Lemma resolve_conversation_id_run (supplied : option UUID) w r w' :
  match supplied with
  | Some u => mret u
  | None => uuid4 P
  end w = (r, w') →
  ∃ cid fresh,
    r = inr cid ∧
    match supplied with
    | Some u => cid = u ∧ fresh = []
    | None => cid = uuid4_of_bits (os_urandom16 P w) ∧ fresh = [EvUuid4 cid]
    end ∧
    calls w' = calls w ++ fresh ∧ chat_history w' = chat_history w ∧
    inserted_rows fresh = [].
Proof.
  destruct supplied as [u|].
  - intros [= <- <-]. exists u, []. by rewrite app_nil_r.
  - unfold uuid4. intros [= <- <-]. by eexists _, _.
Qed.

Lemma query_rag_endpoint_run request w r w' :
  query_rag_endpoint P request w = (r, w') →
  let question := QueryRequest.question request in
  ∃ cid fresh,
    match QueryRequest.conversation_id request with
    | Some u => cid = u ∧ fresh = []
    | None => cid = uuid4_of_bits (os_urandom16 P w) ∧ fresh = [EvUuid4 cid]
    end ∧
    let sid := str_uuid cid in
    (∃ e new,
       r = inl e ∧ chat_history w' = chat_history w ∧
       calls w' = calls w ++ new ∧ inserted_rows new = []) ∨
    (∃ e e1 history_rows recalled query e2 docs context answer tail,
       r = inl e ∧ chat_history w' = chat_history w ∧
       calls w' = calls w ++
                  answer_log fresh sid question e1 history_rows recalled query e2
                    docs context answer ++ tail ∧
       (tail = [] ∨ ∃ e3, tail = [EvEmbedQuery question e3])) ∨
    (∃ e e1 history_rows recalled query e2 docs context answer e3 tail,
       let human := ChatHistoryRow sid "human" question e3 in
       r = inl e ∧ chat_history w' = chat_history w ++ [human] ∧
       calls w' = calls w ++
                  answer_log fresh sid question e1 history_rows recalled query e2
                    docs context answer ++
                  [EvEmbedQuery question e3; EvInsertChatHistory human] ++ tail ∧
       (tail = [] ∨ ∃ e4, tail = [EvEmbedQuery answer e4])) ∨
    (∃ e e1 history_rows recalled query e2 docs context answer e3 e4 tail,
       r = inl e ∧
       chat_history w' = chat_history w ++
                         [ChatHistoryRow sid "human" question e3;
                          ChatHistoryRow sid "ai" answer e4] ∧
       calls w' = calls w ++
                  turn_log fresh sid question e1 history_rows recalled query e2
                    docs context answer e3 e4 ++ tail ∧
       (tail = [] ∨
        (∃ e5, tail = [EvEmbedQuery question e5]) ∨
        (∃ e5 docs2,
           tail = [EvEmbedQuery question e5; EvMatchDocuments e5 5 docs2] ∧
           derive_sources docs2 ≫= (λ srcs, new_QueryResponse answer srcs cid)
             = inl e))) ∨
    (∃ resp, r = inr resp).
Proof.
  intros H question. unfold query_rag_endpoint in H.
  apply bind_run in H as [(e & He & ->)|(cid & w1 & Hcid & H)].
  { by apply resolve_conversation_id_run in He as (? & ? & [=] & _). }
  apply resolve_conversation_id_run in Hcid
    as (cid' & fresh & [= <-] & Hfresh & Hc1 & Hh1 & Hf1).
  exists cid, fresh. split; [exact Hfresh|]. intros sid.
  fold question in H. fold sid in H.
  (* recall *)
  apply bind_run in H as [(e & He & ->)|(recalled & w2 & Hrec & H)].
  { apply get_relevant_history_run in He
      as (Htable & new & Hcalls & Hrows & _).
    left. exists e, (fresh ++ new). split; [done|]. split; [congruence|].
    split; [by rewrite Hcalls, Hc1, <- app_assoc|].
    unfold inserted_rows in *. by rewrite omap_app, Hf1, Hrows. }
  apply get_relevant_history_inr in Hrec as (e1 & history_rows & -> & Hrecall).
  (* the chain *)
  apply bind_run in H as [(e & He & ->)|(answer & w3 & Hans & H)].
  { apply rag_chain_run in He as (Htable & new & Hcalls & Hrows & _).
    left. exists e,
      (fresh ++ [EvEmbedQuery question e1;
                 EvMatchChatHistory e1 sid 4 history_rows] ++ new).
    split; [done|]. split; [by rewrite Htable|].
    split; [rewrite Hcalls; simpl; by rewrite Hc1, <- !app_assoc|].
    unfold inserted_rows in *. by rewrite !omap_app, Hf1, Hrows. }
  apply rag_chain_inr in Hans as (query & e2 & docs & context & _ & Hctx & ->).
  (* first insert *)
  apply bind_run in H as [(e & He & ->)|(u1 & w4 & Hadd1 & H)].
  { apply add_message_to_history_run in He
      as [(e' & [= <-] & Htable & Hcalls)|(v & [=] & _)].
    right. left.
    exists e, e1, history_rows, recalled, query, e2, docs, context, answer.
    destruct Hcalls as [[Hcalls _]|[e3 Hcalls]].
    - exists []. split; [done|]. split; [by rewrite Htable|].
      split; [|by left]. rewrite Hcalls. unfold answer_log. simpl.
      by rewrite Hc1, app_nil_r, <- !app_assoc.
    - exists [EvEmbedQuery question e3]. split; [done|]. split; [by rewrite Htable|].
      split; [|right; by exists e3]. rewrite Hcalls. unfold answer_log. simpl.
      by rewrite Hc1, <- !app_assoc. }
  apply add_message_to_history_inr in Hadd1 as (e3 & _ & ->).
  (* second insert *)
  apply bind_run in H as [(e & He & ->)|(u2 & w5 & Hadd2 & H)].
  { apply add_message_to_history_run in He
      as [(e' & [= <-] & Htable & Hcalls)|(v & [=] & _)].
    right. right. left.
    exists e, e1, history_rows, recalled, query, e2, docs, context, answer, e3.
    destruct Hcalls as [[Hcalls _]|[e4 Hcalls]].
    - exists []. split; [done|]. split; [by rewrite Htable; simpl; rewrite Hh1|].
      split; [|by left]. rewrite Hcalls. unfold answer_log. simpl.
      by rewrite Hc1, <- !app_assoc.
    - exists [EvEmbedQuery answer e4]. split; [done|].
      split; [by rewrite Htable; simpl; rewrite Hh1|].
      split; [|right; by exists e4]. rewrite Hcalls. unfold answer_log. simpl.
      by rewrite Hc1, <- !app_assoc. }
  apply add_message_to_history_inr in Hadd2 as (e4 & _ & ->).
  (* sources *)
  assert (∀ tail w6,
    chat_history w6 =
      chat_history
        (log (EvInsertChatHistory (ChatHistoryRow sid "ai" answer e4))
           (store (ChatHistoryRow sid "ai" answer e4)
              (log (EvEmbedQuery answer e4)
                 (log (EvInsertChatHistory (ChatHistoryRow sid "human" question e3))
                    (store (ChatHistoryRow sid "human" question e3)
                       (log (EvEmbedQuery question e3)
                          (log (EvLLM (qa_prompt context question recalled) answer)
                             (log (EvMatchDocuments e2 5 docs)
                                (log (EvEmbedQuery query e2)
                                   (log (EvLLM (contextualize_q_prompt question
                                                  recalled) query)
                                      (log (EvMatchChatHistory e1 sid 4 history_rows)
                                         (log (EvEmbedQuery question e1) w1)))))))))))) →
    calls w6 =
      calls
        (log (EvInsertChatHistory (ChatHistoryRow sid "ai" answer e4))
           (store (ChatHistoryRow sid "ai" answer e4)
              (log (EvEmbedQuery answer e4)
                 (log (EvInsertChatHistory (ChatHistoryRow sid "human" question e3))
                    (store (ChatHistoryRow sid "human" question e3)
                       (log (EvEmbedQuery question e3)
                          (log (EvLLM (qa_prompt context question recalled) answer)
                             (log (EvMatchDocuments e2 5 docs)
                                (log (EvEmbedQuery query e2)
                                   (log (EvLLM (contextualize_q_prompt question
                                                  recalled) query)
                                      (log (EvMatchChatHistory e1 sid 4 history_rows)
                                         (log (EvEmbedQuery question e1) w1))))))))))))
      ++ tail →
    chat_history w6 = chat_history w ++
                      [ChatHistoryRow sid "human" question e3;
                       ChatHistoryRow sid "ai" answer e4] ∧
    calls w6 = calls w ++
               turn_log fresh sid question e1 history_rows recalled query e2
                 docs context answer e3 e4 ++ tail) as Hturn.
  { intros tail w6 -> ->. simpl. rewrite Hh1, Hc1. unfold turn_log.
    split; by rewrite <- !app_assoc. }
  apply bind_run in H as [(e & He & ->)|(docs2 & w6 & Hdocs2 & H)].
  { apply get_retrieved_documents_run in He
      as [Htable [(e' & [= <-] & Hcalls & _)|[(e5 & e' & [= <-] & Hcalls & _)
                                             |(e5 & data & [=] & _)]]].
    - right. right. right. left.
      exists e, e1, history_rows, recalled, query, e2, docs, context, answer, e3, e4, [].
      split; [done|].
      destruct (Hturn [] w' Htable) as [-> ->]; [by rewrite app_nil_r|].
      split; [done|]. split; [done|]. by left.
    - right. right. right. left.
      exists e, e1, history_rows, recalled, query, e2, docs, context, answer, e3, e4,
        [EvEmbedQuery question e5].
      split; [done|].
      destruct (Hturn [EvEmbedQuery question e5] w' Htable) as [-> ->]; [done|].
      split; [done|]. split; [done|]. right. left. by exists e5. }
  apply get_retrieved_documents_run in Hdocs2
    as [Htable [(e' & [=] & _)|[(e5 & e' & [=] & _)
                               |(e5 & data & [= <-] & Hcalls & _)]]].
  destruct (Hturn _ w6 Htable Hcalls) as [Hh6 Hc6].
  apply bind_run in H as [(e & He & ->)|(srcs & w7 & Hsrcs & H)].
  { apply lift_run in He as [He ->].
    right. right. right. left.
    exists e, e1, history_rows, recalled, query, e2, docs, context, answer, e3, e4,
      [EvEmbedQuery question e5; EvMatchDocuments e5 5 docs2].
    split; [done|]. split; [done|]. split; [done|]. right. right.
    exists e5, docs2. split; [done|]. by rewrite <- He. }
  apply lift_run in Hsrcs as [Hsrcs ->].
  apply lift_run in H as [-> ->].
  destruct (new_QueryResponse answer srcs cid) as [e|resp] eqn:Hresp.
  - right. right. right. left.
    exists e, e1, history_rows, recalled, query, e2, docs, context, answer, e3, e4,
      [EvEmbedQuery question e5; EvMatchDocuments e5 5 docs2].
    split; [done|]. split; [done|]. split; [done|]. right. right.
    exists e5, docs2. split; [done|]. rewrite <- Hsrcs. exact Hresp.
  - right. right. right. right. by exists resp.
Qed.

End endpoint_outcomes.

Lemma query_log_history_ids {vec : Type} (fresh : list (event vec)) sid question
    e1 history_rows recalled query e2 docs context answer e3 e4 e5 docs2 :
  (fresh = [] ∨ ∃ u, fresh = [EvUuid4 u]) →
  let new := query_log fresh sid question e1 history_rows recalled query e2
               docs context answer e3 e4 e5 docs2 in
  history_store_ids new = [sid; sid; sid] ∧
  embedded_texts new = [question; query; question; answer; question] ∧
  llm_prompts new = [contextualize_q_prompt question recalled;
                     qa_prompt context question recalled] ∧
  match_documents_data new = [docs; docs2] ∧
  inserted_rows new = [ChatHistoryRow sid "human" question e3;
                       ChatHistoryRow sid "ai" answer e4].
Proof.
  intros [->|[u ->]]; done.
Qed.

(** X6: whatever the outcome of [POST /query], the [chat_history] table
    only grows, by the rows the request inserted, and these are none, the
    [human] row alone, or the [human] row followed by the [ai] row.  No
    row is written before the answering LLM call has returned: when a row
    was written the log holds that call, on a prompt that ends with the
    question of the row, and the [ai] row holds the answer it gave. *)
Theorem query_writes_only_after_the_answer {vec : Type} (P : ports vec)
    request (w : world vec) r w' :
  query_rag_endpoint P request w = (r, w') →
  let question := QueryRequest.question request in
  ∃ new rows,
    calls w' = calls w ++ new ∧
    chat_history w' = chat_history w ++ rows ∧
    inserted_rows new = rows ∧
    (rows = [] ∨
     ∃ sid recalled context answer e3,
       EvLLM (qa_prompt context question recalled) answer ∈ new ∧
       (rows = [ChatHistoryRow sid "human" question e3] ∨
        ∃ e4, rows = [ChatHistoryRow sid "human" question e3;
                      ChatHistoryRow sid "ai" answer e4])).
Proof.
  intros Hrun question.
  destruct (query_rag_endpoint_run P _ _ _ _ Hrun) as (cid & fresh & Hfresh & Hcases).
  assert (fresh = [] ∨ ∃ u, fresh = [EvUuid4 u]) as Hf.
  { destruct (QueryRequest.conversation_id request);
      destruct Hfresh as [_ ->]; eauto. }
  assert (inserted_rows fresh = []) as Hf0 by (by destruct Hf as [->|[u ->]]).
  fold question in Hcases.
  destruct Hcases as [(e & new & -> & Htable & Hcalls & Hrows)
    |[(e & e1 & hr & recalled & query & e2 & docs & context & answer & tail
       & -> & Htable & Hcalls & Htail)
    |[(e & e1 & hr & recalled & query & e2 & docs & context & answer & e3 & tail
       & -> & Htable & Hcalls & Htail)
    |[(e & e1 & hr & recalled & query & e2 & docs & context & answer & e3 & e4 & tail
       & -> & Htable & Hcalls & Htail)
    |(resp & ->)]]]].
  - exists new, []. rewrite app_nil_r. repeat (split; [done|]). by left.
  - eexists _, []. split; [exact Hcalls|]. rewrite app_nil_r. split; [done|].
    split; [|by left]. unfold inserted_rows, answer_log in *. rewrite !omap_app, Hf0.
    destruct Htail as [->|[e3 ->]]; done.
  - eexists _, _. split; [exact Hcalls|]. split; [exact Htable|]. split.
    { unfold inserted_rows, answer_log in *. rewrite !omap_app, Hf0.
      destruct Htail as [->|[e4 ->]]; done. }
    right. exists (str_uuid cid), recalled, context, answer, e3.
    split; [|by left]. unfold answer_log.
    rewrite !elem_of_app, !elem_of_cons. left. right. tauto.
  - eexists _, _. split; [exact Hcalls|]. split; [exact Htable|]. split.
    { unfold inserted_rows, turn_log in *. rewrite !omap_app, Hf0.
      destruct Htail as [->|[[e5 ->]|(e5 & docs2 & -> & _)]]; done. }
    right. exists (str_uuid cid), recalled, context, answer, e3.
    split; [|right; by exists e4]. unfold turn_log.
    rewrite !elem_of_app, !elem_of_cons. left. right. tauto.
  - destruct (query_rag_endpoint_inr P _ _ _ _ Hrun)
      as (fresh' & e1 & hr & recalled & query & e2 & docs & context
          & e3 & e4 & e5 & docs2 & srcs & Hfresh' & _ & _ & _ & _ & Hcalls & Htable).
    assert (fresh' = [] ∨ ∃ u, fresh' = [EvUuid4 u]) as Hf'.
    { destruct (QueryRequest.conversation_id request);
        destruct Hfresh' as [_ ->]; eauto. }
    eexists _, _. split; [exact Hcalls|]. split; [exact Htable|].
    split; [by apply query_log_history_ids|].
    right. eexists _, recalled, context, _, e3.
    split; [|right; by exists e4]. unfold query_log.
    rewrite !elem_of_app, !elem_of_cons. right. tauto.
Qed.

Lemma query_writes_only_after_the_answer_witness :
  ∃ new,
    calls (query_rag_endpoint scenarios.llm_down fake.request fake.w0).2
      = calls fake.w0 ++ new ∧
    chat_history (query_rag_endpoint scenarios.llm_down fake.request fake.w0).2
      = chat_history fake.w0 ∧
    inserted_rows new = [].
Proof.
  destruct (query_writes_only_after_the_answer scenarios.llm_down fake.request fake.w0
              (query_rag_endpoint scenarios.llm_down fake.request fake.w0).1
              (query_rag_endpoint scenarios.llm_down fake.request fake.w0).2)
    as (new & rows & Hcalls & Htable & Hrows & _).
  - vm_compute. reflexivity.
  - exists new. split; [exact Hcalls|].
    assert (rows = []) as ->.
    { apply (f_equal length) in Htable. rewrite length_app in Htable.
      vm_compute in Htable. by destruct rows. }
    rewrite app_nil_r in Htable. split; [exact Htable|exact Hrows].
Defined.

(** X7: a request can fail after it has written the turn.  When
    [POST /query] raises and the table has grown by two rows, everything
    up to the second insert succeeded, the two rows are the [human] and
    [ai] rows of the turn, and the error arose in the last step: in the
    embedding or the document match made for the sources, or in deriving
    the sources from the rows that match returned and building the
    response. *)
Theorem query_can_fail_after_writing {vec : Type} (P : ports vec)
    request (w : world vec) e w' :
  query_rag_endpoint P request w = (inl e, w') →
  length (chat_history w') = (length (chat_history w) + 2)%nat →
  let question := QueryRequest.question request in
  ∃ cid fresh e1 history_rows recalled query e2 docs context answer e3 e4 tail,
    let sid := str_uuid cid in
    chat_history w' = chat_history w ++
                      [ChatHistoryRow sid "human" question e3;
                       ChatHistoryRow sid "ai" answer e4] ∧
    calls w' = calls w ++
               turn_log fresh sid question e1 history_rows recalled query e2
                 docs context answer e3 e4 ++ tail ∧
    (tail = [] ∨
     (∃ e5, tail = [EvEmbedQuery question e5]) ∨
     (∃ e5 docs2,
        tail = [EvEmbedQuery question e5; EvMatchDocuments e5 5 docs2] ∧
        derive_sources docs2 ≫= (λ srcs, new_QueryResponse answer srcs cid) = inl e)).
Proof.
  intros Hrun Hlen question.
  destruct (query_rag_endpoint_run P _ _ _ _ Hrun) as (cid & fresh & Hfresh & Hcases).
  fold question in Hcases.
  destruct Hcases as [(e' & new & _ & Htable & _)
    |[(e' & e1 & hr & recalled & query & e2 & docs & context & answer & tail
       & _ & Htable & _)
    |[(e' & e1 & hr & recalled & query & e2 & docs & context & answer & e3 & tail
       & _ & Htable & _)
    |[(e' & e1 & hr & recalled & query & e2 & docs & context & answer & e3 & e4 & tail
       & [= <-] & Htable & Hcalls & Htail)
    |(resp & [=])]]]];
    try (rewrite Htable, ?length_app in Hlen; simpl in Hlen; lia).
  by exists cid, fresh, e1, hr, recalled, query, e2, docs, context, answer, e3, e4, tail.
Qed.

Lemma query_can_fail_after_writing_witness :
  ∃ cid fresh e1 history_rows recalled query e2 docs context answer e3 e4 tail,
    let sid := str_uuid cid in
    chat_history (query_rag_endpoint scenarios.without_metadata fake.request fake.w0).2
      = chat_history fake.w0 ++
        [ChatHistoryRow sid "human" "What is Supabase?" e3;
         ChatHistoryRow sid "ai" answer e4] ∧
    calls (query_rag_endpoint scenarios.without_metadata fake.request fake.w0).2
      = calls fake.w0 ++
        turn_log fresh sid "What is Supabase?" e1 history_rows recalled query e2
          docs context answer e3 e4 ++ tail ∧
    (tail = [] ∨
     (∃ e5, tail = [EvEmbedQuery "What is Supabase?" e5]) ∨
     (∃ e5 docs2,
        tail = [EvEmbedQuery "What is Supabase?" e5; EvMatchDocuments e5 5 docs2] ∧
        derive_sources docs2 ≫= (λ srcs, new_QueryResponse answer srcs cid)
          = inl (KeyError "metadata"))).
Proof.
  apply (query_can_fail_after_writing scenarios.without_metadata fake.request fake.w0
           (KeyError "metadata")
           (query_rag_endpoint scenarios.without_metadata fake.request fake.w0).2).
  - vm_compute. reflexivity.
  - vm_compute. reflexivity.
Defined.

(** ** What a successful request costs, and what the LLM is shown *)

(** X8: a successful [POST /query] makes exactly two LLM calls and five
    embedding calls.  The question is embedded three times (recall, write,
    sources), the reformulated question once and the answer once.  Both
    prompts carry the same recalled messages between the system message
    and the final human message, and both end with the original question:
    the reformulated question goes to the embedding only, never to the
    answering prompt. *)
Theorem query_calls_and_prompts {vec : Type} (P : ports vec)
    request (w : world vec) resp w' :
  query_rag_endpoint P request w = (inr resp, w') →
  let question := QueryRequest.question request in
  let answer := QueryResponse.answer resp in
  ∃ new query recalled context,
    calls w' = calls w ++ new ∧
    embedded_texts new = [question; query; question; answer; question] ∧
    llm_prompts new
      = [ [SystemMessage contextualize_q_system_prompt] ++ recalled
            ++ [HumanMessage question];
          [SystemMessage (qa_system_prompt context)] ++ recalled
            ++ [HumanMessage question] ] ∧
    EvLLM ([SystemMessage contextualize_q_system_prompt] ++ recalled
             ++ [HumanMessage question]) query ∈ new ∧
    EvLLM ([SystemMessage (qa_system_prompt context)] ++ recalled
             ++ [HumanMessage question]) answer ∈ new.
Proof.
  intros Hrun question answer.
  destruct (query_rag_endpoint_inr P _ _ _ _ Hrun)
    as (fresh & e1 & hr & recalled & query & e2 & docs & context
        & e3 & e4 & e5 & docs2 & srcs & Hfresh & _ & _ & _ & _ & Hcalls & _).
  assert (fresh = [] ∨ ∃ u, fresh = [EvUuid4 u]) as Hf.
  { destruct (QueryRequest.conversation_id request);
      destruct Hfresh as [_ ->]; eauto. }
  eexists _, query, recalled, context. split; [exact Hcalls|].
  destruct (query_log_history_ids fresh
              (str_uuid (QueryResponse.conversation_id resp)) question e1 hr
              recalled query e2 docs context answer e3 e4 e5 docs2 Hf)
    as (_ & Htexts & Hprompts & _).
  split; [exact Htexts|]. split; [exact Hprompts|].
  unfold query_log, contextualize_q_prompt, qa_prompt.
  split; rewrite !elem_of_app, !elem_of_cons; right; tauto.
Qed.

Lemma query_calls_and_prompts_witness :
  ∃ new query recalled context,
    calls fixtures.w2 = calls fixtures.w1 ++ new ∧
    embedded_texts new
      = ["Is it open source?"; query; "Is it open source?";
         QueryResponse.answer fixtures.response2; "Is it open source?"] ∧
    llm_prompts new
      = [ [SystemMessage contextualize_q_system_prompt] ++ recalled
            ++ [HumanMessage "Is it open source?"];
          [SystemMessage (qa_system_prompt context)] ++ recalled
            ++ [HumanMessage "Is it open source?"] ] ∧
    EvLLM ([SystemMessage contextualize_q_system_prompt] ++ recalled
             ++ [HumanMessage "Is it open source?"]) query ∈ new ∧
    EvLLM ([SystemMessage (qa_system_prompt context)] ++ recalled
             ++ [HumanMessage "Is it open source?"])
      (QueryResponse.answer fixtures.response2) ∈ new.
Proof.
  apply (query_calls_and_prompts fake.echo fixtures.follow_up fixtures.w1
           fixtures.response2 fixtures.w2).
  vm_compute. reflexivity.
Defined.

(** ** Conversations are kept apart *)

(** X9: two successful requests that name different conversations (ids
    below 2^128, as every UUID is) never use the same session id with the
    History Store: no recall or insert of the one carries the session id
    of a recall or insert of the other. *)
Theorem conversations_are_kept_apart {vec : Type} (P : ports vec)
    request1 request2 (w1 w2 : world vec) resp1 resp2 w1' w2' new1 new2 u v :
  QueryRequest.conversation_id request1 = Some u →
  QueryRequest.conversation_id request2 = Some v →
  0 ≤ u < 2 ^ 128 → 0 ≤ v < 2 ^ 128 → u ≠ v →
  query_rag_endpoint P request1 w1 = (inr resp1, w1') →
  query_rag_endpoint P request2 w2 = (inr resp2, w2') →
  calls w1' = calls w1 ++ new1 →
  calls w2' = calls w2 ++ new2 →
  history_store_ids new1 = [str_uuid u; str_uuid u; str_uuid u] ∧
  history_store_ids new2 = [str_uuid v; str_uuid v; str_uuid v] ∧
  ∀ sid, sid ∈ history_store_ids new1 → sid ∉ history_store_ids new2.
Proof.
  intros Hu Hv Hru Hrv Huv Hrun1 Hrun2 Hnew1 Hnew2.
  assert (∀ request (w : world vec) resp w' new c,
    QueryRequest.conversation_id request = Some c →
    query_rag_endpoint P request w = (inr resp, w') →
    calls w' = calls w ++ new →
    history_store_ids new = [str_uuid c; str_uuid c; str_uuid c]) as Hids.
  { intros request w resp w' new c Hc Hrun Hnew.
    destruct (query_rag_endpoint_inr P _ _ _ _ Hrun)
      as (fresh & e1 & hr & recalled & query & e2 & docs & context
          & e3 & e4 & e5 & docs2 & srcs & Hfresh & _ & _ & _ & _ & Hcalls & _).
    rewrite Hc in Hfresh. destruct Hfresh as [Hcid ->].
    rewrite Hnew in Hcalls. apply app_inv_head in Hcalls as ->.
    rewrite Hcid. by apply query_log_history_ids; left. }
  rewrite (Hids _ _ _ _ _ _ Hu Hrun1 Hnew1), (Hids _ _ _ _ _ _ Hv Hrun2 Hnew2).
  split; [done|]. split; [done|].
  intros sid Hin1 Hin2.
  assert (sid = str_uuid u) as -> by (rewrite !elem_of_cons in Hin1;
    destruct Hin1 as [?|[?|[?|?%elem_of_nil]]]; done).
  assert (str_uuid u = str_uuid v) as Heq by (rewrite !elem_of_cons in Hin2;
    destruct Hin2 as [?|[?|[?|?%elem_of_nil]]]; done).
  by apply str_uuid_inj in Heq.
Qed.

Lemma conversations_are_kept_apart_witness :
  ∃ new1 new2 : list (event nat),
    history_store_ids new1
      = ["00000000-0000-0000-0000-000000000001";
         "00000000-0000-0000-0000-000000000001";
         "00000000-0000-0000-0000-000000000001"] ∧
    history_store_ids new2
      = ["00000000-0000-0000-0000-000000000002";
         "00000000-0000-0000-0000-000000000002";
         "00000000-0000-0000-0000-000000000002"] ∧
    ∀ sid, sid ∈ history_store_ids new1 → sid ∉ history_store_ids new2.
Proof.
  exists (calls scenarios.outcome_a.2), (calls scenarios.outcome_b.2).
  apply (conversations_are_kept_apart fake.echo
           scenarios.request_a scenarios.request_b fake.w0 fake.w0
           (scenarios.response_of scenarios.outcome_a)
           (scenarios.response_of scenarios.outcome_b)
           scenarios.outcome_a.2 scenarios.outcome_b.2 _ _ 1 2);
    try (vm_compute; reflexivity); try lia.
Defined.

(** ** Sources: how many, and in what order *)

(** X10: the sources of a response are never more than the rows the
    Document Store returned, and there are none when it returned none.
    The order of the rows does not matter: if the step succeeds on some
    rows it succeeds on every reordering of them, with the same sources up
    to order. *)
Theorem sources_bounded_and_order_free (data data' : list row) srcs answer cid resp :
  derive_sources data = inr srcs →
  new_QueryResponse answer srcs cid = inr resp →
  data ≡ₚ data' →
  (length (QueryResponse.sources resp) ≤ length data)%nat ∧
  (data = [] → QueryResponse.sources resp = []) ∧
  ∃ srcs' resp',
    derive_sources data' = inr srcs' ∧
    new_QueryResponse answer srcs' cid = inr resp' ∧
    QueryResponse.sources resp ≡ₚ QueryResponse.sources resp'.
Proof.
  intros Hd Hr Hperm.
  destruct (response_sources _ _ _ _ _ Hd Hr) as [Hnd Hmem].
  assert (length (QueryResponse.sources resp) ≤ length data)%nat as Hlen.
  { etransitivity; [|apply (omap_length_le source_or_unknown)].
    apply submseteq_length, NoDup_submseteq; [done|].
    intros s Hs. apply Hmem in Hs as (doc & Hdoc & Hsrc).
    apply list_elem_of_omap. eauto. }
  split; [exact Hlen|]. split.
  { intros ->. simpl in Hlen. by destruct (QueryResponse.sources resp); [|simpl in Hlen; lia]. }
  pose proof (response_sources_sourced _ _ _ _ _ Hd Hr) as Hall.
  rewrite Hperm in Hall.
  destruct (response_sources_total data' answer cid Hall) as (srcs' & resp' & Hd' & Hr').
  exists srcs', resp'. split; [done|]. split; [done|].
  destruct (response_sources _ _ _ _ _ Hd' Hr') as [Hnd' Hmem'].
  apply NoDup_Permutation; [done..|].
  intros s. rewrite Hmem, Hmem'. by setoid_rewrite Hperm.
Qed.

Lemma sources_bounded_and_order_free_witness :
  ∃ srcs resp,
    derive_sources fake.documents = inr srcs ∧
    new_QueryResponse "answer" srcs 1 = inr resp ∧
    (length (QueryResponse.sources resp) ≤ 4)%nat ∧
    ∃ srcs' resp',
      derive_sources (reverse fake.documents) = inr srcs' ∧
      new_QueryResponse "answer" srcs' 1 = inr resp' ∧
      QueryResponse.sources resp ≡ₚ QueryResponse.sources resp'.
Proof.
  destruct (derive_sources fake.documents) as [e|srcs] eqn:Hd;
    [vm_compute in Hd; discriminate Hd|].
  destruct (new_QueryResponse "answer" srcs 1) as [e|resp] eqn:Hr.
  { revert Hr. vm_compute in Hd. injection Hd as <-. vm_compute. discriminate. }
  exists srcs, resp. split; [reflexivity|]. split; [exact Hr|].
  destruct (sources_bounded_and_order_free fake.documents (reverse fake.documents)
              srcs "answer" 1 resp Hd Hr) as (Hlen & _ & Hperm).
  - symmetry. apply reverse_Permutation.
  - split; [exact Hlen|exact Hperm].
Defined.

(** ** The context block: rows without content, and rows that break it *)

Lemma present_contents_filter (data : list row) :
  present_contents (filter (λ doc : row, is_Some (doc !! "content")) data)
  = present_contents data.
Proof.
  induction data as [|doc rest IH]; [done|].
  unfold present_contents in *. csimpl.
  destruct (doc !! "content") as [v|] eqn:Hv.
  - rewrite filter_cons_True by (by rewrite Hv). csimpl. rewrite Hv. by rewrite IH.
  - rewrite filter_cons_False by (rewrite Hv; by intros [? ?]). done.
Qed.

Lemma join_contents_present (data : list row) :
  join_contents data = str_join (nl +:+ nl) (present_contents data).
Proof. unfold join_contents. by rewrite join_contents_gathers. Qed.

Lemma mapM_as_str_inl (what : string) (items : list value) (e : exn) :
  mapM (as_str what) items = inl e ↔
  e = TypeError what ∧ ∃ v, v ∈ items ∧ ∀ text, v ≠ VStr text.
Proof.
  induction items as [|v items IH]; csimpl.
  - split; [done|]. by intros (_ & v & ?%elem_of_nil & _).
  - destruct v as [|text|d]; simpl.
    + split.
      * intros [= <-]. split; [done|]. exists VNone. split; [left|done].
      * by intros [-> _].
    + destruct (mapM (as_str what) items) as [e'|texts]; simpl.
      * rewrite IH. split.
        -- intros [-> (v & Hv & Hbad)].
           split; [done|]. exists v. split; [by right|done].
        -- intros [-> (v & [->|Hv]%elem_of_cons & Hbad)]; [by destruct (Hbad text)|].
           eauto.
      * split; [done|].
        intros [-> (v & [->|Hv]%elem_of_cons & Hbad)]; [by destruct (Hbad text)|].
        assert (@inr exn _ texts = inl (TypeError what)) as Habsurd; [|done].
        apply IH. eauto.
    + split.
      * intros [= <-]. split; [done|]. exists (VDict d). split; [left|done].
      * by intros [-> _].
Qed.

Lemma str_join_inl (sep : string) (items : list value) (e : exn) :
  str_join sep items = inl e ↔
  e = TypeError "sequence item: expected str instance" ∧
  ∃ v, v ∈ items ∧ ∀ text, v ≠ VStr text.
Proof.
  rewrite <- mapM_as_str_inl. unfold str_join.
  destruct (mapM _ items) as [e'|texts]; simpl; [|done].
  split; by intros [= ->].
Qed.

(** X11: rows without a [content] field are invisible to the context: the
    context, or the error, is that of the rows that have one, and rows
    that all lack it give the empty context.  The join fails exactly when
    some row has a [content] that is not a text (null, or a dictionary),
    and then with a [TypeError]. *)
Theorem context_ignores_rows_without_content (data : list row) :
  join_contents data
    = join_contents (filter (λ doc : row, is_Some (doc !! "content")) data) ∧
  (Forall (λ doc : row, doc !! "content" = None) data → join_contents data = inr "") ∧
  (∀ e, join_contents data = inl e ↔
        e = TypeError "sequence item: expected str instance" ∧
        ∃ doc, doc ∈ data ∧ bad_content doc).
Proof.
  split; [|split].
  - by rewrite !join_contents_present, present_contents_filter.
  - intros Hall. rewrite join_contents_present.
    assert (present_contents data = []) as ->; [|done].
    unfold present_contents. induction Hall as [|doc rest Hdoc _ IH]; [done|].
    csimpl. by rewrite Hdoc.
  - intros e. rewrite join_contents_present, str_join_inl.
    unfold present_contents, bad_content. split.
    + intros [-> (v & Hv & Hbad)]. split; [done|].
      apply list_elem_of_omap in Hv as (doc & Hdoc & Hv). eauto.
    + intros [-> (doc & Hdoc & v & Hv & Hbad)]. split; [done|].
      exists v. split; [|done]. apply list_elem_of_omap. eauto.
Qed.

Lemma context_ignores_rows_without_content_witness :
  join_contents [fake.chunk None (Some "a.pdf"); fake.chunk None None] = inr "".
Proof.
  apply (proj1 (proj2 (context_ignores_rows_without_content
                         [fake.chunk None (Some "a.pdf"); fake.chunk None None]))).
  repeat constructor.
Defined.

(** ** The evaluation, whatever its outcome *)

Lemma retrieval_events_quiet {vec : Type} (new : list (event vec)) :
  Forall retrieval_event new →
  inserted_rows new = [] ∧ llm_prompts new = [] ∧ history_store_ids new = [].
Proof.
  induction 1 as [|ev new Hev _ (IH1 & IH2 & IH3)]; [done|].
  unfold inserted_rows, llm_prompts, history_store_ids in *.
  destruct ev; try done; csimpl; by rewrite ?IH1, ?IH2, ?IH3.
Qed.

Lemma evaluate_query_run {vec F : Type} (P : ports vec) (A : arithmetic F)
    i q (w : world vec) r w' :
  evaluate_query P A i q w = (r, w') →
  chat_history w' = chat_history w ∧
  ∃ new,
    calls w' = calls w ++ new ∧ Forall retrieval_event new ∧
    match r with
    | inl _ => embedded_texts new = [] ∨ embedded_texts new = [EvalQuery.question q]
    | inr _ => embedded_texts new = [EvalQuery.question q]
    end.
Proof.
  unfold evaluate_query. intros H.
  apply bind_run in H as [(e & He & ->)|(data & w1 & Hd & H)].
  { apply get_retrieved_documents_run in He
      as [Htable [(e' & [= <-] & Hcalls & _)|[(v & e' & [= <-] & Hcalls & _)
                                             |(v & data & [=] & _)]]].
    - split; [done|]. exists []. rewrite app_nil_r. split; [done|].
      split; [constructor|by left].
    - split; [done|]. eexists. split; [exact Hcalls|].
      split; [by repeat constructor|by right]. }
  apply get_retrieved_documents_inr in Hd as (v & _ & ->).
  assert (Forall (retrieval_event (vec := vec))
            [EvEmbedQuery (EvalQuery.question q) v; EvMatchDocuments v 5 data])
    as Hevents by (by repeat constructor).
  apply bind_run in H as [(e & He & ->)|(retrieved & w2 & Hr & H)].
  { apply lift_run in He as [_ ->]. split; [done|].
    eexists. split; [simpl; by rewrite <- app_assoc|]. split; [done|by right]. }
  apply lift_run in Hr as [_ ->]. injection H as <- <-. split; [done|].
  eexists. split; [simpl; by rewrite <- app_assoc|]. by split.
Qed.

Lemma evaluate_loop_run {vec F : Type} (P : ports vec) (A : arithmetic F) queries :
  ∀ i acc (w : world vec) r w',
    evaluate_loop P A i queries acc w = (r, w') →
    chat_history w' = chat_history w ∧
    ∃ new,
      calls w' = calls w ++ new ∧ Forall retrieval_event new ∧
      embedded_texts new `prefix_of` (EvalQuery.question <$> queries).
Proof.
  induction queries as [|q rest IH]; intros i acc w r w' H.
  - injection H as <- <-. split; [done|]. exists []. rewrite app_nil_r.
    split; [done|]. split; [constructor|apply prefix_nil].
  - change (evaluate_loop P A i (q :: rest) acc)
      with (evaluate_query P A i q ≫= λ x, evaluate_loop P A (S i) rest (acc ++ [x]))
      in H.
    apply bind_run in H as [(e & He & ->)|(x & w1 & Hq & H)].
    + apply evaluate_query_run in He as (Htable & new & Hcalls & Hev & Htexts).
      split; [done|]. exists new. split; [done|]. split; [done|].
      rewrite fmap_cons.
      destruct Htexts as [-> | ->]; [apply prefix_nil|apply prefix_cons, prefix_nil].
    + apply evaluate_query_run in Hq as (Htable & new & Hcalls & Hev & Htexts).
      apply IH in H as (Htable' & new' & Hcalls' & Hev' & Htexts').
      split; [congruence|]. exists (new ++ new').
      split; [by rewrite Hcalls', Hcalls, app_assoc|].
      split; [by apply Forall_app|].
      unfold embedded_texts in *. rewrite omap_app, Htexts, fmap_cons.
      by apply prefix_cons.
Qed.

(** X12: whatever its outcome, [GET /eval] only reads documents: the
    [chat_history] table is unchanged and every call it makes is an
    embedding or a document match for 5 rows; no LLM call, no History
    Store call.  The fixed questions are embedded in their order, and a
    failure stops the evaluation there: the texts embedded are an initial
    part of the list of questions. *)
Theorem evaluation_only_reads_documents {vec F : Type} (P : ports vec)
    (A : arithmetic F) (w : world vec) r w' :
  evaluate_rag P A w = (r, w') →
  chat_history w' = chat_history w ∧
  ∃ new,
    calls w' = calls w ++ new ∧
    Forall retrieval_event new ∧
    inserted_rows new = [] ∧ llm_prompts new = [] ∧ history_store_ids new = [] ∧
    embedded_texts new `prefix_of` (EvalQuery.question <$> eval_queries).
Proof.
  unfold evaluate_rag. intros H.
  assert (∃ r0, evaluate_loop P A 0 eval_queries [] w = (r0, w')) as [r0 Hloop].
  { apply bind_run in H as [(e & He & _)|(results & w1 & Hl & H)]; [eauto|].
    injection H as _ <-. eauto. }
  apply evaluate_loop_run in Hloop as (Htable & new & Hcalls & Hev & Htexts).
  split; [done|]. exists new. split; [done|]. split; [done|].
  destruct (retrieval_events_quiet new Hev) as (? & ? & ?). done.
Qed.

Lemma evaluation_only_reads_documents_witness :
  chat_history (evaluate_rag scenarios.without_metadata ieee.arithmetic fixtures.w1).2
    = chat_history fixtures.w1 ∧
  ∃ new,
    calls (evaluate_rag scenarios.without_metadata ieee.arithmetic fixtures.w1).2
      = calls fixtures.w1 ++ new ∧
    Forall retrieval_event new ∧
    inserted_rows new = [] ∧ llm_prompts new = [] ∧ history_store_ids new = [] ∧
    embedded_texts new `prefix_of` (EvalQuery.question <$> eval_queries).
Proof.
  apply (evaluation_only_reads_documents scenarios.without_metadata ieee.arithmetic
           fixtures.w1
           (evaluate_rag scenarios.without_metadata ieee.arithmetic fixtures.w1).1).
  vm_compute. reflexivity.
Defined.

(** ** The evaluation: numbering and counts *)

Lemma evaluate_loop_ids {vec F : Type} (P : ports vec) (A : arithmetic F) queries :
  ∀ i acc (w : world vec) results w',
    evaluate_loop P A i queries acc w = (inr results, w') →
    ∃ new, results = acc ++ new ∧
           EvalResult.query_id <$> new
           = (λ j : nat, Z.of_nat j + 1) <$> seq i (length queries).
Proof.
  induction queries as [|q rest IH]; intros i acc w results w' H.
  - injection H as <- <-. exists []. by rewrite app_nil_r.
  - change (evaluate_loop P A i (q :: rest) acc)
      with (evaluate_query P A i q ≫= λ x, evaluate_loop P A (S i) rest (acc ++ [x]))
      in H.
    apply bind_inr in H as (x & w1 & Hq & H).
    apply evaluate_query_inr in Hq as (e & data & _ & Hid & _).
    apply IH in H as (new & -> & Hids).
    exists (x :: new). split; [by rewrite <- app_assoc|].
    rewrite fmap_cons, Hid, Hids. reflexivity.
Qed.

Lemma retrieved_basenames_length (data : list row) (retrieved : list string) :
  retrieved_basenames data = inr retrieved → length retrieved = length data.
Proof.
  destruct data as [|doc rest]; [by intros [= <-]|].
  unfold retrieved_basenames. intros H. apply mapM_res_inr in H.
  symmetry. by eapply Forall2_length.
Qed.

(** X13: in a report of [GET /eval] the results are numbered 1 to 10 in
    the order of the questions, and each lists one retrieved source per
    row the Document Store returned for its question.  The precision of a
    result is the float quotient by 3 of a whole number that lies between
    0 and the number of rows retrieved, and that is 0 exactly when no
    retrieved source is among the expected ones.  It is 0 / 3 for the
    tenth question, which expects no source. *)
Theorem evaluation_numbering_and_counts {vec F : Type} (P : ports vec)
    (A : arithmetic F) (w : world vec) report w' :
  evaluate_rag P A w = (inr report, w') →
  let results := EvalReport.query_results report in
  EvalResult.query_id <$> results = [1; 2; 3; 4; 5; 6; 7; 8; 9; 10] ∧
  (∃ new, calls w' = calls w ++ new ∧
          Forall2 (λ data r, length (EvalResult.retrieved_sources r) = length data)
            (match_documents_data new) results) ∧
  Forall (λ r, ∃ n : nat,
            EvalResult.precision_at_k r = PyFloat (py_truediv A (PyInt (Z.of_nat n)) 3) ∧
            (n ≤ length (EvalResult.retrieved_sources r))%nat ∧
            (n = 0%nat ↔ Forall (λ name, name ∉ EvalResult.expected_sources r)
                           (EvalResult.retrieved_sources r))) results ∧
  (∃ r, results !! 9%nat = Some r ∧
        EvalResult.precision_at_k r = PyFloat (py_truediv A (PyInt 0) 3)).
Proof.
  unfold evaluate_rag. intros H.
  apply bind_inr in H as (results & w1 & Hloop & H).
  apply ret_inr in H as [-> ->].
  cbn [EvalReport.query_results EvalReport.overall_average_precision_at_k].
  pose proof (evaluate_loop_ids P A _ _ _ _ _ _ Hloop) as (new & Hres & Hids).
  simpl in Hres. subst new.
  apply evaluate_loop_inr in Hloop
    as (new & datas & evs & Hres & Hcalls & Hdatas & _ & Hall & _).
  simpl in Hres. subst new datas.
  split; [exact Hids|]. split; [|split].
  - exists evs. split; [done|]. clear Hids Hcalls.
    induction Hall as [|q data r qs ds rs Hscored _ IH]; constructor; [|exact IH].
    destruct Hscored as (_ & _ & Hret & _). by apply retrieved_basenames_length.
  - clear Hids Hcalls. induction Hall as [|q data r qs ds rs Hscored _ IH];
      constructor; [|exact IH].
    destruct Hscored as (_ & _ & _ & ->). eexists. split; [reflexivity|].
    split; [apply chunks_credited_le|apply chunks_credited_none].
  - destruct (Forall3_lookup_l _ _ _ _ 9%nat
                (EvalQuery.mk "What is the embedding dimension for all-MiniLM-L6-v2?" [])
                Hall) as (data & r & _ & Hr & Hscored); [reflexivity|].
    exists r. split; [exact Hr|].
    destruct Hscored as (_ & Hexpected & _ & ->). simpl in Hexpected.
    rewrite Hexpected.
    by rewrite (proj2 (chunks_credited_none (EvalResult.retrieved_sources r) []))
      by (apply Forall_forall; intros name _; apply not_elem_of_nil).
Qed.

Lemma evaluation_numbering_and_counts_witness :
  let results := EvalReport.query_results fixtures.report in
  EvalResult.query_id <$> results = [1; 2; 3; 4; 5; 6; 7; 8; 9; 10] ∧
  (∃ new, calls fixtures.evaluation.2 = calls fake.w0 ++ new ∧
          Forall2 (λ data r, length (EvalResult.retrieved_sources r) = length data)
            (match_documents_data new) results) ∧
  Forall (λ r, ∃ n : nat,
            EvalResult.precision_at_k r
            = PyFloat (ieee.truediv (PyInt (Z.of_nat n)) 3) ∧
            (n ≤ length (EvalResult.retrieved_sources r))%nat ∧
            (n = 0%nat ↔ Forall (λ name, name ∉ EvalResult.expected_sources r)
                           (EvalResult.retrieved_sources r))) results ∧
  (∃ r, results !! 9%nat = Some r ∧
        EvalResult.precision_at_k r = PyFloat (ieee.truediv (PyInt 0) 3)).
Proof.
  apply (evaluation_numbering_and_counts fake.echo ieee.arithmetic fake.w0
           fixtures.report fixtures.evaluation.2).
  vm_compute. reflexivity.
Defined.

(** ** File names in the evaluation *)

Lemma rfind_from_no_slash (p : string) (i last : Z) :
  has_slash p = false → rfind_from "/"%char p i last = last.
Proof.
  revert i last. induction p as [|c p IH]; intros i last; simpl; [done|].
  intros [Hc Hp]%orb_false_elim. rewrite Hc. by apply IH.
Qed.

Lemma rfind_from_last_slash (before name : string) (i last : Z) :
  has_slash name = false →
  rfind_from "/"%char (before +:+ String "/"%char name) i last
  = i + Z.of_nat (String.length before).
Proof.
  intros Hname. revert i last. induction before as [|c before IH]; intros i last.
  - change (rfind_from "/"%char name (i + 1) i = i + 0).
    rewrite rfind_from_no_slash by done. lia.
  - rewrite string_app_cons. simpl rfind_from. rewrite IH. simpl String.length. lia.
Qed.

Lemma slice_from_after (before name : string) (c : ascii) :
  slice_from (S (String.length before)) (before +:+ String c name) = name.
Proof.
  induction before as [|d before IH]; [done|].
  rewrite string_app_cons. exact IH.
Qed.

Lemma basename_after_last_slash (before name : string) :
  has_slash name = false → basename (before +:+ String "/"%char name) = name.
Proof.
  intros Hname. unfold basename, rfind. rewrite rfind_from_last_slash by done.
  replace (Z.to_nat (0 + Z.of_nat (String.length before) + 1))
    with (S (String.length before)) by lia.
  apply slice_from_after.
Qed.

Lemma basename_without_slash (p : string) : has_slash p = false → basename p = p.
Proof.
  intros Hp. unfold basename, rfind. by rewrite rfind_from_no_slash.
Qed.

Lemma last_slash_split (p : string) :
  has_slash p = true →
  ∃ before name, p = before +:+ String "/"%char name ∧ has_slash name = false.
Proof.
  induction p as [|c p IH]; simpl; [done|].
  destruct (has_slash p) eqn:Hp.
  - intros _. destruct (IH eq_refl) as (before & name & -> & Hname).
    exists (String c before), name. by rewrite string_app_cons.
  - rewrite orb_false_r. intros Hc%Ascii.eqb_eq. subst c. by exists "", p.
Qed.

Lemma basename_has_no_slash (p : string) : has_slash (basename p) = false.
Proof.
  destruct (has_slash p) eqn:Hp.
  - apply last_slash_split in Hp as (before & name & -> & Hname).
    by rewrite basename_after_last_slash.
  - by rewrite basename_without_slash.
Qed.

Lemma retrieved_basename_of (doc : row) (name : string) :
  (source ← metadata_source "" doc; os_path_basename source) = inr name →
  ∃ source, source_or_empty doc = Some source ∧ name = basename source.
Proof.
  unfold metadata_source, source_or_empty, getitem, dict_get.
  destruct (doc !! "metadata") as [[|t|metadata]|]; simpl; try done.
  destruct (metadata !! "source") as [[|s|d]|]; simpl; try done;
    intros [= <-]; eauto.
Qed.

(** X14: [GET /eval] reports and compares file names, not paths.  Every
    retrieved source it lists is the part of the chunk's [metadata.source]
    after the last ['/'], the empty name for a metadata without source, and
    so holds no ['/'].  A source stored as [directory/name] is listed as
    [name], under whatever directory; a source without ['/'] is listed
    whole. *)
Theorem evaluation_lists_file_names (data : list row) (retrieved : list string) :
  retrieved_basenames data = inr retrieved →
  Forall2 (λ doc name,
             ∃ source, source_or_empty doc = Some source ∧ name = basename source)
          data retrieved ∧
  Forall (λ name, has_slash name = false) retrieved ∧
  (∀ directory name,
     has_slash name = false → basename (directory +:+ "/" +:+ name) = name) ∧
  (∀ name, has_slash name = false → basename name = name).
Proof.
  intros Hret.
  assert (Forall2 (λ doc name,
                     ∃ source, source_or_empty doc = Some source
                               ∧ name = basename source) data retrieved) as Hall.
  { destruct data as [|doc rest]; [injection Hret as <-; constructor|].
    unfold retrieved_basenames in Hret. apply mapM_res_inr in Hret.
    eapply Forall2_impl; [exact Hret|]. intros d name. apply retrieved_basename_of. }
  split; [exact Hall|]. split.
  - clear Hret. induction Hall as [|doc name ds names (source & _ & ->) _ IH];
      constructor; [apply basename_has_no_slash|exact IH].
  - split.
    + intros directory name Hname. by apply basename_after_last_slash.
    + apply basename_without_slash.
Qed.

Lemma evaluation_lists_file_names_witness :
  Forall (λ name, has_slash name = false)
    ["Database_Operations.pdf"; "Database_Operations.pdf";
     "Authentication_Methods.pdf"; ""].
Proof.
  destruct (evaluation_lists_file_names fake.documents
              ["Database_Operations.pdf"; "Database_Operations.pdf";
               "Authentication_Methods.pdf"; ""]) as (_ & Hnames & _).
  - vm_compute. reflexivity.
  - exact Hnames.
Defined.

(** ** The ingestion script *)

(** X15: the ingestion script asks less of the environment than the API.
    It raises [ValueError] exactly when the Supabase URL or the Supabase
    key is unset or empty, and otherwise goes on with the two values as
    found.  Every environment with which the API configuration loads also
    lets the script start, with the same URL and key; the converse fails:
    without a Google API key the script starts and the API does not. *)
Theorem ingestion_needs_supabase_only (env : config.environ) :
  (ingest.check_credentials env = inl (ValueError ingest.missing_credentials) ↔
   config.py_not (env !! "SUPABASE_URL") = true ∨
   config.py_not (env !! "SUPABASE_ANON_KEY") = true) ∧
  (∀ url key,
     ingest.check_credentials env = inr (url, key) ↔
     env !! "SUPABASE_URL" = Some url ∧ env !! "SUPABASE_ANON_KEY" = Some key ∧
     url ≠ "" ∧ key ≠ "") ∧
  (∀ s, config.load env = inr s →
        ingest.check_credentials env
        = inr (config.SUPABASE_URL s, config.SUPABASE_KEY s)) ∧
  (∃ env', (∃ url key, ingest.check_credentials env' = inr (url, key)) ∧
           ∃ e, config.load env' = inl e).
Proof.
  unfold ingest.check_credentials, config.load, config.getenv, config.getenv_default.
  split; [|split; [|split]].
  - destruct (config.py_not (env !! "SUPABASE_URL")),
      (config.py_not (env !! "SUPABASE_ANON_KEY")); simpl; naive_solver.
  - intros url key.
    destruct (env !! "SUPABASE_URL") as [u|], (env !! "SUPABASE_ANON_KEY") as [k'|];
      simpl; repeat case_bool_decide; simpl; naive_solver.
  - intros s.
    destruct (config.py_not (env !! "SUPABASE_URL")),
      (config.py_not (env !! "SUPABASE_ANON_KEY")),
      (config.py_not (env !! "GOOGLE_API_KEY")); simpl; try done.
    by intros [= <-].
  - exists fixtures.env_without_google_key. split.
    + by exists "https://project.supabase.co", "anon-key".
    + by eexists.
Qed.

Lemma ingestion_needs_supabase_only_witness :
  ingest.check_credentials fixtures.env_without_model
  = inr ("https://project.supabase.co", "anon-key").
Proof.
  destruct (config.load fixtures.env_without_model) as [e|s] eqn:Hload;
    [vm_compute in Hload; discriminate Hload|].
  rewrite (proj1 (proj2 (proj2 (ingestion_needs_supabase_only
                                  fixtures.env_without_model))) s Hload).
  vm_compute in Hload. injection Hload as <-. reflexivity.
Defined.

Lemma not_elem_of_Forall {A : Type} (x : A) (l : list A) :
  Forall (λ y, x ≠ y) l → x ∉ l.
Proof.
  induction 1 as [|y l Hy _ IH]; [apply not_elem_of_nil|].
  apply not_elem_of_cons. done.
Qed.

(** No other line of the script reads ["Ingestion complete!"]. *)

Section lines.

Context {document : Type}.
Implicit Types (documents : list document) (path model text : string).

Lemma complete_not_loading path : ingest.complete_line ≠ ingest.loading_line path.
Proof. unfold ingest.loading_line. rewrite string_app_cons. differ. Qed.

Lemma complete_not_loaded documents : ingest.complete_line ≠ ingest.loaded_line documents.
Proof. unfold ingest.loaded_line. rewrite string_app_cons. differ. Qed.

Lemma complete_not_splitting : ingest.complete_line ≠ ingest.splitting_line.
Proof. differ. Qed.

Lemma complete_not_split documents : ingest.complete_line ≠ ingest.split_line documents.
Proof. unfold ingest.split_line. rewrite string_app_cons. differ. Qed.

Lemma complete_not_initializing model :
  ingest.complete_line ≠ ingest.initializing_line model.
Proof. unfold ingest.initializing_line. rewrite !string_app_cons. differ. Qed.

Lemma complete_not_initialized : ingest.complete_line ≠ ingest.initialized_line.
Proof. differ. Qed.

Lemma complete_not_ingesting : ingest.complete_line ≠ ingest.ingesting_line.
Proof. differ. Qed.

Lemma complete_not_no_documents : ingest.complete_line ≠ ingest.no_documents_line.
Proof. differ. Qed.

Lemma complete_not_error text : ingest.complete_line ≠ ingest.error_line text.
Proof. unfold ingest.error_line. rewrite string_app_cons. differ. Qed.

End lines.

Create HintDb ingest_lines.
#[local] Hint Resolve complete_not_loading complete_not_loaded complete_not_splitting
  complete_not_split complete_not_initializing complete_not_initialized
  complete_not_ingesting complete_not_no_documents complete_not_error : ingest_lines.

Section ingestion.

Context {document : Type} (P : ingest.ports document).

(** Every run of [ingest_documents]: the script is run call by call, and
    each way the calls can go is looked at. *)
Lemma ingest_documents_run (script_dir : string) (t : list (ingest.event document))
    r t' :
  ingest.ingest_documents P script_dir t = (r, t') →
  let path := ingest.documents_path script_dir in
  ∃ new documents chunks,
    t' = t ++ new ∧
    ingest.collaborations new `prefix_of`
      [ingest.Loaded path documents;
       ingest.Split 1000 200 documents chunks;
       ingest.ModelInitialized "all-MiniLM-L6-v2";
       ingest.Stored chunks "documents" "match_documents" 500] ∧
    (documents = [] → ingest.collaborations new `prefix_of` [ingest.Loaded path []]) ∧
    (length (ingest.stored new) ≤ 1)%nat ∧
    (∀ x, r = inl x →
          ingest.raises P x ∧
          ((∃ name, x = ingest.BaseException name) ∨
           ∃ e, ingest.raises P (ingest.Exception e) ∧
                (ingest.str_exn P e = inl x ∨
                 ∃ text, ingest.str_exn P e = inr text ∧
                         ingest.stdout_write P t' (ingest.error_line text) = Some x))) ∧
    (r = inr () →
     (last (ingest.printed new) = Some ingest.complete_line ∧
      head (ingest.printed new) = Some (ingest.loading_line path) ∧
      ingest.collaborations new
      = [ingest.Loaded path documents;
         ingest.Split 1000 200 documents chunks;
         ingest.ModelInitialized "all-MiniLM-L6-v2";
         ingest.Stored chunks "documents" "match_documents" 500] ∧
      ingest.stored new = [(chunks, "documents", "match_documents", 500)]) ∨
     (last (ingest.printed new) = Some ingest.no_documents_line ∧
      head (ingest.printed new) = Some (ingest.loading_line path) ∧
      ingest.collaborations new = [ingest.Loaded path []] ∧
      ingest.stored new = []) ∨
     (∃ e text,
        ingest.raises P (ingest.Exception e) ∧
        ingest.str_exn P e = inr text ∧
        last (ingest.printed new) = Some (ingest.error_line text) ∧
        (ingest.complete_line ∉ ingest.printed new) ∧
        (head (ingest.printed new) = Some (ingest.loading_line path) ∨
         ingest.printed new = [ingest.error_line text]) ∧
        (ingest.stored new = [] ∨
         ∃ log, ingest.stdout_write P log ingest.complete_line
                = Some (ingest.Exception e)))).
Proof.
  intros H path.
  unfold ingest.ingest_documents, ingest.try_except, mbind, ingest.I_bind, ingest.print,
    ingest.load, ingest.split, ingest.init_embeddings, ingest.store_documents,
    ingest.format_exn in H.
  fold path in H. run_script H.
  all: injection H as <- <-.
  all: rewrite <- ?app_assoc in *; cbn [app] in *.
  all: first [ eexists _, _, _; split; [reflexivity|]
             | exists [], [], []; split; [by rewrite app_nil_r|] ].
  all: unfold ingest.collaborations, ingest.stored, ingest.printed; csimpl.
  all: split; [repeat (apply prefix_cons); apply prefix_nil|].
  all: split; [first [discriminate 1 | intros _; repeat (apply prefix_cons); apply prefix_nil]|].
  all: split; [lia|].
  all: split; [first [discriminate 1 | intros ? [= <-]] | first [discriminate 1 | intros _]].
  all: lazymatch goal with
       | |- ingest.raises _ _ ∧ _ =>
           split; [raised_by_a_call|];
           first [ (left; by eexists)
                 | (right; eexists; split; [raised_by_a_call|];
                    first [ (left; eassumption)
                          | (right; eexists; split; eassumption) ]) ]
       | |- _ =>
           first [ (left; split; [reflexivity|split; [reflexivity|split; reflexivity]])
                 | (right; left;
                    split; [reflexivity|split; [reflexivity|split; reflexivity]])
                 | (right; right; eexists _, _;
                    split; [raised_by_a_call|];
                    split; [eassumption|];
                    split; [reflexivity|];
                    split; [apply not_elem_of_Forall; repeat constructor;
                            auto with ingest_lines|];
                    split; [first [(left; reflexivity) | (right; reflexivity)]|];
                    first [ (left; reflexivity) | (right; eexists; eassumption) ]) ]
       end.
  Unshelve. all: exact [].
Qed.

End ingestion.

(** X16: [ingest_documents] only adds to what was printed and called
    before, and it calls its collaborators in one order, each only when
    the one before returned: the loader on the [documents] directory beside
    the script, the splitter with chunk size 1000 and overlap 200 on the
    pages loaded, the embedding model ["all-MiniLM-L6-v2"], and the vector
    store, once, on the chunks the splitter returned, for the table
    ["documents"], the query ["match_documents"] and batches of 500.  When
    the loader finds no page, nothing is called after it.  An exception
    leaves the function only if it is not an [Exception]
    ([KeyboardInterrupt], [SystemExit]) or if the handler itself raised
    it, while it formatted or printed the error line.  So the function
    returns whenever no call raises anything but an [Exception], every
    exception has a text and the error line can be printed. *)
Theorem ingestion_catches_exceptions {document : Type} (P : ingest.ports document)
    (script_dir : string) (t : list (ingest.event document)) r t' :
  ingest.ingest_documents P script_dir t = (r, t') →
  let path := ingest.documents_path script_dir in
  (∃ new documents chunks,
     t' = t ++ new ∧
     ingest.collaborations new `prefix_of`
       [ingest.Loaded path documents;
        ingest.Split 1000 200 documents chunks;
        ingest.ModelInitialized "all-MiniLM-L6-v2";
        ingest.Stored chunks "documents" "match_documents" 500] ∧
     (documents = [] → ingest.collaborations new `prefix_of` [ingest.Loaded path []]) ∧
     (length (ingest.stored new) ≤ 1)%nat) ∧
  (∀ x, r = inl x →
        ingest.raises P x ∧
        ((∃ name, x = ingest.BaseException name) ∨
         ∃ e, ingest.raises P (ingest.Exception e) ∧
              (ingest.str_exn P e = inl x ∨
               ∃ text, ingest.str_exn P e = inr text ∧
                       ingest.stdout_write P t' (ingest.error_line text) = Some x))) ∧
  ((∀ name, ¬ ingest.raises P (ingest.BaseException name)) →
   (∀ e, ∃ text, ingest.str_exn P e = inr text) →
   (∀ log text, ingest.stdout_write P log (ingest.error_line text) = None) →
   r = inr ()).
Proof.
  intros Hrun path.
  destruct (ingest_documents_run P script_dir t r t' Hrun)
    as (new & documents & chunks & Hlog & Horder & Hempty & Honce & Hraised & _).
  fold path in Horder, Hempty.
  split; [by exists new, documents, chunks|]. split; [exact Hraised|].
  intros Hbase Htext Hprint. destruct r as [x|[]]; [|done].
  destruct (Hraised x eq_refl) as [Hx [[name ->]|(e & _ & [Hstr|(text & _ & Hout)])]].
  - destruct (Hbase name Hx).
  - destruct (Htext e) as [text Htext']. congruence.
  - rewrite Hprint in Hout. discriminate Hout.
Qed.

Lemma ingestion_catches_exceptions_witness :
  let path := ingest.documents_path "/app/scripts" in
  let P := ingest.fake_ports false in
  let r := ingest.store_down_run.1 in
  let t' := ingest.store_down_run.2 in
  (∃ new documents chunks,
     t' = [] ++ new ∧
     ingest.collaborations new `prefix_of`
       [ingest.Loaded path documents;
        ingest.Split 1000 200 documents chunks;
        ingest.ModelInitialized "all-MiniLM-L6-v2";
        ingest.Stored chunks "documents" "match_documents" 500] ∧
     (documents = [] → ingest.collaborations new `prefix_of` [ingest.Loaded path []]) ∧
     (length (ingest.stored new) ≤ 1)%nat) ∧
  (∀ x, r = inl x →
        ingest.raises P x ∧
        ((∃ name, x = ingest.BaseException name) ∨
         ∃ e, ingest.raises P (ingest.Exception e) ∧
              (ingest.str_exn P e = inl x ∨
               ∃ text, ingest.str_exn P e = inr text ∧
                       ingest.stdout_write P t' (ingest.error_line text) = Some x))) ∧
  ((∀ name, ¬ ingest.raises P (ingest.BaseException name)) →
   (∀ e, ∃ text, ingest.str_exn P e = inr text) →
   (∀ log text, ingest.stdout_write P log (ingest.error_line text) = None) →
   r = inr ()).
Proof.
  apply (ingestion_catches_exceptions (ingest.fake_ports false) "/app/scripts" []
           ingest.store_down_run.1 ingest.store_down_run.2).
  vm_compute. reflexivity.
Defined.

(** X17: when [ingest_documents] returns, the last line it printed tells
    what happened.  It is ["Ingestion complete!"] only after the vector
    store took the chunks; it is the "no documents" line when the loader
    found no page, and then nothing was split, embedded or stored;
    otherwise it is the error line, made from the text of an [Exception]
    that a call of the script raised, and then ["Ingestion complete!"] was
    not printed.  The error line does not say that nothing was stored: it
    also follows a store that took the chunks when the printing of
    ["Ingestion complete!"] is what failed.  The first line printed is the
    "loading" line, unless the error line is the only one. *)
Theorem ingestion_reports_its_outcome {document : Type} (P : ingest.ports document)
    (script_dir : string) (t t' : list (ingest.event document)) :
  ingest.ingest_documents P script_dir t = (inr (), t') →
  let path := ingest.documents_path script_dir in
  ∃ new,
    t' = t ++ new ∧
    ((last (ingest.printed new) = Some ingest.complete_line ∧
      head (ingest.printed new) = Some (ingest.loading_line path) ∧
      ∃ chunks, ingest.stored new = [(chunks, "documents", "match_documents", 500)]) ∨
     (last (ingest.printed new) = Some ingest.no_documents_line ∧
      head (ingest.printed new) = Some (ingest.loading_line path) ∧
      ingest.collaborations new = [ingest.Loaded path []]) ∨
     (∃ e text,
        ingest.raises P (ingest.Exception e) ∧
        ingest.str_exn P e = inr text ∧
        last (ingest.printed new) = Some (ingest.error_line text) ∧
        (ingest.complete_line ∉ ingest.printed new) ∧
        (head (ingest.printed new) = Some (ingest.loading_line path) ∨
         ingest.printed new = [ingest.error_line text]) ∧
        (ingest.stored new = [] ∨
         ∃ log, ingest.stdout_write P log ingest.complete_line
                = Some (ingest.Exception e)))).
Proof.
  intros Hrun path.
  destruct (ingest_documents_run P script_dir t _ t' Hrun)
    as (new & documents & chunks & Hlog & _ & _ & _ & _ & Hreturned).
  fold path in Hreturned. exists new. split; [exact Hlog|].
  destruct (Hreturned eq_refl)
    as [(Hlast & Hfirst & _ & Hstored)|[(Hlast & Hfirst & Hcalls & _)|Herror]].
  - left. split; [done|]. split; [done|]. by exists chunks.
  - right. left. done.
  - right. right. exact Herror.
Qed.

Lemma ingestion_reports_its_outcome_witness :
  let path := ingest.documents_path "/app/scripts" in
  let P := ingest.closing_pipe in
  ∃ new,
    ingest.closing_pipe_run.2 = [] ++ new ∧
    ((last (ingest.printed new) = Some ingest.complete_line ∧
      head (ingest.printed new) = Some (ingest.loading_line path) ∧
      ∃ chunks, ingest.stored new = [(chunks, "documents", "match_documents", 500)]) ∨
     (last (ingest.printed new) = Some ingest.no_documents_line ∧
      head (ingest.printed new) = Some (ingest.loading_line path) ∧
      ingest.collaborations new = [ingest.Loaded path []]) ∨
     (∃ e text,
        ingest.raises P (ingest.Exception e) ∧
        ingest.str_exn P e = inr text ∧
        last (ingest.printed new) = Some (ingest.error_line text) ∧
        (ingest.complete_line ∉ ingest.printed new) ∧
        (head (ingest.printed new) = Some (ingest.loading_line path) ∨
         ingest.printed new = [ingest.error_line text]) ∧
        (ingest.stored new = [] ∨
         ∃ log, ingest.stdout_write P log ingest.complete_line
                = Some (ingest.Exception e)))).
Proof.
  apply (ingestion_reports_its_outcome ingest.closing_pipe "/app/scripts" []
           ingest.closing_pipe_run.2).
  vm_compute. reflexivity.
Defined.

(** ** Runs of the ingestion script *)

(** Everything works: what the script prints and calls, in order. *)
Example ingestion_completes :
  ingest.ingest_documents (ingest.fake_ports true) "/app/scripts" []
  = (inr (),
     [ingest.Printed "Loading documents from '/app/scripts/../documents' directory...";
      ingest.Loaded "/app/scripts/../documents" ["page one"; "page two"];
      ingest.Printed "Loaded 2 document pages.";
      ingest.Printed "Splitting documents into chunks...";
      ingest.Split 1000 200 ["page one"; "page two"] ["page"; "one"; "page two"];
      ingest.Printed "Split into 3 chunks.";
      ingest.Printed "Initializing local embedding model: all-MiniLM-L6-v2...";
      ingest.ModelInitialized "all-MiniLM-L6-v2";
      ingest.Printed "Local embedding model initialized.";
      ingest.Printed
        "Ingesting documents into Supabase vector store... This may take a few minutes.";
      ingest.Stored ["page"; "one"; "page two"] "documents" "match_documents" 500;
      ingest.Printed "Ingestion complete!"]).
Proof. by vm_compute. Qed.

(** The directory is empty: the script stops after the loader. *)
Example empty_directory_stops_after_loading :
  ingest.ingest_documents ingest.empty_directory "/app/scripts" []
  = (inr (),
     [ingest.Printed "Loading documents from '/app/scripts/../documents' directory...";
      ingest.Loaded "/app/scripts/../documents" [];
      ingest.Printed "No documents found in the 'documents' directory. Exiting."]).
Proof. by vm_compute. Qed.

(** The store is down: the error line is the last line, and the function
    returns. *)
Example store_down_prints_the_error :
  ingest.store_down_run.1 = inr () ∧
  last (ingest.printed ingest.store_down_run.2)
  = Some "An error occurred during ingestion: connection refused" ∧
  ingest.stored ingest.store_down_run.2 = [].
Proof. by vm_compute. Qed.

(** The pipe closes: the chunks are in the store, and the last line says
    that an error occurred. *)
Example closing_pipe_reports_an_error_after_storing :
  ingest.closing_pipe_run.1 = inr () ∧
  last (ingest.printed ingest.closing_pipe_run.2)
  = Some "An error occurred during ingestion: [Errno 32] Broken pipe" ∧
  ingest.stored ingest.closing_pipe_run.2
  = [(["page"; "one"; "page two"], "documents", "match_documents", 500)].
Proof. by vm_compute. Qed.

(** The user interrupts: [KeyboardInterrupt] is no [Exception], and the
    function raises it. *)
Example interrupt_is_not_caught :
  ingest.interrupted_run
  = (inl (ingest.BaseException "KeyboardInterrupt"),
     [ingest.Printed "Loading documents from '/app/scripts/../documents' directory..."]).
Proof. by vm_compute. Qed.
